(** * Email extractor: a shallow embedding of the crawl engine

    The development follows [definition/core.py] (class [EmailExtractor]),
    the search selection of [definition/worker.py] and the handlers of
    [engine/api.py] that write to the database.  Python [str] values are
    modelled as [string] (sequences of 8-bit characters); the character
    classes and case mapping below are the ASCII ones, which is what the
    Python methods compute on ASCII text. *)

From Stdlib Require Import String Ascii List Bool Arith Lia ZArith Permutation.
Import ListNotations.
Open Scope string_scope.
Open Scope bool_scope.

Set Implicit Arguments.

(** ** Python string operations *)

Module PyStr.

Definition code (c : ascii) : nat := nat_of_ascii c.

Definition in_range (lo hi : nat) (c : ascii) : bool :=
  Nat.leb lo (code c) && Nat.leb (code c) hi.

Definition is_upper (c : ascii) : bool := in_range 65 90 c.
Definition is_lower (c : ascii) : bool := in_range 97 122 c.
Definition is_alpha (c : ascii) : bool := is_upper c || is_lower c.
Definition is_digit (c : ascii) : bool := in_range 48 57 c.
Definition is_alnum (c : ascii) : bool := is_alpha c || is_digit c.

(** [str.isspace] on one ASCII character: TAB..CR, FS..US and the space. *)
Definition is_space (c : ascii) : bool :=
  in_range 9 13 c || in_range 28 32 c.

(** [c in chars] for a character [c]. *)
Fixpoint mem_char (c : ascii) (chars : string) : bool :=
  match chars with
  | EmptyString => false
  | String d chars' => Ascii.eqb c d || mem_char c chars'
  end.

Definition lower_char (c : ascii) : ascii :=
  if is_upper c then ascii_of_nat (code c + 32) else c.

(** [s.lower()] *)
Fixpoint lower (s : string) : string :=
  match s with
  | EmptyString => EmptyString
  | String c s' => String (lower_char c) (lower s')
  end.

Fixpoint forallb_str (p : ascii -> bool) (s : string) : bool :=
  match s with
  | EmptyString => true
  | String c s' => p c && forallb_str p s'
  end.

Fixpoint existsb_str (p : ascii -> bool) (s : string) : bool :=
  match s with
  | EmptyString => false
  | String c s' => p c || existsb_str p s'
  end.

(** [s.startswith(p)] *)
Definition startswith (s p : string) : bool := String.prefix p s.

(** [sub in s] *)
Fixpoint contains (s sub : string) : bool :=
  String.prefix sub s ||
  match s with
  | EmptyString => false
  | String _ s' => contains s' sub
  end.

(** [s[n:]] and [s[:n]] *)
Fixpoint drop (n : nat) (s : string) : string :=
  match n, s with
  | O, _ => s
  | S _, EmptyString => EmptyString
  | S k, String _ s' => drop k s'
  end.

Fixpoint take (n : nat) (s : string) : string :=
  match n, s with
  | O, _ => EmptyString
  | S _, EmptyString => EmptyString
  | S k, String c s' => String c (take k s')
  end.

(** [s.endswith(p)] *)
Definition endswith (s p : string) : bool :=
  Nat.leb (String.length p) (String.length s) &&
  String.eqb (drop (String.length s - String.length p) s) p.

(** The longest prefix of [s] free of characters satisfying [p], and the
    rest: with [i] the index of the first such character ([len(s)] when
    there is none) this is [(s[:i], s[i:])]. *)
Fixpoint break_at (p : ascii -> bool) (s : string) : string * string :=
  match s with
  | EmptyString => (EmptyString, EmptyString)
  | String c s' =>
      if p c then (EmptyString, s)
      else let (a, b) := break_at p s' in (String c a, b)
  end.

(** [(s[:i], s[i:])] for [i = s.rfind(c)]; [None] when [c] does not occur. *)
Fixpoint rbreak (c : ascii) (s : string) : option (string * string) :=
  match s with
  | EmptyString => None
  | String a s' =>
      match rbreak c s' with
      | Some (h, t) => Some (String a h, t)
      | None => if Ascii.eqb a c then Some (EmptyString, s) else None
      end
  end.

(** [s.lstrip(chars)], [s.rstrip(chars)], [s.strip(chars)] with the set of
    characters given as a predicate. *)
Fixpoint lstrip (p : ascii -> bool) (s : string) : string :=
  match s with
  | EmptyString => EmptyString
  | String c s' => if p c then lstrip p s' else s
  end.

Fixpoint rstrip (p : ascii -> bool) (s : string) : string :=
  match s with
  | EmptyString => EmptyString
  | String c s' =>
      match rstrip p s' with
      | EmptyString => if p c then EmptyString else String c EmptyString
      | r => String c r
      end
  end.

Definition strip (p : ascii -> bool) (s : string) : string :=
  lstrip p (rstrip p s).

(** [s.replace(old, new)] for a non-empty [old]: occurrences are replaced
    from the left and do not overlap; [skip] counts the characters of the
    occurrence being replaced that are still to be passed over. *)
Fixpoint replace_from (old new : string) (skip : nat) (s : string) : string :=
  match s with
  | EmptyString => EmptyString
  | String c s' =>
      match skip with
      | S k => replace_from old new k s'
      | O =>
          if String.prefix old s
          then new ++ replace_from old new (String.length old - 1) s'
          else String c (replace_from old new 0 s')
      end
  end.

Definition replace (old new s : string) : string := replace_from old new 0 s.

(** Removal of single characters, [s.replace(c, "")] for each [c] of a set. *)
Fixpoint remove_chars (p : ascii -> bool) (s : string) : string :=
  match s with
  | EmptyString => EmptyString
  | String c s' => if p c then remove_chars p s' else String c (remove_chars p s')
  end.

(** [s.split(sep)] for a one-character separator. *)
Fixpoint split (sep : ascii) (s : string) : list string :=
  match s with
  | EmptyString => [EmptyString]
  | String c s' =>
      if Ascii.eqb c sep then EmptyString :: split sep s'
      else match split sep s' with
           | [] => [String c EmptyString]
           | seg :: segs => String c seg :: segs
           end
  end.

(** [sep.join(parts)] *)
Fixpoint join (sep : string) (parts : list string) : string :=
  match parts with
  | [] => EmptyString
  | [x] => x
  | x :: rest => x ++ sep ++ join sep rest
  end.

(** Python truthiness of a string and the idiom [s or d]. *)
Definition truthy (s : string) : bool :=
  match s with EmptyString => false | _ => true end.

Definition or_else (s d : string) : string := if truthy s then s else d.

End PyStr.
Import PyStr.

(** ** The URL library

    [urllib.parse] as used by the extractor: [urlparse], [urlunparse] and
    [urljoin].  A parse that raises [ValueError] is [None].  Two checks of
    the library, the validation of a bracketed (IPv6) host and the NFKC
    check of a non-ASCII host, are parameters: they only decide whether a
    host carrying brackets or non-ASCII characters is rejected. *)

Module Urllib.

Record ParseResult : Type := mkParse {
  scheme : string;
  netloc : string;
  path : string;
  params : string;
  query : string;
  fragment : string
}.

Definition uses_relative : list string :=
  [""; "ftp"; "http"; "gopher"; "nntp"; "imap"; "wais"; "file"; "https";
   "shttp"; "mms"; "prospero"; "rtsp"; "rtspu"; "sftp"; "svn"; "svn+ssh";
   "ws"; "wss"].

Definition uses_netloc : list string :=
  [""; "ftp"; "http"; "gopher"; "nntp"; "telnet"; "imap"; "wais"; "file";
   "mms"; "https"; "shttp"; "snews"; "prospero"; "rtsp"; "rtspu"; "rsync";
   "svn"; "svn+ssh"; "sftp"; "nfs"; "git"; "git+ssh"; "ws"; "wss"].

Definition uses_params : list string :=
  [""; "ftp"; "hdl"; "prospero"; "http"; "imap"; "https"; "shttp"; "rtsp";
   "rtspu"; "sip"; "sips"; "mms"; "sftp"; "tel"].

Definition in_list (s : string) (l : list string) : bool :=
  existsb (String.eqb s) l.

Definition scheme_char (c : ascii) : bool := is_alnum c || mem_char c "+-.".

(** [_WHATWG_C0_CONTROL_OR_SPACE]: the characters 0x00..0x20. *)
Definition c0_or_space (c : ascii) : bool := Nat.leb (code c) 32.

(** [_UNSAFE_URL_BYTES_TO_REMOVE]: TAB, CR and LF. *)
Definition unsafe_byte (c : ascii) : bool :=
  Nat.eqb (code c) 9 || Nat.eqb (code c) 13 || Nat.eqb (code c) 10.

Definition is_ascii (c : ascii) : bool := Nat.leb (code c) 127.

Definition has (c : ascii) (s : string) : bool := existsb_str (Ascii.eqb c) s.

(** [s.split(c, 1)] when [c] occurs in [s]: the text before the first [c]
    and the text after it. *)
Definition cut (c : ascii) (s : string) : string * string :=
  let (a, b) := break_at (Ascii.eqb c) s in (a, drop 1 b).

(** The scheme test of [urlsplit]: with [i = url.find(':')], when [i > 0],
    [url[0]] is an ASCII letter and [url[:i]] consists of scheme characters,
    the scheme is [url[:i].lower()] and the rest is [url[i+1:]]. *)
Definition split_scheme (url scheme : string) : string * string :=
  match break_at (Ascii.eqb ":") url with
  | (String c0 pre, String _ rest) =>
      if is_alpha c0 && forallb_str scheme_char (String c0 pre)
      then (lower (String c0 pre), rest)
      else (scheme, url)
  | _ => (scheme, url)
  end.

(** [_splitnetloc(url, start)] *)
Definition splitnetloc (url : string) (start : nat) : string * string :=
  break_at (fun c => mem_char c "/?#") (drop start url).

(** [_splitparams(url)], called only when [';' in url]. *)
Definition splitparams (url : string) : string * string :=
  match rbreak "/" url with
  | Some (h, t) =>
      match break_at (Ascii.eqb ";") t with
      | (a, String _ b) => (h ++ a, b)
      | (_, EmptyString) => (url, EmptyString)
      end
  | None => cut ";" url
  end.

(** [urlunsplit((scheme, netloc, url, query, fragment))] *)
Definition urlunsplit (scheme netloc url query fragment : string) : string :=
  let url :=
    if truthy netloc ||
       (truthy scheme && in_list scheme uses_netloc && negb (startswith url "//"))
    then
      let url := if truthy url && negb (startswith url "/") then "/" ++ url else url in
      "//" ++ netloc ++ url
    else url in
  let url := if truthy scheme then scheme ++ ":" ++ url else url in
  let url := if truthy query then url ++ "?" ++ query else url in
  let url := if truthy fragment then url ++ "#" ++ fragment else url in
  url.

(** [urlunparse(components)] *)
Definition urlunparse (p : ParseResult) : string :=
  let url := if truthy (params p) then path p ++ ";" ++ params p else path p in
  urlunsplit (scheme p) (netloc p) url (query p) (fragment p).

(** The middle of [urljoin]: [segments[1:-1] = filter(None, segments[1:-1])]. *)
Definition filter_middle (segments : list string) : list string :=
  match segments with
  | first :: (_ :: _) as rest =>
      (first :: filter truthy (removelast rest) ++ [last rest EmptyString])%list
  | _ => segments
  end.

(** The loop of [urljoin] over the segments, building [resolved_path]. *)
Definition resolve_step (resolved_path : list string) (seg : string) : list string :=
  if String.eqb seg ".." then removelast resolved_path
  else if String.eqb seg "." then resolved_path
  else (resolved_path ++ [seg])%list.

Section Checks.

(** [_check_bracketed_netloc] does not raise. *)
Variable bracketed_netloc_ok : string -> bool.
(** The NFKC test of [_checknetloc] does not raise. *)
Variable nfkc_netloc_ok : string -> bool.

Definition checknetloc (netloc : string) : bool :=
  if negb (truthy netloc) || forallb_str is_ascii netloc then true
  else nfkc_netloc_ok netloc.

(** [urlsplit(url, scheme)], as its components, or [None] for [ValueError]. *)
Definition urlsplit (url scheme : string)
  : option (string * string * string * string * string) :=
  let url := lstrip c0_or_space url in
  let scheme := strip c0_or_space scheme in
  let url := remove_chars unsafe_byte url in
  let scheme := remove_chars unsafe_byte scheme in
  let '(scheme, url) := split_scheme url scheme in
  let '(netloc, url) :=
    if startswith url "//" then splitnetloc url 2 else (EmptyString, url) in
  if (has "[" netloc && negb (has "]" netloc)) ||
     (has "]" netloc && negb (has "[" netloc))
  then None
  else if has "[" netloc && has "]" netloc && negb (bracketed_netloc_ok netloc)
  then None
  else
    let '(url, fragment) := if has "#" url then cut "#" url else (url, EmptyString) in
    let '(url, query) := if has "?" url then cut "?" url else (url, EmptyString) in
    if checknetloc netloc
    then Some (scheme, netloc, url, query, fragment)
    else None.

(** [urlparse(url, scheme)] *)
Definition urlparse (url scheme : string) : option ParseResult :=
  match urlsplit url scheme with
  | None => None
  | Some (scheme, netloc, url, query, fragment) =>
      let '(url, params) :=
        if in_list scheme uses_params && has ";" url
        then splitparams url else (url, EmptyString) in
      Some (mkParse scheme netloc url params query fragment)
  end.

(** [urljoin(base, url)], or [None] when a parse raises. *)
Definition urljoin (base url : string) : option string :=
  if negb (truthy base) then Some url
  else if negb (truthy url) then Some base
  else
    match urlparse base EmptyString with
    | None => None
    | Some b =>
        match urlparse url (scheme b) with
        | None => None
        | Some u =>
            if negb (String.eqb (scheme u) (scheme b)) ||
               negb (in_list (scheme u) uses_relative)
            then Some url
            else if in_list (scheme u) uses_netloc && truthy (netloc u)
            then Some (urlunparse u)
            else
              let netloc' :=
                if in_list (scheme u) uses_netloc then netloc b else netloc u in
              if negb (truthy (path u)) && negb (truthy (params u))
              then
                let query' := if truthy (query u) then query u else query b in
                Some (urlunparse (mkParse (scheme u) netloc' (path b) (params b)
                                          query' (fragment u)))
              else
                let base_parts := split "/" (path b) in
                let base_parts :=
                  if negb (String.eqb (last base_parts EmptyString) EmptyString)
                  then removelast base_parts else base_parts in
                let segments :=
                  if startswith (path u) "/" then split "/" (path u)
                  else filter_middle (base_parts ++ split "/" (path u))%list in
                let resolved_path := fold_left resolve_step segments [] in
                let resolved_path :=
                  if String.eqb (last segments EmptyString) "." ||
                     String.eqb (last segments EmptyString) ".."
                  then (resolved_path ++ [EmptyString])%list else resolved_path in
                Some (urlunparse (mkParse (scheme u) netloc'
                                          (or_else (join "/" resolved_path) "/")
                                          (params u) (query u) (fragment u)))
        end
    end.

End Checks.

End Urllib.
Import Urllib.

(** ** Regular expressions

    The fragment of Python's [re] that the patterns of the extractor are
    written in: literals, character classes, greedy repetition of a class,
    capture groups and the word boundary.  Matching is by backtracking,
    longest repetition first, as [re] does. *)

Module Re.

Inductive node : Type :=
| Lit (c : ascii)                        (* a literal character *)
| One (p : ascii -> bool)                (* [...] *)
| Many (p : ascii -> bool) (min : nat)   (* [...]*, [...]+, [...]{n,} *)
| Open (g : nat)                         (* ( *)
| Close (g : nat)                        (* ) *)
| WordB.                                 (* \b *)

Definition regex : Type := list node.

(** A replacement template such as [\1@\2.\3]. *)
Inductive titem : Type :=
| TGroup (g : nat)
| TChr (c : ascii).

Fixpoint lits (s : string) : regex :=
  match s with
  | EmptyString => []
  | String c s' => Lit c :: lits s'
  end.

(** [\w] *)
Definition is_word (c : ascii) : bool := is_alnum c || Ascii.eqb c "_".

Definition word_opt (c : option ascii) : bool :=
  match c with Some x => is_word x | None => false end.

Definition head_opt (s : string) : option ascii :=
  match s with EmptyString => None | String c _ => Some c end.

(** Number of leading characters of [s] in the class [p]. *)
Fixpoint run_length (p : ascii -> bool) (s : string) : nat :=
  match s with
  | EmptyString => 0
  | String c s' => if p c then S (run_length p s') else 0
  end.

(** The character before position [k] of [s], [prev] when [k = 0]. *)
Definition prev_after (prev : option ascii) (s : string) (k : nat) : option ascii :=
  match k with
  | O => prev
  | S k' => head_opt (drop k' s)
  end.

Definition lit_eq (ignorecase : bool) (x c : ascii) : bool :=
  if ignorecase then Ascii.eqb (lower_char x) (lower_char c) else Ascii.eqb x c.

(** Groups as association lists: the opening position of each open group,
    and the text of each closed one. *)
Definition lookup {A : Type} (g : nat) (l : list (nat * A)) : option A :=
  match find (fun e => Nat.eqb (fst e) g) l with
  | Some e => Some (snd e)
  | None => None
  end.

(** Match [r] at position [pos] of [text]; [s] is [text[pos:]] and [prev]
    the character before it.  The result is the end of the match and the
    captured groups. *)
Fixpoint match_here (ignorecase : bool) (r : regex) (text : string)
    (prev : option ascii) (s : string) (pos : nat)
    (opens : list (nat * nat)) (caps : list (nat * string))
  : option (nat * list (nat * string)) :=
  match r with
  | [] => Some (pos, caps)
  | Lit c :: r' =>
      match s with
      | String x s' =>
          if lit_eq ignorecase x c
          then match_here ignorecase r' text (Some x) s' (S pos) opens caps
          else None
      | EmptyString => None
      end
  | One p :: r' =>
      match s with
      | String x s' =>
          if p x
          then match_here ignorecase r' text (Some x) s' (S pos) opens caps
          else None
      | EmptyString => None
      end
  | Many p min :: r' =>
      let n := run_length p s in
      if Nat.ltb n min then None
      else
        (fix try (k : nat) : option (nat * list (nat * string)) :=
           match match_here ignorecase r' text (prev_after prev s k) (drop k s)
                            (pos + k) opens caps with
           | Some res => Some res
           | None =>
               match k with
               | O => None
               | S k' => if Nat.leb min k' then try k' else None
               end
           end) n
  | Open g :: r' =>
      match_here ignorecase r' text prev s pos ((g, pos) :: opens) caps
  | Close g :: r' =>
      match lookup g opens with
      | Some start =>
          match_here ignorecase r' text prev s pos opens
                     ((g, take (pos - start) (drop start text)) :: caps)
      | None => None
      end
  | WordB :: r' =>
      if xorb (word_opt prev) (word_opt (head_opt s))
      then match_here ignorecase r' text prev s pos opens caps
      else None
  end.

Fixpoint expand (template : list titem) (caps : list (nat * string)) : string :=
  match template with
  | [] => EmptyString
  | TGroup g :: t =>
      match lookup g caps with
      | Some x => x ++ expand t caps
      | None => expand t caps
      end
  | TChr c :: t => String c (expand t caps)
  end.

(** [pattern.sub(template, text)]: matches are found from the left and do
    not overlap; [skip] counts the characters of the last match still to be
    passed over.  The patterns used here match no empty string. *)
Fixpoint sub_from (ignorecase : bool) (r : regex) (template : list titem)
    (text : string) (prev : option ascii) (s : string) (pos skip : nat) : string :=
  match s with
  | EmptyString => EmptyString
  | String c s' =>
      match skip with
      | S k => sub_from ignorecase r template text (Some c) s' (S pos) k
      | O =>
          match match_here ignorecase r text prev s pos [] [] with
          | Some (e, caps) =>
              if Nat.ltb pos e
              then expand template caps ++
                   sub_from ignorecase r template text (Some c) s' (S pos) (e - pos - 1)
              else String c (sub_from ignorecase r template text (Some c) s' (S pos) 0)
          | None => String c (sub_from ignorecase r template text (Some c) s' (S pos) 0)
          end
      end
  end.

Definition sub (ignorecase : bool) (r : regex) (template : list titem)
    (text : string) : string :=
  sub_from ignorecase r template text None text 0 0.

(** [pattern.findall(text)] for a pattern without groups: the matched texts. *)
Fixpoint findall_from (ignorecase : bool) (r : regex)
    (text : string) (prev : option ascii) (s : string) (pos skip : nat) : list string :=
  match s with
  | EmptyString => []
  | String c s' =>
      match skip with
      | S k => findall_from ignorecase r text (Some c) s' (S pos) k
      | O =>
          match match_here ignorecase r text prev s pos [] [] with
          | Some (e, _) =>
              if Nat.ltb pos e
              then take (e - pos) s ::
                   findall_from ignorecase r text (Some c) s' (S pos) (e - pos - 1)
              else findall_from ignorecase r text (Some c) s' (S pos) 0
          | None => findall_from ignorecase r text (Some c) s' (S pos) 0
          end
      end
  end.

Definition findall (ignorecase : bool) (r : regex) (text : string) : list string :=
  findall_from ignorecase r text None text 0 0.

End Re.
Import Re.

(** ** The extractor ([EmailExtractor], core.py) *)

(** A document as [BeautifulSoup] gives it to the extractor: the elements
    that carry an [href] attribute, in document order, each with its tag
    name and the attribute's value, and the text of [get_text()]. *)
Record document : Type := mkDocument {
  href_tags : list (string * string);
  get_text : string
}.

(** The libraries the extractor calls and this development does not open. *)
Record Libraries : Type := mkLibraries {
  lib_bracketed_netloc_ok : string -> bool;
  lib_nfkc_netloc_ok : string -> bool;
  (** [BeautifulSoup(html, 'html.parser')]; [None] when it raises. *)
  lib_BeautifulSoup : string -> option document;
  (** [validate_email(email, check_deliverability=False).normalized];
      [None] for [EmailNotValidError]. *)
  lib_validate_email : string -> option string
}.

(** Sets of strings, as lists without repetition. *)
Definition str_in (x : string) (l : list string) : bool := existsb (String.eqb x) l.

Definition set_add (x : string) (l : list string) : list string :=
  if str_in x l then l else (l ++ [x])%list.

Definition set_update (l new : list string) : list string :=
  fold_left (fun acc x => set_add x acc) new l.

Definition EMAIL_PATHS : list string :=
  ["/contact"; "/about"; "/team"; "/careers"; "/jobs";
   "/faq"; "/privacy"; "/support"; "/legal"; "/terms";
   "/company"; "/staff"; "/people"; "/leadership";
   "/contact-us"; "/about-us"; "/our-team"; "/meet-the-team"].

Definition user_char (c : ascii) : bool := is_alnum c || mem_char c "._%+-".
Definition host_char (c : ascii) : bool := is_alnum c || mem_char c ".-".
Definition tld_char (c : ascii) : bool := is_alpha c || Ascii.eqb c "|".

(** [\b[A-Za-z0-9][A-Za-z0-9._%+-]*@[A-Za-z0-9][A-Za-z0-9.-]*\.[A-Z|a-z]{2,}\b] *)
Definition EMAIL_PATTERN : regex :=
  [WordB; One is_alnum; Many user_char 0; Lit "@"; One is_alnum;
   Many host_char 0; Lit "."; Many tld_char 2; WordB].

(** [(user)\s*AT\s*(host)\s*DOT\s*(tld)] with the two separators given. *)
Definition obfuscated (at_ dot : string) : regex :=
  ([Open 1; Many user_char 1; Close 1; Many is_space 0] ++ lits at_ ++
   [Many is_space 0; Open 2; Many host_char 1; Close 2; Many is_space 0] ++
   lits dot ++
   [Many is_space 0; Open 3; Many is_alpha 2; Close 3])%list.

(** [\1@\2.\3] *)
Definition email_template : list titem :=
  [TGroup 1; TChr "@"; TGroup 2; TChr "."; TGroup 3].

(** The patterns with their [re.I] flag and replacement, in order. *)
Definition OBFUSCATED_PATTERNS : list (bool * regex * list titem) :=
  [(true, obfuscated "[at]" "[dot]", email_template);
   (true, obfuscated "(at)" "(dot)", email_template);
   (false, obfuscated "[AT]" "[DOT]", email_template);
   (false, obfuscated "@" ".", email_template);
   (true, obfuscated "(a)" "(dot)", email_template)].

Definition excluded_extensions : list string :=
  [".pdf"; ".jpg"; ".jpeg"; ".png"; ".gif"; ".css";
   ".js"; ".ico"; ".svg"; ".zip"; ".mp4"; ".mp3";
   ".avi"; ".mov"; ".wmv"; ".flv"; ".webm";
   ".doc"; ".docx"; ".xls"; ".xlsx"; ".ppt"; ".pptx";
   ".exe"; ".dmg"; ".apk"; ".deb"; ".rpm"].

Definition dquote : ascii := ascii_of_nat 34.

Section EmailExtractor.

Variable libs : Libraries.

Definition parse (url : string) : option ParseResult :=
  urlparse (lib_bracketed_netloc_ok libs) (lib_nfkc_netloc_ok libs) url EmptyString.

Definition join_url (base url : string) : option string :=
  urljoin (lib_bracketed_netloc_ok libs) (lib_nfkc_netloc_ok libs) base url.

(** [url.startswith(('http://', 'https://'))] *)
Definition has_scheme_prefix (url : string) : bool :=
  startswith url "http://" || startswith url "https://".

Definition normalize_url (url : string) : string :=
  if negb (truthy url) then url
  else
    let url := if negb (has_scheme_prefix url) then "https://" ++ url else url in
    match parse url with
    | Some parsed =>
        let netloc := replace "www." EmptyString (lower (netloc parsed)) in
        let path := or_else (rstrip (Ascii.eqb "/") (path parsed)) "/" in
        urlunparse (mkParse (scheme parsed) netloc path EmptyString EmptyString EmptyString)
    | None => url
    end.

Definition extract_domain (url : string) : string :=
  match parse url with
  | Some parsed => replace "www." EmptyString (lower (netloc parsed))
  | None => EmptyString
  end.

Definition is_valid_url (url base_domain : string) : bool :=
  match parse url with
  | Some parsed =>
      if negb (truthy (scheme parsed)) || negb (truthy (netloc parsed)) then false
      else
        let url_domain := replace "www." EmptyString (lower (netloc parsed)) in
        if negb (String.eqb url_domain base_domain) &&
           negb (endswith url_domain ("." ++ base_domain))
        then false
        else
          let path_lower := lower (path parsed) in
          if existsb (endswith path_lower) excluded_extensions then false
          else true
  | None => false
  end.

(** [href.startswith(('mailto:', 'tel:', 'javascript:', '#'))] *)
Definition skipped_href (href : string) : bool :=
  startswith href "mailto:" || startswith href "tel:" ||
  startswith href "javascript:" || startswith href "#".

(** The loop of [extract_links] over the tags found.  A failing [urljoin]
    skips the tag; a failing [urlparse] of the joined URL leaves the loop
    through the outer handler with the links collected so far. *)
Fixpoint extract_links_loop (tags : list (string * string))
    (base_url base_domain : string) (links : list string) : list string :=
  match tags with
  | [] => links
  | (_, href) :: rest =>
      if skipped_href href then extract_links_loop rest base_url base_domain links
      else
        match join_url base_url href with
        | None => extract_links_loop rest base_url base_domain links
        | Some absolute_url =>
            match parse absolute_url with
            | None => links
            | Some parsed =>
                let clean_url :=
                  urlunparse (mkParse (scheme parsed) (netloc parsed) (path parsed)
                                      EmptyString EmptyString EmptyString) in
                if is_valid_url clean_url base_domain
                then extract_links_loop rest base_url base_domain (set_add clean_url links)
                else extract_links_loop rest base_url base_domain links
            end
        end
  end.

(** [soup.find_all(names, href=True)] *)
Definition find_all (names : list string) (soup : document) : list (string * string) :=
  filter (fun t => str_in (fst t) names) (href_tags soup).

Definition extract_links (html base_url base_domain : string) : list string :=
  match lib_BeautifulSoup libs html with
  | None => []
  | Some soup => extract_links_loop (find_all ["a"; "area"] soup) base_url base_domain []
  end.

(** The [mailto:] loop of [extract_emails_from_html]. *)
Fixpoint mailto_loop (tags : list (string * string)) (emails : list string) : list string :=
  match tags with
  | [] => emails
  | (_, href) :: rest =>
      if startswith href "mailto:"
      then
        let email := strip is_space (hd EmptyString (split "?" (drop 7 href))) in
        if truthy email then mailto_loop rest (set_add email emails)
        else mailto_loop rest emails
      else mailto_loop rest emails
  end.

Definition deobfuscate (text : string) : string :=
  fold_left (fun text p =>
               let '(ignorecase, pattern, replacement) := p in
               sub ignorecase pattern replacement text)
            OBFUSCATED_PATTERNS text.

Definition extract_emails_from_html (html : string) : list string :=
  match lib_BeautifulSoup libs html with
  | None => []
  | Some soup =>
      let emails := mailto_loop (find_all ["a"] soup) [] in
      let text := deobfuscate (get_text soup) in
      let found := findall false EMAIL_PATTERN text in
      set_update emails found
  end.

Definition normalize_email (email : string) : option string :=
  let email := strip is_space (lower email) in
  let email := rstrip (fun c => mem_char c ".,;:!?") email in
  let email := strip (fun c => mem_char c "<>()[]{}' " || Ascii.eqb c dquote) email in
  lib_validate_email libs email.

End EmailExtractor.

(** ** The page fetcher *)

(** What [session.get] and reading the response can do.  An error is an
    [Exception]: a timeout, an [aiohttp.ClientError] or any other. *)
Inductive error : Type :=
| TimeoutError
| ClientError (msg : string)
| OtherError (msg : string).

Inductive read_outcome : Type :=
| ReadOk (text : string)
| ReadError (e : error).

Record response : Type := mkResponse {
  status : nat;
  content_type_header : option string;   (* [headers.get('Content-Type')] *)
  read_text : read_outcome               (* [await response.text(errors='ignore')] *)
}.

Inductive get_outcome : Type :=
| GetError (e : error)
| GetResponse (r : response).

(** [fetch_page]: the pair [(html_content, status_code)] for what the
    request did. *)
Definition fetch_page (session_get : string -> get_outcome) (url : string)
  : option string * nat :=
  match session_get url with
  | GetResponse r =>
      if Nat.eqb (status r) 200
      then
        let content_type :=
          lower (match content_type_header r with Some v => v | None => EmptyString end) in
        if contains content_type "text/html" || contains content_type "text/plain"
        then match read_text r with
             | ReadOk text => (Some text, status r)
             | ReadError _ => (None, 0)
             end
        else (None, status r)
      else (None, status r)
  | GetError _ => (None, 0)
  end.

(** ** The database *)

Inductive domain_status : Type := Pending | Crawling | Completed | Failed.

Record domain_row : Type := mkDomain {
  d_status : domain_status;
  d_pages_crawled : nat;
  d_emails_found : nat;
  d_error_message : option string;
  d_worker_id : option string;
  d_locked_at : option nat
}.

Record page_row : Type := mkPage {
  p_domain_id : nat;
  p_url : string;
  p_status_code : nat;
  p_content_type : option string;
  p_error_message : option string
}.

Record email_row : Type := mkEmail {
  e_domain_id : nat;
  e_page_id : nat;
  e_raw_email : string;
  e_normalized_email : string
}.

(** The rows a crawl of one domain reads and writes: the domain's own row
    and the page and email tables. *)
Record database : Type := mkDatabase {
  db_domain : domain_row;
  db_pages : list page_row;
  db_emails : list email_row
}.

(** The statements of [crawl_domain]. *)
Inductive statement : Type :=
| ClaimDomain
| InsertPage (url : string)
| InsertEmails
| CompleteDomain
| FailDomain.

(** What surrounds one crawl. *)
Record World : Type := mkWorld {
  session_get : string -> get_outcome;
  (** [Some msg] when executing the statement raises an exception whose
      text is [msg]. *)
  db_error : statement -> option string;
  (** [cursor.lastrowid] after the page row of a URL is inserted. *)
  lastrowid : string -> nat;
  (** [NOW()] *)
  now : nat;
  (** The order in which a Python set yields its elements. *)
  set_order : list string -> list string
}.

(** [INSERT IGNORE] under the unique key (domain_id, normalized_email). *)
Definition same_key (a b : email_row) : bool :=
  Nat.eqb (e_domain_id a) (e_domain_id b) &&
  String.eqb (e_normalized_email a) (e_normalized_email b).

Definition insert_ignore (table : list email_row) (row : email_row) : list email_row :=
  if existsb (same_key row) table then table else (table ++ [row])%list.

(** ** The domain crawler *)

(** The state one crawl owns, with the page rows written and two logs:
    [fetched], the URLs handed to [fetch_page], written by the task when
    it makes the call, and [requests], the URLs that [session.get] was
    asked for, written where the request is carried out and its answer
    read. *)
Record crawl : Type := mkCrawl {
  queue : list (nat * string);
  visited_urls : list string;
  emails_found : list (string * (string * string * nat));
  fetched : list string;
  pages : list page_row;
  requests : list string
}.

(** A [process_url] task: created and not yet started, suspended in
    [fetch_page], or finished. *)
Inductive task : Type :=
| Created (depth : nat) (current_url : string)
| Fetching (depth : nat) (current_url : string)
| Finished.

Definition dict_has {A : Type} (k : string) (d : list (string * A)) : bool :=
  existsb (fun e => String.eqb (fst e) k) d.

Section DomainCrawler.

Variable libs : Libraries.
Variable world : World.
(** [self.max_depth], an [int]: it may be negative. *)
Variable max_depth : Z.
Variable domain_id : nat.
Variable base_domain : string.

(** [process_url] up to its first suspension: the depth and visited tests,
    the addition to [visited_urls], and the call of [fetch_page]. *)
Definition process_url_start (depth : nat) (current_url : string) (st : crawl)
  : task * crawl :=
  if (max_depth <? Z.of_nat depth)%Z || str_in current_url (visited_urls st)
  then (Finished, st)
  else
    (Fetching depth current_url,
     mkCrawl (queue st) (set_add current_url (visited_urls st)) (emails_found st)
             (fetched st ++ [current_url])%list (pages st) (requests st)).

(** The loop of [process_url] over the raw emails of a page. *)
Fixpoint record_emails (raw_emails : list string) (current_url : string)
    (page_id : nat) (found : list (string * (string * string * nat)))
  : list (string * (string * string * nat)) :=
  match raw_emails with
  | [] => found
  | raw_email :: rest =>
      match normalize_email libs raw_email with
      | Some normalized =>
          if truthy normalized && negb (dict_has normalized found)
          then record_emails rest current_url page_id
                 (found ++ [(normalized, (raw_email, current_url, page_id))])%list
          else record_emails rest current_url page_id found
      | None => record_emails rest current_url page_id found
      end
  end.

(** [any(path in link.lower() for path in self.EMAIL_PATHS)] *)
Definition is_priority (link : string) : bool :=
  existsb (fun path => contains (lower link) path) EMAIL_PATHS.

(** [process_url] from the answer of [fetch_page] to its end: the request,
    carried out and logged here, the page row, the emails, the links. *)
Definition process_url_resume (depth : nat) (current_url : string) (st : crawl)
  : crawl :=
  let '(html, status_code) := fetch_page (session_get world) current_url in
  let has_html := match html with Some h => truthy h | None => false end in
  let row := mkPage domain_id (take 1000 current_url) status_code
                    (if has_html then Some "text/html" else None)
                    (if has_html then None else Some "Failed to fetch") in
  let '(page_id, pages') :=
    match db_error world (InsertPage current_url) with
    | Some _ => (None, pages st)
    | None => (Some (lastrowid world current_url), (pages st ++ [row])%list)
    end in
  let st := mkCrawl (queue st) (visited_urls st) (emails_found st) (fetched st) pages'
                    (requests st ++ [current_url])%list in
  match html, page_id with
  | Some html, Some (S _ as page_id) =>
      if negb (truthy html) then st
      else
        let raw_emails := set_order world (extract_emails_from_html libs html) in
        let emails' := record_emails raw_emails current_url page_id (emails_found st) in
        let queue' :=
          if (Z.of_nat depth <? max_depth)%Z
          then
            let links := set_order world (extract_links libs html current_url base_domain) in
            let priority_links := filter is_priority links in
            let other_links := filter (fun link => negb (str_in link priority_links)) links in
            (queue st ++
             map (fun link => (depth + 1, link))
                 (filter (fun link => negb (str_in link (visited_urls st)))
                         (priority_links ++ other_links)))%list
          else queue st in
        mkCrawl queue' (visited_urls st) emails' (fetched st) (pages st) (requests st)
  | _, _ => st
  end.

(** One step of one task. *)
Definition step_task (t : task) (st : crawl) : task * crawl :=
  match t with
  | Created depth current_url => process_url_start depth current_url st
  | Fetching depth current_url => (Finished, process_url_resume depth current_url st)
  | Finished => (Finished, st)
  end.

(** The task at index [i] takes a step. *)
Fixpoint step_at (i : nat) (tasks : list task) (st : crawl) {struct tasks}
  : list task * crawl :=
  match tasks, i with
  | [], _ => ([], st)
  | t :: rest, O => let (t', st') := step_task t st in (t' :: rest, st')
  | t :: rest, S j => let (rest', st') := step_at j rest st in (t :: rest', st')
  end.

Fixpoint run_schedule (schedule : list nat) (tasks : list task) (st : crawl)
  : list task * crawl :=
  match schedule with
  | [] => (tasks, st)
  | i :: schedule' =>
      let (tasks', st') := step_at i tasks st in run_schedule schedule' tasks' st'
  end.

(** A task run to its end. *)
Definition finish_task (t : task) (st : crawl) : crawl :=
  match t with
  | Created depth current_url =>
      match process_url_start depth current_url st with
      | (Fetching d u, st') => process_url_resume d u st'
      | (_, st') => st'
      end
  | Fetching depth current_url => process_url_resume depth current_url st
  | Finished => st
  end.

(** [await asyncio.gather] over [tasks], with [return_exceptions=True]: the tasks take
    steps in the order the event loop picks, given as a schedule of task
    indices, and every task has finished when the call returns. *)
Definition gather (schedule : list nat) (tasks : list task) (st : crawl) : crawl :=
  let (tasks', st') := run_schedule schedule tasks st in
  fold_left (fun st t => finish_task t st) tasks' st'.

(** The [while queue] loop.  Tasks made by [asyncio.create_task] start to
    run only when the crawler awaits; it awaits in the loop only once fifty
    tasks have been collected.  [None] when the fuel runs out. *)
Fixpoint bfs_loop (fuel : nat) (schedules : list (list nat))
    (tasks : list task) (st : crawl) : option (list (list nat) * list task * crawl) :=
  match queue st with
  | [] => Some (schedules, tasks, st)
  | _ :: _ =>
      match fuel with
      | O => None
      | S fuel' =>
          let batch_size := Nat.min 50 (List.length (queue st)) in
          let batch := firstn batch_size (queue st) in
          let st := mkCrawl (skipn batch_size (queue st)) (visited_urls st)
                            (emails_found st) (fetched st) (pages st) (requests st) in
          let tasks := (tasks ++ map (fun e => Created (fst e) (snd e)) batch)%list in
          if Nat.leb 50 (List.length tasks)
          then bfs_loop fuel' (tl schedules) []
                        (gather (hd [] schedules) tasks st)
          else bfs_loop fuel' schedules tasks st
      end
  end.

End DomainCrawler.

(** What is left of a crawl when [crawl_domain] returns. *)
Record outcome : Type := mkOutcome {
  final_db : database;
  final_crawl : crawl
}.

Section CrawlDomain.

Variable libs : Libraries.
Variable world : World.
Variable max_depth : Z.

(** The handler of [crawl_domain]: the row becomes [failed], unless this
    statement raises too, which is logged. *)
Definition fail_domain (e : string) (db : database) : database :=
  match db_error world FailDomain with
  | Some _ => db
  | None =>
      mkDatabase
        (mkDomain Failed (d_pages_crawled (db_domain db)) (d_emails_found (db_domain db))
                  (Some (take 500 e)) None None)
        (db_pages db) (db_emails db)
  end.

Definition email_values (domain_id : nat)
    (found : list (string * (string * string * nat))) : list email_row :=
  map (fun e => let '(normalized, (raw, _, page_id)) := e in
                mkEmail domain_id page_id (take 255 raw) (take 255 normalized))
      found.

(** [crawl_domain(domain_id, url, worker_id)].  It returns normally in every
    case; [None] only when the fuel of the loop runs out. *)
Definition crawl_domain (fuel : nat) (schedules : list (list nat))
    (domain_id : nat) (url worker_id : string) (db : database) : option outcome :=
  let base_domain := extract_domain libs url in
  let st0 := mkCrawl [(0, url)] [] [] [] [] [] in
  match db_error world ClaimDomain with
  | Some e => Some (mkOutcome (fail_domain e db) st0)
  | None =>
      let db := mkDatabase
                  (mkDomain Crawling (d_pages_crawled (db_domain db))
                            (d_emails_found (db_domain db))
                            (d_error_message (db_domain db))
                            (Some worker_id) (Some (now world)))
                  (db_pages db) (db_emails db) in
      match bfs_loop libs world max_depth domain_id base_domain fuel schedules [] st0 with
      | None => None
      | Some (schedules, tasks, st) =>
          let st :=
            match tasks with
            | [] => st
            | _ => gather libs world max_depth domain_id base_domain
                          (hd [] schedules) tasks st
            end in
          let db := mkDatabase (db_domain db) (db_pages db ++ pages st)%list (db_emails db) in
          let db :=
            match emails_found st with
            | [] => db
            | _ =>
                match db_error world InsertEmails with
                | Some _ => db
                | None =>
                    mkDatabase (db_domain db) (db_pages db)
                               (fold_left insert_ignore
                                          (email_values domain_id (emails_found st))
                                          (db_emails db))
                end
            end in
          match db_error world CompleteDomain with
          | Some e => Some (mkOutcome (fail_domain e db) st)
          | None =>
              Some (mkOutcome
                      (mkDatabase
                         (mkDomain Completed (List.length (visited_urls st))
                                   (List.length (emails_found st))
                                   (d_error_message (db_domain db)) None None)
                         (db_pages db) (db_emails db))
                      st)
          end
      end
  end.

End CrawlDomain.

(** ** Search creation (api.py) *)

Module Api.

(** [SearchCreate.validate_domains]: the validated list, or the message of
    the [ValueError]. *)
Definition validate_domains (v : list string) : string + list string :=
  match v with
  | [] => inl "At least one domain is required"
  | _ =>
      if (10000 <? Z.of_nat (List.length v))%Z
      then inl "Maximum 10000 domains per batch"
      else inr (map (strip is_space)
                    (filter (fun d => truthy (strip is_space d)) v))
  end.

Inductive search_status : Type :=
| SearchPending | SearchInProgress | SearchPaused
| SearchCompleted | SearchFailed | SearchCancelled.

Record search_row : Type := mkSearch {
  s_id : nat;
  s_batch_name : option string;
  s_total_domains : nat;
  s_status : search_status
}.

Record domain_entry : Type := mkDomainEntry {
  de_search_id : nat;
  de_domain : string;
  de_url : string;
  de_status : domain_status
}.

Record tables : Type := mkTables {
  searches : list search_row;
  domains : list domain_entry;
  (** the next AUTO_INCREMENT value of [searches.id] *)
  next_search_id : nat
}.

Inductive api_statement : Type := InsertSearch | InsertDomains | SelectSearch.

Inductive http_result : Type :=
| Created201 (search : search_row)
| Unprocessable422 (msg : string)
| ServerError500 (detail : string).

(** The columns of the row that [create_search] selects: the keywords it
    passes to [SearchResponse]. *)
Definition selected_columns : list string :=
  ["id"; "batch_name"; "total_domains"; "status"; "created_at"; "started_at";
   "completed_at"].

(** [SearchResponse] built from the selected row.  The model declares
    [search_id: int], a field without a default, and no field [id]: [None]
    is the [ValidationError] raised when the keywords do not give
    [search_id]. *)
Definition SearchResponse (keywords : list string) (search : search_row)
  : option search_row :=
  if str_in "search_id" keywords then Some search else None.

Section CreateSearch.

(** [Some msg] when executing the statement raises. *)
Variable api_db_error : api_statement -> option string.
(** [str(e)] for the [ValidationError] of [SearchResponse]. *)
Variable validation_error : string.

(** [create_search] on validated data: the tables afterwards (the
    connection commits each statement) and the response.  Every exception
    is answered with a 500. *)
Definition create_search (batch_name : option string) (search_data_domains : list string)
    (db : tables) : tables * http_result :=
  match api_db_error InsertSearch with
  | Some e => (db, ServerError500 e)
  | None =>
      let search_id := next_search_id db in
      let row := mkSearch search_id batch_name
                          (List.length search_data_domains) SearchPending in
      let db := mkTables (searches db ++ [row])%list (domains db) (S search_id) in
      let domain_values :=
        map (fun domain => mkDomainEntry search_id domain ("https://" ++ domain) Pending)
            search_data_domains in
      match api_db_error InsertDomains with
      | Some e => (db, ServerError500 e)
      | None =>
          let db := mkTables (searches db) (domains db ++ domain_values)%list
                             (next_search_id db) in
          match api_db_error SelectSearch with
          | Some e => (db, ServerError500 e)
          | None =>
              match find (fun r => Nat.eqb (s_id r) search_id) (searches db) with
              | Some search =>
                  match SearchResponse selected_columns search with
                  | Some response => (db, Created201 response)
                  | None => (db, ServerError500 validation_error)
                  end
              | None => (db, ServerError500 "no search row")
              end
          end
      end
  end.

(** [POST /api/searches]: the request body is validated into a
    [SearchCreate] before [create_search] runs. *)
Definition post_searches (batch_name : option string) (submitted : list string)
    (db : tables) : tables * http_result :=
  match validate_domains submitted with
  | inl msg => (db, Unprocessable422 msg)
  | inr validated => create_search batch_name validated db
  end.

End CreateSearch.

End Api.

(** ** The search runner ([process_search], core.py) *)

(** A domain of the search: its id, its start URL, and the rows that carry
    its id (its own row, its pages, its emails). *)
Record crawl_target : Type := mkTarget {
  t_id : nat;
  t_url : string;
  t_rows : database
}.

(** The row of the search and the domains with its [search_id], by id. *)
Record search_state : Type := mkSearchState {
  ss_status : Api.search_status;
  ss_started_at : option nat;
  ss_completed_at : option nat;
  ss_domains : list crawl_target
}.

(** The statements of [process_search]. *)
Inductive search_statement : Type :=
| StartSearch
| SelectDomains
| CompleteSearch
| FailSearch.

Definition is_pending (t : crawl_target) : bool :=
  match d_status (db_domain (t_rows t)) with
  | Pending => true
  | _ => false
  end.

(** [range(0, stop, step)]: [None] for the [ValueError] of a zero step. *)
Definition range_from_zero (stop : nat) (step : Z) : option (list nat) :=
  if (step =? 0)%Z then None
  else if (step <? 0)%Z then Some []
  else
    let s := Z.to_nat step in
    Some (map (fun k => k * s) (seq 0 ((stop + s - 1) / s))).

(** [[tasks[i:i + batch_size] for i in range(0, len(tasks), batch_size)]] *)
Definition batches {A : Type} (batch_size : Z) (tasks : list A) : option (list (list A)) :=
  match range_from_zero (List.length tasks) batch_size with
  | None => None
  | Some starts =>
      Some (map (fun i => firstn (Z.to_nat batch_size) (skipn i tasks)) starts)
  end.

(** The rows of the domain with the given id, rewritten. *)
Fixpoint update_target (domain_id : nat) (rows : database) (domains : list crawl_target)
  : list crawl_target :=
  match domains with
  | [] => []
  | t :: rest =>
      if Nat.eqb (t_id t) domain_id
      then mkTarget (t_id t) (t_url t) rows :: rest
      else t :: update_target domain_id rows rest
  end.

Section SearchRunner.

Variable libs : Libraries.
(** What the crawl of each domain meets: the network and the database. *)
Variable world_of : nat -> World.
Variable schedules_of : nat -> list (list nat).
Variable max_depth : Z.
Variable max_concurrent : Z.
(** [Some msg] when executing the statement raises. *)
Variable search_error : search_statement -> option string.
(** [NOW()] when the statement is executed. *)
Variable clock : search_statement -> nat.

(** One [crawl_domain(domain_id, url, worker_id)] on the rows of its
    domain. *)
Definition crawl_one (fuel : nat) (worker_id : string) (domains : list crawl_target)
    (target : nat * string) : option (list crawl_target) :=
  let '(domain_id, url) := target in
  match find (fun t => Nat.eqb (t_id t) domain_id) domains with
  | None => Some domains
  | Some t =>
      match crawl_domain libs (world_of domain_id) max_depth fuel
                         (schedules_of domain_id) domain_id url worker_id (t_rows t) with
      | None => None
      | Some o => Some (update_target domain_id (final_db o) domains)
      end
  end.

(** [await asyncio.gather] over a batch of crawls.  The crawls of one batch
    run interleaved, each on the rows of its own domain; they are taken
    here one after the other. *)
Fixpoint run_batch (fuel : nat) (worker_id : string) (batch : list (nat * string))
    (domains : list crawl_target) : option (list crawl_target) :=
  match batch with
  | [] => Some domains
  | target :: rest =>
      match crawl_one fuel worker_id domains target with
      | None => None
      | Some domains' => run_batch fuel worker_id rest domains'
      end
  end.

Fixpoint run_batches (fuel : nat) (worker_id : string) (bs : list (list (nat * string)))
    (domains : list crawl_target) : option (list crawl_target) :=
  match bs with
  | [] => Some domains
  | batch :: rest =>
      match run_batch fuel worker_id batch domains with
      | None => None
      | Some domains' => run_batches fuel worker_id rest domains'
      end
  end.

(** The handler of [process_search]. *)
Definition fail_search (s : search_state) : search_state :=
  match search_error FailSearch with
  | Some _ => s
  | None => mkSearchState Api.SearchFailed (ss_started_at s) (ss_completed_at s)
                          (ss_domains s)
  end.

(** [process_search(search_id, worker_id)] on the rows of the search.  It
    returns normally in every case; [None] only when the fuel of a crawl
    runs out. *)
Definition process_search (fuel : nat) (worker_id : string) (s : search_state)
  : option search_state :=
  match search_error StartSearch with
  | Some _ => Some (fail_search s)
  | None =>
      let s := mkSearchState Api.SearchInProgress (Some (clock StartSearch)) (ss_completed_at s)
                             (ss_domains s) in
      match search_error SelectDomains with
      | Some _ => Some (fail_search s)
      | None =>
          let domains := map (fun t => (t_id t, t_url t))
                             (filter is_pending (ss_domains s)) in
          match domains with
          | [] => Some s
          | _ =>
              match batches max_concurrent domains with
              | None => Some (fail_search s)
              | Some bs =>
                  match run_batches fuel worker_id bs (ss_domains s) with
                  | None => None
                  | Some domains' =>
                      let s := mkSearchState (ss_status s) (ss_started_at s)
                                             (ss_completed_at s) domains' in
                      match search_error CompleteSearch with
                      | Some _ => Some (fail_search s)
                      | None =>
                          Some (mkSearchState Api.SearchCompleted (ss_started_at s)
                                              (Some (clock CompleteSearch)) domains')
                      end
                  end
              end
          end
      end
  end.

End SearchRunner.

(** ** The worker ([get_pending_search], worker.py) *)

Record search_entry : Type := mkEntry {
  en_id : nat;
  en_created_at : nat;
  en_search : search_state
}.

(** [ORDER BY created_at ASC LIMIT 1]: a row with the smallest [created_at];
    among equal ones the first of the table is taken. *)
Fixpoint oldest (rows : list search_entry) : option search_entry :=
  match rows with
  | [] => None
  | e :: rest =>
      match oldest rest with
      | Some e' => if Nat.leb (en_created_at e) (en_created_at e') then Some e else Some e'
      | None => Some e
      end
  end.

Definition status_pending (e : search_entry) : bool :=
  match ss_status (en_search e) with Api.SearchPending => true | _ => false end.

(** [s.status='in_progress' AND d.status='pending'] for a joined domain. *)
Definition in_progress_with_pending (e : search_entry) : bool :=
  match ss_status (en_search e) with
  | Api.SearchInProgress => existsb is_pending (ss_domains (en_search e))
  | _ => false
  end.

(** [get_pending_search()]; [query_error] is [Some msg] when the queries
    raise. *)
Definition get_pending_search (query_error : option string) (table : list search_entry)
  : option nat :=
  match query_error with
  | Some _ => None
  | None =>
      match oldest (filter status_pending table) with
      | Some e => Some (en_id e)
      | None =>
          match oldest (filter in_progress_with_pending table) with
          | Some e => Some (en_id e)
          | None => None
          end
      end
  end.

(** ** Pause, resume and cancel (api.py) *)

Inductive admin_statement : Type :=
| PauseUpdate
| ResumeUpdate
| CancelUpdate
| UnlockDomains.

Inductive admin_result : Type :=
| Ok200 (message : string) (search_id : nat)
| BadRequest400 (detail : string)
| NotFound404 (detail : string)
| Error500 (detail : string).

(** [UPDATE searches SET status=new WHERE id=search_id AND] the status
    passes [test]: the table afterwards and [cursor.rowcount], the number
    of rows changed. *)
Fixpoint update_status (search_id : nat) (test : Api.search_status -> bool)
    (new : Api.search_status) (table : list search_entry) : list search_entry * nat :=
  match table with
  | [] => ([], 0)
  | e :: rest =>
      let (rest', n) := update_status search_id test new rest in
      if Nat.eqb (en_id e) search_id && test (ss_status (en_search e))
      then (mkEntry (en_id e) (en_created_at e)
                    (mkSearchState new (ss_started_at (en_search e))
                                   (ss_completed_at (en_search e))
                                   (ss_domains (en_search e))) :: rest',
            S n)
      else (e :: rest', n)
  end.

Definition is_in_progress (s : Api.search_status) : bool :=
  match s with Api.SearchInProgress => true | _ => false end.

Definition is_paused (s : Api.search_status) : bool :=
  match s with Api.SearchPaused => true | _ => false end.

Definition not_cancelled (s : Api.search_status) : bool :=
  match s with Api.SearchCancelled => false | _ => true end.

(** [UPDATE domains SET worker_id=NULL, locked_at=NULL WHERE status='crawling'],
    on one domain. *)
Definition unlock (t : crawl_target) : crawl_target :=
  match d_status (db_domain (t_rows t)) with
  | Crawling =>
      mkTarget (t_id t) (t_url t)
               (mkDatabase
                  (mkDomain Crawling (d_pages_crawled (db_domain (t_rows t)))
                            (d_emails_found (db_domain (t_rows t)))
                            (d_error_message (db_domain (t_rows t))) None None)
                  (db_pages (t_rows t)) (db_emails (t_rows t)))
  | _ => t
  end.

Definition unlock_domains (search_id : nat) (table : list search_entry) : list search_entry :=
  map (fun e =>
         if Nat.eqb (en_id e) search_id
         then mkEntry (en_id e) (en_created_at e)
                      (mkSearchState (ss_status (en_search e)) (ss_started_at (en_search e))
                                     (ss_completed_at (en_search e))
                                     (map unlock (ss_domains (en_search e))))
         else e)
      table.

Section Admin.

(** [Some msg] when executing the statement raises. *)
Variable admin_error : admin_statement -> option string.

(** [pause_search(search_id)] *)
Definition pause_search (search_id : nat) (table : list search_entry)
  : list search_entry * admin_result :=
  match admin_error PauseUpdate with
  | Some e => (table, Error500 e)
  | None =>
      let (table', rowcount) :=
        update_status search_id is_in_progress Api.SearchPaused table in
      if Nat.eqb rowcount 0
      then (table', BadRequest400 "Search not found or not in progress")
      else (table', Ok200 "Search paused" search_id)
  end.

(** [resume_search(search_id, background_tasks)]: the table, the searches
    for which a background worker is started, and the response. *)
Definition resume_search (search_id : nat) (table : list search_entry)
  : list search_entry * list nat * admin_result :=
  match admin_error ResumeUpdate with
  | Some e => (table, [], Error500 e)
  | None =>
      let (table', rowcount) :=
        update_status search_id is_paused Api.SearchInProgress table in
      if Nat.eqb rowcount 0
      then (table', [], BadRequest400 "Search not found or not paused")
      else (table', [search_id], Ok200 "Search resumed" search_id)
  end.

(** [cancel_search(search_id)] *)
Definition cancel_search (search_id : nat) (table : list search_entry)
  : list search_entry * admin_result :=
  match admin_error CancelUpdate with
  | Some e => (table, Error500 e)
  | None =>
      let (table', rowcount) :=
        update_status search_id not_cancelled Api.SearchCancelled table in
      if Nat.eqb rowcount 0
      then (table', NotFound404 "Search not found")
      else
        match admin_error UnlockDomains with
        | Some e => (table', Error500 e)
        | None => (unlock_domains search_id table', Ok200 "Search cancelled" search_id)
        end
  end.

End Admin.

(** * Vocabulary of the properties *)

Import Api.

(** ** Predicates of the statements *)

(** The test [fetch_page] makes before it reads the body. *)
Definition accepted (r : response) : bool :=
  Nat.eqb (status r) 200 &&
  (let content_type :=
     lower (match content_type_header r with Some v => v | None => EmptyString end) in
   contains content_type "text/html" || contains content_type "text/plain").

(** The URLs of the tasks suspended in [fetch_page]: their request is
    under way. *)
Definition awaited (tasks : list task) : list string :=
  flat_map (fun t => match t with Fetching _ u => [u] | _ => [] end) tasks.

(** No URL is requested twice: the URLs requested so far and the URLs of
    the suspended tasks are all different, and all in [visited_urls]. *)
Definition fetch_once (tasks : list task) (st : crawl) : Prop :=
  NoDup (requests st ++ awaited tasks) /\
  (forall u, In u (requests st ++ awaited tasks) -> In u (visited_urls st)).

(** A link as the extractor admits it. *)
Definition admitted (libs : Libraries) (base_domain link : string) : Prop :=
  is_valid_url libs link base_domain = true /\
  has "?" link = false /\ has "#" link = false.

(** The URL that [normalize_url] parses. *)
Definition with_scheme (url : string) : string :=
  if negb (has_scheme_prefix url) then "https://" ++ url else url.

(** The host and the path that [normalize_url] puts into its result. *)
Definition canonical_host (netloc : string) : string :=
  replace "www." EmptyString (lower netloc).

Definition canonical_path (path : string) : string :=
  or_else (rstrip (Ascii.eqb "/") path) "/".

(** The last character of a string. *)
Fixpoint last_char (s : string) : option ascii :=
  match s with
  | EmptyString => None
  | String c EmptyString => Some c
  | String _ s' => last_char s'
  end.

(** The text of a path from its last slash on. *)
Definition last_segment (path : string) : string :=
  match rbreak "/" path with
  | Some (_, t) => t
  | None => path
  end.

(** The canonicalizer as the specification words it: the scheme prefix is
    added when missing, the host is lowercased and loses a leading [www.],
    the path loses its trailing slash, query and fragment are dropped, and
    an input that does not parse is returned as it came. *)
Definition canonicalize_spec (libs : Libraries) (raw : string) : string :=
  let url := if has_scheme_prefix raw then raw else "https://" ++ raw in
  match parse libs url with
  | Some parsed =>
      let host := lower (netloc parsed) in
      let host := if startswith host "www." then drop 4 host else host in
      urlunparse (mkParse (scheme parsed) host (canonical_path (path parsed))
                          EmptyString EmptyString EmptyString)
  | None => raw
  end.

(** The host as the specification has it: lowercased, a leading [www.]
    taken off. *)
Definition strip_www (host : string) : string :=
  if startswith host "www." then drop 4 host else host.

Definition host_of_spec (netloc : string) : string := strip_www (lower netloc).

(** [in_scope] as the specification words it: the URL parses, has a scheme
    and a host, its host is the base host or ends with a dot and the base
    host, and its path does not end in an excluded extension. *)
Definition in_scope_spec (libs : Libraries) (url base_host : string) : bool :=
  match parse libs url with
  | None => false
  | Some p =>
      truthy (scheme p) && truthy (netloc p) &&
      (String.eqb (host_of_spec (netloc p)) base_host ||
       endswith (host_of_spec (netloc p)) ("." ++ base_host)) &&
      negb (existsb (endswith (lower (path p))) excluded_extensions)
  end.

(** The hosts that have no [www.] but, possibly, one in front. *)
Definition www_in_front_only (netloc : string) : bool :=
  negb (contains (host_of_spec netloc) "www.").

(** The same of the host of a URL. *)
Definition www_in_front_only_url (libs : Libraries) (url : string) : bool :=
  match parse libs url with
  | Some p => www_in_front_only (netloc p)
  | None => true
  end.

(** A link of a document resolved against the URL of its page, with
    parameters, query and fragment cut off. *)
Definition resolved_link (libs : Libraries) (tags : list (string * string))
    (base_url link : string) : Prop :=
  exists name href absolute_url parsed,
    In (name, href) tags /\
    join_url libs base_url href = Some absolute_url /\
    parse libs absolute_url = Some parsed /\
    link = urlunparse (mkParse (scheme parsed) (netloc parsed) (path parsed)
                               EmptyString EmptyString EmptyString).

(** The inputs whose canonical form the second pass reads as the first
    wrote it: the canonical host has no [www.] left, the last segment of the
    canonical path has no [;], and the host is not empty before a path that
    starts with [//].  An input that does not parse is among them. *)
Definition stable (libs : Libraries) (raw : string) : bool :=
  match parse libs (with_scheme raw) with
  | None => true
  | Some p =>
      let host := replace "www." EmptyString (lower (netloc p)) in
      let path' := or_else (rstrip (Ascii.eqb "/") (path p)) "/" in
      negb (contains host "www.") &&
      negb (has ";" (last_segment path')) &&
      (truthy host || negb (startswith path' "//"))
  end.

(** ** The stages of a parse *)

(** What is left after [break_at] is empty or starts with a character of
    the class. *)
Definition starts_in (p : ascii -> bool) (s : string) : Prop :=
  match s with
  | EmptyString => True
  | String c _ => p c = true
  end.

(** The tests of [urlsplit] on the host, in one. *)
Definition netloc_accepted (bracketed_ok nfkc_ok : string -> bool) (netloc : string) : bool :=
  negb ((has "[" netloc && negb (has "]" netloc)) ||
        (has "]" netloc && negb (has "[" netloc))) &&
  negb (has "[" netloc && has "]" netloc && negb (bracketed_ok netloc)) &&
  checknetloc nfkc_ok netloc.

(** The part of the path that [urlparse] keeps after taking the parameters
    off, and the parameters. *)
Definition path_of (scheme url : string) : string * string :=
  if in_list scheme uses_params && has ";" url
  then splitparams url else (url, EmptyString).

(** Character classes of the proofs: no TAB, CR or LF; one of [/?#]; none
    of [/?#]; none of [?#]. *)
Definition neat (c : ascii) : bool := negb (unsafe_byte c).
Definition delimiter (c : ascii) : bool := mem_char c "/?#".
Definition no_delimiter (c : ascii) : bool := negb (mem_char c "/?#").
Definition no_query_char (c : ascii) : bool := negb (mem_char c "?#").

(** The components [urlsplit] cuts out of the text after [scheme://]. *)
Definition after_scheme (bracketed_ok nfkc_ok : string -> bool) (scheme rest : string)
  : option (string * string * string * string * string) :=
  let nu := break_at delimiter rest in
  let uf := cut "#" (snd nu) in
  let uq := cut "?" (fst uf) in
  if netloc_accepted bracketed_ok nfkc_ok (fst nu)
  then Some (scheme, fst nu, fst uq, snd uq, snd uf)
  else None.

(** ** Fixtures of the examples *)

(** A library check that accepts every host. *)
Definition accept_all (_ : string) : bool := true.

(** Libraries for the examples: every page is a document of plain text
    without links, and the validator accepts an address as it is. *)
Definition text_libs : Libraries :=
  mkLibraries accept_all accept_all
              (fun html => Some (mkDocument [] html))
              (fun email => Some email).

(** A page with one link, written with an upper-case host, a [www.], a
    trailing slash, a query and a fragment. *)
Definition team_libs : Libraries :=
  mkLibraries accept_all accept_all
    (fun _ => Some (mkDocument [("a", "https://WWW.A.test/Team/?ref=home#top")]
                               "Our team"))
    (fun email => Some email).

(** A page with one link, to a host that has a [www.] inside. *)
Definition login_libs : Libraries :=
  mkLibraries accept_all accept_all
    (fun _ => Some (mkDocument [("a", "https://examwww.ple.com/login")] EmptyString))
    (fun email => Some email).

(** The home page of the site [a.test]. *)
Definition home_html : string := "<a href=/blog/2024>Blog</a> <a href=/contact>Contact</a>".

(** The site [a.test]: its home page links to the blog and to the contact
    page, in this order; the other pages have no links. *)
Definition site_libs : Libraries :=
  mkLibraries accept_all accept_all
    (fun html =>
       if String.eqb html home_html
       then Some (mkDocument [("a", "/blog/2024"); ("a", "https://a.test/contact")]
                             "Blog Contact")
       else Some (mkDocument [] html))
    (fun email => Some email).

(** The answer 200 with an HTML body. *)
Definition html_page (body : string) : get_outcome :=
  GetResponse (mkResponse 200 (Some "text/html; charset=utf-8") (ReadOk body)).

(** Every fetch succeeds, every statement succeeds. *)
Definition site_world : World :=
  mkWorld
    (fun url =>
       if String.eqb url "https://a.test" then html_page home_html
       else html_page "Nothing here")
    (fun _ => None)
    (fun _ => 1)
    0
    (fun l => l).

(** The tables before a crawl: the domain row is [pending]. *)
Definition pending_db : database :=
  mkDatabase (mkDomain Pending 0 0 None None None) [] [].

(** A database that refuses every statement. *)
Definition down_world : World :=
  mkWorld (fun _ => GetError TimeoutError)
          (fun _ => Some "(2006, 'MySQL server has gone away')")
          (fun _ => 1) 0 (fun l => l).

(** A database that refuses the claim and accepts the later statements. *)
Definition claim_fails_world : World :=
  mkWorld (fun _ => GetError TimeoutError)
          (fun st => match st with
                     | ClaimDomain => Some "(1205, 'Lock wait timeout exceeded')"
                     | _ => None
                     end)
          (fun _ => 1) 0 (fun l => l).

(** A database that refuses the batch of emails only. *)
Definition flush_fails_world : World :=
  mkWorld (fun _ => html_page "write to bob@sample.org")
          (fun st => match st with
                     | InsertEmails => Some "(1213, 'Deadlock found')"
                     | _ => None
                     end)
          (fun _ => 1) 0 (fun l => l).

(** The API's database with every statement succeeding. *)
Definition no_api_error (_ : api_statement) : option string := None.

(** ** Further vocabulary *)

(** The number of tasks suspended in [fetch_page]. *)
Definition in_flight (tasks : list task) : nat :=
  List.length (filter (fun t => match t with Fetching _ _ => true | _ => false end) tasks).

(** A page with one [mailto:] anchor and no text. *)
Definition mailto_libs : Libraries :=
  mkLibraries accept_all accept_all
    (fun _ => Some (mkDocument [("a", "mailto: Alice@Example.COM?subject=x")]
                               EmptyString))
    (fun email => Some email).


(** A domain after a crawl that went no further than its start page: the
    row is [completed], with one page, or with none when [max_depth] is
    negative and the start URL itself is over the limit, and the lock is
    released. *)
Definition crawled_once (max_depth : Z) (t t' : crawl_target) : Prop :=
  t_id t' = t_id t /\ t_url t' = t_url t /\
  d_status (db_domain (t_rows t')) = Completed /\
  d_pages_crawled (db_domain (t_rows t')) = (if (max_depth <? 0)%Z then 0 else 1) /\
  d_worker_id (db_domain (t_rows t')) = None /\
  d_locked_at (db_domain (t_rows t')) = None.

(** The domains of a search after [process_search] ran its crawls: the
    pending ones crawled, the others as they were. *)
Definition pending_crawled_once (max_depth : Z) (domains domains' : list crawl_target)
  : Prop :=
  Forall2 (fun t t' => if is_pending t then crawled_once max_depth t t' else t' = t)
          domains domains'.

(** The rows of a domain that is [completed]. *)
Definition completed_db : database :=
  mkDatabase (mkDomain Completed 4 2 None None None) [] [].

(** A search over three domains, the second of them crawled before. *)
Definition three_domains : search_state :=
  mkSearchState SearchPending None None
    [mkTarget 1 "https://a.test" pending_db;
     mkTarget 2 "https://b.test" completed_db;
     mkTarget 3 "https://c.test" pending_db].

(** A search whose domains are all crawled. *)
Definition crawled_search : search_state :=
  mkSearchState SearchPending None None [mkTarget 2 "https://b.test" completed_db].

Definition no_search_error (_ : search_statement) : option string := None.

(** The last update of the search fails. *)
Definition complete_fails (st : search_statement) : option string :=
  match st with
  | CompleteSearch => Some "(2013, 'Lost connection to MySQL server during query')"
  | _ => None
  end.

(** The time of each statement on the search. *)
Definition search_clock (st : search_statement) : nat :=
  match st with
  | StartSearch => 100
  | CompleteSearch => 160
  | _ => 0
  end.

(** A search that a worker may take: pending, or in progress with a domain
    still pending. *)
Definition eligible (e : search_entry) : bool :=
  status_pending e || in_progress_with_pending e.

(** [e] is among the oldest rows of [table] that pass [test]. *)
Definition oldest_of (test : search_entry -> bool) (table : list search_entry)
    (e : search_entry) : Prop :=
  In e table /\ test e = true /\
  forall e', In e' table -> test e' = true -> en_created_at e <= en_created_at e'.

(** The table without the search of the given id. *)
Definition without (search_id : nat) (table : list search_entry) : list search_entry :=
  filter (fun e => negb (Nat.eqb (en_id e) search_id)) table.

(** Three searches: one completed, one in progress with pending domains,
    one pending and created last. *)
Definition three_searches : list search_entry :=
  [mkEntry 1 10 (mkSearchState SearchCompleted (Some 11) (Some 19)
                               [mkTarget 1 "https://a.test" completed_db]);
   mkEntry 2 20 (mkSearchState SearchInProgress (Some 21) None
                               (ss_domains three_domains));
   mkEntry 3 30 three_domains].

(** The row of a search with its status rewritten. *)
Definition with_status (new : search_status) (e : search_entry) : search_entry :=
  mkEntry (en_id e) (en_created_at e)
          (mkSearchState new (ss_started_at (en_search e)) (ss_completed_at (en_search e))
                         (ss_domains (en_search e))).

(** The row of a search after [cancel_search]. *)
Definition cancelled (e : search_entry) : search_entry :=
  mkEntry (en_id e) (en_created_at e)
          (mkSearchState SearchCancelled (ss_started_at (en_search e))
                         (ss_completed_at (en_search e))
                         (map unlock (ss_domains (en_search e)))).

(** The rows of a domain that a worker is crawling. *)
Definition crawling_db : database :=
  mkDatabase (mkDomain Crawling 0 0 None (Some "worker-1") (Some 22)) [] [].

(** Two searches, the first in progress with a domain being crawled. *)
Definition two_searches : list search_entry :=
  [mkEntry 2 20 (mkSearchState SearchInProgress (Some 21) None
                               [mkTarget 1 "https://a.test" crawling_db;
                                mkTarget 3 "https://c.test" pending_db]);
   mkEntry 3 30 three_domains].

Definition no_admin_error (_ : admin_statement) : option string := None.
(** * Properties *)

(** ** The operations on examples *)

Example lower_ex : lower "WWW.A.Test/Path" = "www.a.test/path".
Proof. reflexivity. Qed.

Example replace_ex : replace "www." "" "wwww.ww.a.test" = "www.a.test".
Proof. reflexivity. Qed.

Example rstrip_ex : rstrip (Ascii.eqb "/") "/a/b//" = "/a/b".
Proof. reflexivity. Qed.

Example split_ex : split "/" "/a//b/" = [""; "a"; ""; "b"; ""].
Proof. reflexivity. Qed.

Example urlparse_ex :
  parse text_libs "https://WWW.A.test/Contact/;p?x=1#f"
  = Some (mkParse "https" "WWW.A.test" "/Contact/" "p" "x=1" "f").
Proof. reflexivity. Qed.

Example urlparse_bracket_ex : parse text_libs "https://[::1" = None.
Proof. reflexivity. Qed.

Example urljoin_ex :
  join_url text_libs "https://a.test/dir/page" "../x/./y?q#f"
  = Some "https://a.test/x/y?q#f".
Proof. reflexivity. Qed.

Example normalize_url_ex :
  normalize_url text_libs "WWW.Example.com/a/b/?x=1#f" = "https://example.com/a/b".
Proof. reflexivity. Qed.

Example deobfuscate_ex :
  deobfuscate "mail john (at) ex.ample (dot) com or JANE [AT] corp [DOT] NET"
  = "mail john@ex.ample.com or JANE@corp.NET".
Proof. reflexivity. Qed.

Example findall_ex :
  findall false EMAIL_PATTERN "a.b@x.co.uk, <z@q.org>. foo@bar _x@y.com me@EXAMPLE.COM."
  = ["a.b@x.co.uk"; "z@q.org"; "me@EXAMPLE.COM"].
Proof. reflexivity. Qed.

(** ** Sets as lists *)

Lemma str_in_In (x : string) (l : list string) : str_in x l = true <-> In x l.
Proof.
  unfold str_in. rewrite existsb_exists. split.
  - intros [y [Hy He]]. apply String.eqb_eq in He. now subst.
  - intros H. exists x. split; [assumption | apply String.eqb_refl].
Qed.

Lemma set_add_In (x y : string) (l : list string) :
  In y (set_add x l) <-> y = x \/ In y l.
Proof.
  unfold set_add. destruct (str_in x l) eqn:E.
  - apply str_in_In in E. split; [now right | intros [-> | H]; assumption].
  - rewrite in_app_iff. simpl. split.
    + intros [H | [H | []]]; [now right | now left].
    + intros [-> | H]; [right; now left | now left].
Qed.

Lemma set_update_In (x : string) (new l : list string) :
  In x (set_update l new) <-> In x l \/ In x new.
Proof.
  unfold set_update. revert l. induction new as [| y new IH]; intros l; simpl.
  - tauto.
  - rewrite IH, set_add_In. intuition congruence.
Qed.

(** ** The empty URL *)

(** C10: [normalize_url] returns the empty string as it is: no scheme is
    prepended and nothing is parsed. *)
Theorem normalize_url_empty (libs : Libraries) :
  normalize_url libs EmptyString = EmptyString.
Proof. reflexivity. Qed.

(** The empty string is the only falsy one. *)
Lemma truthy_false_empty (s : string) : truthy s = false -> s = EmptyString.
Proof. destruct s; [reflexivity | discriminate]. Qed.

(** ** The page fetcher *)

(** C5: [fetch_page] is a total function to pairs.  A failed request gives
    [(None, 0)].  For a response that is read without error the body is
    present exactly when the status is 200 and the (lowercased) Content-Type
    contains [text/html] or [text/plain], and the status is the response's.
    An error while the body is read gives [(None, 0)] as well. *)
Theorem fetch_page_contract (get : string -> get_outcome) (url : string) :
  (forall e, get url = GetError e -> fetch_page get url = (None, 0)) /\
  (forall r text, get url = GetResponse r -> read_text r = ReadOk text ->
     fetch_page get url = (if accepted r then Some text else None, status r) /\
     (fst (fetch_page get url) <> None <-> accepted r = true)) /\
  (forall r e, get url = GetResponse r -> read_text r = ReadError e ->
     fetch_page get url = (None, if accepted r then 0 else status r)).
Proof.
  unfold fetch_page, accepted. repeat split.
  - intros e ->. reflexivity.
  - rewrite H, H0. destruct (Nat.eqb (status r) 200); simpl; [| reflexivity].
    now destruct (contains _ "text/html" || contains _ "text/plain").
  - rewrite H, H0. destruct (Nat.eqb (status r) 200); simpl; [| congruence].
    destruct (contains _ "text/html" || contains _ "text/plain"); simpl; congruence.
  - rewrite H, H0. destruct (Nat.eqb (status r) 200); simpl; [| congruence].
    destruct (contains _ "text/html" || contains _ "text/plain"); simpl; congruence.
  - intros r e -> ->. destruct (Nat.eqb (status r) 200); simpl; [| reflexivity].
    now destruct (contains _ "text/html" || contains _ "text/plain").
Qed.

Example fetch_page_html :
  fetch_page (fun _ => GetResponse (mkResponse 200 (Some "Text/HTML; charset=utf-8")
                                               (ReadOk "<p>hi</p>")))
             "https://a.test"
  = (Some "<p>hi</p>", 200).
Proof. reflexivity. Qed.

Example fetch_page_not_found :
  fetch_page (fun _ => GetResponse (mkResponse 404 (Some "text/html") (ReadOk "gone")))
             "https://a.test"
  = (None, 404).
Proof. reflexivity. Qed.

Example fetch_page_timeout :
  fetch_page (fun _ => GetError TimeoutError) "https://a.test" = (None, 0).
Proof. reflexivity. Qed.

(** ** De-obfuscation *)




(** ** Search creation *)

Lemma find_app_last {A : Type} (f : A -> bool) (l : list A) (x : A) :
  (forall y, In y l -> f y = false) -> f x = true -> find f (l ++ [x]) = Some x.
Proof.
  induction l as [| y l IH]; simpl; intros Hl Hx.
  - now rewrite Hx.
  - rewrite (Hl y) by now left. apply IH; auto.
Qed.



(** ** The domain crawler: what a crawl fetches *)

Section CrawlerFacts.

Variable libs : Libraries.
Variable world : World.
Variable max_depth : Z.
Variable domain_id : nat.
Variable base_domain : string.

Let start := process_url_start max_depth.
Let resume := process_url_resume libs world max_depth domain_id base_domain.
Let run_gather := gather libs world max_depth domain_id base_domain.
Let loop := bfs_loop libs world max_depth domain_id base_domain.

Lemma resume_fetched (depth : nat) (u : string) (st : crawl) :
  fetched (resume depth u st) = fetched st /\
  visited_urls (resume depth u st) = visited_urls st.
Proof.
  unfold resume, process_url_resume.
  destruct (fetch_page (session_get world) u) as [html status_code].
  destruct (db_error world (InsertPage u)); destruct html as [h |]; simpl;
    try (split; reflexivity).
  destruct (lastrowid world u); simpl; try (split; reflexivity).
  destruct (truthy h); simpl; split; reflexivity.
Qed.

Lemma resume_requests (depth : nat) (u : string) (st : crawl) :
  requests (resume depth u st) = (requests st ++ [u])%list /\
  visited_urls (resume depth u st) = visited_urls st.
Proof.
  unfold resume, process_url_resume.
  destruct (fetch_page (session_get world) u) as [html status_code].
  destruct (db_error world (InsertPage u)); destruct html as [h |]; simpl;
    try (split; reflexivity).
  destruct (lastrowid world u); simpl; try (split; reflexivity).
  destruct (truthy h); simpl; split; reflexivity.
Qed.

Lemma awaited_app (l1 l2 : list task) :
  awaited (l1 ++ l2) = (awaited l1 ++ awaited l2)%list.
Proof. apply flat_map_app. Qed.

Lemma awaited_created (batch : list (nat * string)) :
  awaited (map (fun e => Created (fst e) (snd e)) batch) = [].
Proof. induction batch as [| e batch IH]; [reflexivity | exact IH]. Qed.

(** A step that moves URLs between the suspended tasks and the log. *)
Lemma fetch_once_moved (tasks tasks' : list task) (st st' : crawl) :
  Permutation (requests st ++ awaited tasks) (requests st' ++ awaited tasks') ->
  visited_urls st' = visited_urls st ->
  fetch_once tasks st -> fetch_once tasks' st'.
Proof.
  intros Hp Hv [Hnd Hsub]. split.
  - exact (Permutation_NoDup Hp Hnd).
  - intros u Hu. rewrite Hv. apply Hsub.
    exact (Permutation_in u (Permutation_sym Hp) Hu).
Qed.

(** A step that suspends a task on a URL not visited before. *)
Lemma fetch_once_started (tasks tasks' : list task) (st st' : crawl) (u : string) :
  ~ In u (visited_urls st) ->
  Permutation (u :: requests st ++ awaited tasks) (requests st' ++ awaited tasks') ->
  (forall x, In x (visited_urls st') <-> x = u \/ In x (visited_urls st)) ->
  fetch_once tasks st -> fetch_once tasks' st'.
Proof.
  intros Hu Hp Hv [Hnd Hsub]. split.
  - apply (Permutation_NoDup Hp). constructor; [| exact Hnd].
    intros Hin. apply Hu. now apply Hsub.
  - intros x Hx. apply Hv.
    apply (Permutation_in x (Permutation_sym Hp)) in Hx.
    destruct Hx as [<- | Hx]; [now left | right; now apply Hsub].
Qed.

Lemma step_task_fetch_once (pre post : list task) (t : task) (st : crawl) :
  fetch_once (pre ++ t :: post) st ->
  fetch_once (pre ++ fst (step_task libs world max_depth domain_id base_domain t st) :: post)
             (snd (step_task libs world max_depth domain_id base_domain t st)).
Proof.
  destruct t as [d u | d u |]; cbn [step_task fst snd]; intros H.
  - unfold process_url_start.
    destruct ((max_depth <? Z.of_nat d)%Z || str_in u (visited_urls st)) eqn:E;
      cbn [fst snd].
    + apply (@fetch_once_moved (pre ++ Created d u :: post) _ st _);
        [| reflexivity | exact H].
      rewrite !awaited_app. reflexivity.
    + apply orb_false_iff in E. destruct E as [_ E].
      apply (@fetch_once_started (pre ++ Created d u :: post) _ st _ u);
        [| | | exact H].
      * intros Hin. apply str_in_In in Hin. congruence.
      * rewrite !awaited_app. cbn [awaited flat_map app requests].
        rewrite !app_assoc. apply Permutation_middle.
      * cbn [visited_urls]. intros x. rewrite set_add_In. tauto.
  - destruct (resume_requests d u st) as [Hr Hv].
    apply (@fetch_once_moved (pre ++ Fetching d u :: post) _ st _);
      [| exact Hv | exact H].
    fold resume. rewrite Hr, !awaited_app. cbn [awaited flat_map app].
    rewrite <- !app_assoc. apply Permutation_app_head.
    cbn [app]. symmetry. apply Permutation_middle.
  - exact H.
Qed.

Lemma step_at_fetch_once (i : nat) (pre tasks : list task) (st : crawl) :
  fetch_once (pre ++ tasks) st ->
  fetch_once (pre ++ fst (step_at libs world max_depth domain_id base_domain i tasks st))
             (snd (step_at libs world max_depth domain_id base_domain i tasks st)).
Proof.
  revert i pre. induction tasks as [| t rest IH]; intros i pre H;
    [destruct i; exact H |].
  destruct i as [| j]; cbn [step_at].
  - pose proof (@step_task_fetch_once pre rest t st H) as Ht.
    destruct (step_task libs world max_depth domain_id base_domain t st). exact Ht.
  - specialize (IH j (pre ++ [t])%list). rewrite <- !app_assoc in IH. cbn [app] in IH.
    specialize (IH H).
    destruct (step_at libs world max_depth domain_id base_domain j rest st). exact IH.
Qed.

Lemma run_schedule_fetch_once (schedule : list nat) (tasks : list task) (st : crawl) :
  fetch_once tasks st ->
  fetch_once (fst (run_schedule libs world max_depth domain_id base_domain schedule tasks st))
             (snd (run_schedule libs world max_depth domain_id base_domain schedule tasks st)).
Proof.
  revert tasks st. induction schedule as [| i schedule IH]; intros tasks st H;
    cbn [run_schedule]; [exact H |].
  pose proof (@step_at_fetch_once i [] tasks st H) as Hs. cbn [app] in Hs.
  destruct (step_at libs world max_depth domain_id base_domain i tasks st) as [tasks' st'].
  now apply IH.
Qed.

Lemma finish_task_fetch_once (t : task) (rest : list task) (st : crawl) :
  fetch_once (t :: rest) st ->
  fetch_once rest (finish_task libs world max_depth domain_id base_domain t st).
Proof.
  intros H. destruct t as [d u | d u |]; cbn [finish_task].
  - pose proof (@step_task_fetch_once [] rest (Created d u) st H) as Hs.
    cbn [app step_task] in Hs.
    destruct (process_url_start max_depth d u st) as [[d' u' | d' u' |] st'];
      cbn [fst snd] in Hs; try exact Hs.
    exact (@step_task_fetch_once [] rest (Fetching d' u') st' Hs).
  - exact (@step_task_fetch_once [] rest (Fetching d u) st H).
  - exact H.
Qed.

Lemma finish_all_fetch_once (tasks : list task) (st : crawl) :
  fetch_once tasks st ->
  fetch_once [] (fold_left (fun st t => finish_task libs world max_depth domain_id
                                                    base_domain t st)
                           tasks st).
Proof.
  revert st. induction tasks as [| t rest IH]; intros st H; cbn [fold_left]; [exact H |].
  apply IH. now apply finish_task_fetch_once.
Qed.

Lemma gather_fetch_once (schedule : list nat) (tasks : list task) (st : crawl) :
  fetch_once tasks st -> fetch_once [] (run_gather schedule tasks st).
Proof.
  intros H. unfold run_gather, gather.
  pose proof (@run_schedule_fetch_once schedule tasks st H) as Hr.
  destruct (run_schedule libs world max_depth domain_id base_domain schedule tasks st)
    as [tasks' st'].
  now apply finish_all_fetch_once.
Qed.

Lemma bfs_loop_fetch_once (fuel : nat) (schedules : list (list nat))
    (tasks : list task) (st : crawl) (r : list (list nat) * list task * crawl) :
  fetch_once tasks st ->
  loop fuel schedules tasks st = Some r ->
  fetch_once (snd (fst r)) (snd r).
Proof.
  unfold loop. revert schedules tasks st.
  induction fuel as [| fuel IH]; intros schedules tasks st H; cbn [bfs_loop].
  - destruct (queue st); [| discriminate]. intros [= <-]. exact H.
  - destruct (queue st) as [| e q] eqn:Eq; [intros [= <-]; exact H |].
    set (batch := firstn (Nat.min 50 (List.length (e :: q))) (e :: q)).
    set (st1 := mkCrawl (skipn (Nat.min 50 (List.length (e :: q))) (e :: q)) (visited_urls st)
                        (emails_found st) (fetched st) (pages st) (requests st)).
    assert (H1 : fetch_once (tasks ++ map (fun e => Created (fst e) (snd e)) batch) st1).
    { apply (@fetch_once_moved tasks _ st _); [| reflexivity | exact H].
      rewrite awaited_app, awaited_created, app_nil_r. reflexivity. }
    match goal with |- context [if ?c then _ else _] => destruct c end.
    + apply IH. apply gather_fetch_once. exact H1.
    + apply IH. exact H1.
Qed.

(** With a task list of one task, every schedule runs that task to its end. *)
Lemma gather_single (schedule : list nat) (t : task) (st : crawl) :
  run_gather schedule [t] st
  = finish_task libs world max_depth domain_id base_domain t st.
Proof.
  unfold run_gather, gather. revert t st.
  induction schedule as [| i schedule IH]; intros t st; simpl; [reflexivity |].
  destruct i as [| j]; simpl.
  - destruct t as [d u | d u |]; simpl.
    + unfold process_url_start.
      destruct ((max_depth <? Z.of_nat d)%Z || str_in u (visited_urls st)); rewrite IH; reflexivity.
    + rewrite IH. reflexivity.
    + rewrite IH. reflexivity.
  - apply IH.
Qed.

(** The loop on the queue a crawl starts with: the start URL is taken off
    the queue and its task is made, and the queue is then empty, so the loop
    is left before the task has run. *)
Lemma bfs_loop_first_batch (n : nat) (schedules : list (list nat)) (url : string) :
  loop (S n) schedules [] (mkCrawl [(0, url)] [] [] [] [] [])
  = Some (schedules, [Created 0 url], mkCrawl [] [] [] [] [] []).
Proof. destruct n; reflexivity. Qed.

(** The task of the start URL, run to its end. *)
Lemma finish_start_task (url : string) :
  let st := finish_task libs world max_depth domain_id base_domain (Created 0 url)
                        (mkCrawl [] [] [] [] [] []) in
  visited_urls st = (if (max_depth <? 0)%Z then [] else [url]) /\
  fetched st = (if (max_depth <? 0)%Z then [] else [url]).
Proof.
  cbn [finish_task]. unfold process_url_start. cbn [Z.of_nat visited_urls str_in orb].
  destruct (max_depth <? 0)%Z; cbn [orb]; [split; reflexivity |].
  destruct (resume_fetched 0 url (mkCrawl [] (set_add url []) [] [url] [] [])) as [H1 H2].
  cbn [queue emails_found fetched pages app]. split; assumption.
Qed.

End CrawlerFacts.

Lemma fetch_once_done (st : crawl) :
  fetch_once [] st <->
  NoDup (requests st) /\ (forall u, In u (requests st) -> In u (visited_urls st)).
Proof. unfold fetch_once. cbn [awaited flat_map]. now rewrite app_nil_r. Qed.

(** C8: no URL is fetched twice.  A task adds its URL to [visited_urls]
    in the step in which it calls [fetch_page], and a task whose URL is
    already there is skipped.  So the requests made are all for different
    URLs: this holds when the crawl starts; the tasks made for the entries
    taken off the queue, the same URL several times among them or not,
    keep it; a gather keeps it whatever the order in which its tasks take
    their steps, the requests under way counted in; the loop keeps it, and
    [crawl_domain] returns with it. *)
Theorem no_url_fetched_twice (libs : Libraries) (world : World)
    (max_depth : Z) (domain_id : nat) (base_domain : string) :
  (forall url, fetch_once [] (mkCrawl [(0, url)] [] [] [] [] [])) /\
  (forall entries tasks st,
     fetch_once tasks st ->
     fetch_once (tasks ++ map (fun e => Created (fst e) (snd e)) entries) st) /\
  (forall schedule tasks st,
     fetch_once tasks st ->
     let st' := gather libs world max_depth domain_id base_domain schedule tasks st in
     NoDup (requests st') /\ (forall u, In u (requests st') -> In u (visited_urls st'))) /\
  (forall fuel schedules tasks st r,
     fetch_once tasks st ->
     bfs_loop libs world max_depth domain_id base_domain fuel schedules tasks st = Some r ->
     fetch_once (snd (fst r)) (snd r)) /\
  (forall n schedules url worker_id db,
     exists o,
       crawl_domain libs world max_depth (S n) schedules domain_id url worker_id db = Some o /\
       NoDup (requests (final_crawl o))).
Proof.
  split; [| split; [| split; [| split]]].
  - intros url. split; cbn; [constructor | intros u []].
  - intros entries tasks st H.
    apply (@fetch_once_moved tasks _ st _); [| reflexivity | exact H].
    rewrite awaited_app, awaited_created, app_nil_r. reflexivity.
  - intros schedule tasks st H. cbv zeta. apply fetch_once_done.
    now apply gather_fetch_once.
  - intros fuel schedules tasks st r H E. eapply bfs_loop_fetch_once; eassumption.
  - intros n schedules url worker_id db.
    unfold crawl_domain. destruct (db_error world ClaimDomain).
    + eexists. split; [reflexivity | constructor].
    + rewrite bfs_loop_first_batch. cbv zeta. rewrite gather_single.
      assert (H1 : fetch_once []
                     (finish_task libs world max_depth domain_id
                        (extract_domain libs url) (Created 0 url)
                        (mkCrawl [] [] [] [] [] []))).
      { apply finish_task_fetch_once. split; cbn; [constructor | intros u []]. }
      apply fetch_once_done in H1. destruct H1 as [H1 _].
      destruct (db_error world CompleteDomain); eexists; (split; [reflexivity | exact H1]).
Qed.

(** Two tasks for one URL, started one after the other before either
    resumes: the second is skipped, and one request is made. *)
Example same_url_twice :
  requests (gather text_libs
                   (mkWorld (fun _ => GetError TimeoutError) (fun _ => None)
                            (fun _ => 1) 0 (fun l => l))
                   3 7 "a.test" [0; 1; 1; 0]
                   [Created 0 "https://a.test"; Created 1 "https://a.test"]
                   (mkCrawl [] [] [] [] [] []))
  = ["https://a.test"].
Proof. reflexivity. Qed.

(** ** The crawl of a small site *)

Example site_links :
  extract_links site_libs home_html "https://a.test" "a.test"
  = ["https://a.test/blog/2024"; "https://a.test/contact"].
Proof. reflexivity. Qed.

(** C1, on the code: with [max_depth = 1] the crawl of [a.test] puts both
    links on the queue, the contact page first, and then returns with the
    two entries still on the queue: only the start page was fetched and
    [pages_crawled] is 1.  The loop tests the queue before the task of the
    start page has run, and nothing looks at the queue again. *)
Theorem crawl_stops_after_start_page (n : nat) (schedules : list (list nat)) :
  crawl_domain site_libs site_world 1 (S n) schedules 7 "https://a.test" "worker-1"
               pending_db
  = Some (mkOutcome
            (mkDatabase (mkDomain Completed 1 0 None None None)
                        [mkPage 7 "https://a.test" 200 (Some "text/html") None] [])
            (mkCrawl [(1, "https://a.test/contact"); (1, "https://a.test/blog/2024")]
                     ["https://a.test"] [] ["https://a.test"]
                     [mkPage 7 "https://a.test" 200 (Some "text/html") None]
                     ["https://a.test"])).
Proof.
  unfold crawl_domain. cbn [db_error site_world].
  rewrite bfs_loop_first_batch. cbv zeta. rewrite gather_single.
  vm_compute. reflexivity.
Qed.

(** On every site, with a [max_depth] that is not negative, the crawl
    visits the start URL and nothing else. *)
Lemma crawl_visits_start_only (libs : Libraries) (world : World) (max_depth : Z) (n : nat)
    (schedules : list (list nat)) (domain_id : nat) (url worker_id : string)
    (db : database) :
  (0 <= max_depth)%Z ->
  db_error world ClaimDomain = None ->
  exists o,
    crawl_domain libs world max_depth (S n) schedules domain_id url worker_id db = Some o /\
    visited_urls (final_crawl o) = [url] /\ fetched (final_crawl o) = [url].
Proof.
  intros Hd Hc. unfold crawl_domain. rewrite Hc, bfs_loop_first_batch. cbv zeta.
  rewrite gather_single.
  pose proof (finish_start_task libs world max_depth domain_id
                                (extract_domain libs url) url) as H.
  cbv zeta in H.
  replace (max_depth <? 0)%Z with false in H by (symmetry; apply Z.ltb_ge; exact Hd).
  destruct (db_error world CompleteDomain); eexists; (split; [reflexivity | exact H]).
Qed.

(** ** Failure of a crawl *)

Lemma take_length (n : nat) (s : string) : String.length (take n s) <= n.
Proof.
  revert s. induction n as [| n IH]; intros s; simpl; [lia |].
  destruct s; simpl; [lia |]. specialize (IH s). lia.
Qed.

(** When the update of the handler raises as well, the error is logged and
    the row stays as it was; here it stays [pending]. *)
Example crawl_failure_not_recorded :
  option_map (fun o => d_status (db_domain (final_db o)))
             (crawl_domain text_libs down_world 3 1 [] 7 "https://a.test" "worker-1"
                           pending_db)
  = Some Pending.
Proof. reflexivity. Qed.

(** An error of the email flush is caught where it arises: the domain is
    [completed] all the same. *)
Example flush_error_completes :
  option_map (fun o => (d_status (db_domain (final_db o)),
                        d_emails_found (db_domain (final_db o)),
                        db_emails (final_db o)))
             (crawl_domain text_libs flush_fails_world 3 1 [] 7 "https://a.test"
                           "worker-1" pending_db)
  = Some (Completed, 1, []).
Proof. vm_compute. reflexivity. Qed.

(** C7: [crawl_domain] returns normally in every case.  The errors that
    are not caught where they arise are those of the claim and of the
    final update; when one of them is raised and the database accepts the
    update of the handler, the row of the domain is [failed] with the
    first 500 characters of the message as [error_message], with
    [worker_id] and [locked_at] cleared and with its counters as they
    were.  When the database refuses that update too, this is logged and
    the row stays as the last accepted statement left it.  Nothing else
    reaches the handler: when the claim and the final update succeed the
    domain is [completed], also when the email flush raises, which is
    caught and logged in place. *)
Theorem crawl_failure_handled (libs : Libraries) (world : World) (max_depth : Z) (n : nat)
    (schedules : list (list nat)) (domain_id : nat) (url worker_id : string)
    (db : database) :
  exists o,
    crawl_domain libs world max_depth (S n) schedules domain_id url worker_id db = Some o /\
    (forall e,
       db_error world ClaimDomain = Some e \/
       (db_error world ClaimDomain = None /\ db_error world CompleteDomain = Some e) ->
       db_error world FailDomain = None ->
       db_domain (final_db o)
       = mkDomain Failed (d_pages_crawled (db_domain db)) (d_emails_found (db_domain db))
                  (Some (take 500 e)) None None /\
       String.length (take 500 e) <= 500) /\
    (forall e e',
       db_error world ClaimDomain = Some e \/
       (db_error world ClaimDomain = None /\ db_error world CompleteDomain = Some e) ->
       db_error world FailDomain = Some e' ->
       db_domain (final_db o)
       = match db_error world ClaimDomain with
         | Some _ => db_domain db
         | None =>
             mkDomain Crawling (d_pages_crawled (db_domain db))
                      (d_emails_found (db_domain db)) (d_error_message (db_domain db))
                      (Some worker_id) (Some (now world))
         end) /\
    (db_error world ClaimDomain = None ->
     db_error world CompleteDomain = None ->
     d_status (db_domain (final_db o)) = Completed /\
     d_worker_id (db_domain (final_db o)) = None /\
     d_locked_at (db_domain (final_db o)) = None).
Proof.
  unfold crawl_domain. destruct (db_error world ClaimDomain) as [ec |] eqn:Hc.
  - eexists. split; [reflexivity |]. split; [| split].
    + intros e [[= <-] | [[=] _]] Hf. cbn [final_db]. unfold fail_domain. rewrite Hf.
      split; [reflexivity | apply take_length].
    + intros e e' _ Hf. cbn [final_db]. unfold fail_domain. now rewrite Hf.
    + discriminate.
  - rewrite bfs_loop_first_batch. cbv zeta. rewrite gather_single.
    destruct (db_error world CompleteDomain) as [ed |] eqn:Hd.
    + eexists. split; [reflexivity |]. split; [| split].
      * intros e [[=] | [_ [= <-]]] Hf. cbn [final_db]. unfold fail_domain. rewrite Hf.
        cbn [db_domain]. split; [| apply take_length].
        destruct (emails_found _); [reflexivity |].
        destruct (db_error world InsertEmails); reflexivity.
      * intros e e' _ Hf. cbn [final_db]. unfold fail_domain. rewrite Hf.
        destruct (emails_found _); [reflexivity |].
        destruct (db_error world InsertEmails); reflexivity.
      * discriminate.
    + eexists. split; [reflexivity |]. split; [| split].
      * intros e [[=] | [_ [=]]].
      * intros e e' [[=] | [_ [=]]].
      * intros _ _. repeat split.
Qed.

(** The claim of the domain is refused: the row is [failed] with the
    message of the database. *)
Lemma crawl_failure_handled_witness :
  exists o,
    crawl_domain text_libs claim_fails_world 3 1 [] 7 "https://a.test" "worker-1" pending_db
    = Some o /\
    db_domain (final_db o)
    = mkDomain Failed 0 0 (Some "(1205, 'Lock wait timeout exceeded')") None None.
Proof.
  destruct (crawl_failure_handled text_libs claim_fails_world 3 0 [] 7 "https://a.test"
              "worker-1" pending_db) as [o [E [H _]]].
  exists o. split; [exact E |].
  exact (proj1 (H "(1205, 'Lock wait timeout exceeded')" (or_introl eq_refl) eq_refl)).
Defined.

(** ** Strings: which characters an operation keeps *)

Lemma forallb_str_impl (q1 q2 : ascii -> bool) (s : string) :
  (forall c, q1 c = true -> q2 c = true) ->
  forallb_str q1 s = true -> forallb_str q2 s = true.
Proof.
  intros Hq. induction s as [| c s IH]; simpl; [reflexivity |].
  intros H. apply andb_true_iff in H. destruct H as [Hc Hs].
  apply andb_true_iff. split; auto.
Qed.

Lemma has_forallb (c : ascii) (s : string) :
  has c s = false <-> forallb_str (fun x => negb (Ascii.eqb c x)) s = true.
Proof.
  unfold has. induction s as [| x s IH]; simpl; [tauto |].
  rewrite orb_false_iff, andb_true_iff, negb_true_iff, IH. tauto.
Qed.

Lemma append_empty_r (s : string) : s ++ EmptyString = s.
Proof. induction s; simpl; congruence. Qed.

Lemma append_assoc (a b c : string) : (a ++ b) ++ c = a ++ b ++ c.
Proof. induction a; simpl; congruence. Qed.

Section Kept.

Variable q : ascii -> bool.

Lemma forallb_str_app (a b : string) :
  forallb_str q (a ++ b) = forallb_str q a && forallb_str q b.
Proof.
  induction a as [| c a IH]; simpl; [reflexivity |].
  now rewrite IH, andb_assoc.
Qed.

Lemma break_at_app (p : ascii -> bool) (s : string) :
  fst (break_at p s) ++ snd (break_at p s) = s.
Proof.
  induction s as [| c s IH]; simpl; [reflexivity |].
  destruct (p c); simpl; [reflexivity |].
  destruct (break_at p s) as [a b]. simpl in *. congruence.
Qed.

Lemma break_at_forallb (p : ascii -> bool) (s : string) :
  forallb_str q s = true ->
  forallb_str q (fst (break_at p s)) = true /\
  forallb_str q (snd (break_at p s)) = true.
Proof.
  intros H. rewrite <- (break_at_app p s), forallb_str_app in H.
  now apply andb_true_iff in H.
Qed.

Lemma rstrip_forallb (p : ascii -> bool) (s : string) :
  forallb_str q s = true -> forallb_str q (rstrip p s) = true.
Proof.
  induction s as [| c s IH]; simpl; [trivial |]. intros H.
  apply andb_true_iff in H. destruct H as [Hc Hs]. specialize (IH Hs).
  destruct (rstrip p s) as [| d r].
  - destruct (p c); simpl; [reflexivity | now rewrite Hc].
  - change (q c && forallb_str q (String d r) = true). now rewrite Hc, IH.
Qed.

Lemma replace_from_forallb (old : string) (skip : nat) (s : string) :
  forallb_str q s = true ->
  forallb_str q (replace_from old EmptyString skip s) = true.
Proof.
  revert skip. induction s as [| c s IH]; intros skip H; [reflexivity |].
  simpl in H. apply andb_true_iff in H. destruct H as [Hc Hs].
  cbn [replace_from]. destruct skip as [| k]; [| now apply IH].
  destruct (String.prefix old (String c s)).
  - cbn [append]. now apply IH.
  - simpl. now rewrite Hc, IH.
Qed.

End Kept.

Lemma break_at_fst_free (p : ascii -> bool) (s : string) :
  forallb_str (fun c => negb (p c)) (fst (break_at p s)) = true.
Proof.
  induction s as [| c s IH]; simpl; [reflexivity |].
  destruct (p c) eqn:E; simpl; [reflexivity |].
  destruct (break_at p s) as [a b]. simpl in *. now rewrite E, IH.
Qed.

Lemma break_at_snd_head (p : ascii -> bool) (s : string) :
  starts_in p (snd (break_at p s)).
Proof.
  induction s as [| c s IH]; simpl; [exact I |].
  destruct (p c) eqn:E; simpl; [exact E |].
  destruct (break_at p s) as [a b]. exact IH.
Qed.

Lemma break_at_unique (p : ascii -> bool) (a b : string) :
  forallb_str (fun c => negb (p c)) a = true -> starts_in p b ->
  break_at p (a ++ b) = (a, b).
Proof.
  intros Ha Hb. induction a as [| c a IH]; simpl.
  - destruct b as [| d b]; simpl in *; [reflexivity | now rewrite Hb].
  - simpl in Ha. apply andb_true_iff in Ha. destruct Ha as [Hc Ha].
    apply negb_true_iff in Hc. rewrite Hc, (IH Ha). reflexivity.
Qed.

Lemma break_at_none (p : ascii -> bool) (s : string) :
  forallb_str (fun c => negb (p c)) s = true -> break_at p s = (s, EmptyString).
Proof.
  intros H. rewrite <- (append_empty_r s) at 1.
  apply break_at_unique; [assumption | exact I].
Qed.

Lemma remove_chars_id (p : ascii -> bool) (s : string) :
  forallb_str (fun c => negb (p c)) s = true -> remove_chars p s = s.
Proof.
  induction s as [| c s IH]; simpl; [reflexivity |]. intros H.
  apply andb_true_iff in H. destruct H as [Hc Hs].
  apply negb_true_iff in Hc. now rewrite Hc, IH.
Qed.

Lemma remove_chars_free (p : ascii -> bool) (s : string) :
  forallb_str (fun c => negb (p c)) (remove_chars p s) = true.
Proof.
  induction s as [| c s IH]; simpl; [reflexivity |].
  destruct (p c) eqn:E; simpl; [assumption | now rewrite E].
Qed.

Lemma rbreak_app (c : ascii) (s h t : string) :
  rbreak c s = Some (h, t) -> s = h ++ t /\ exists t', t = String c t'.
Proof.
  revert h t. induction s as [| a s IH]; intros h t; simpl; [discriminate |].
  destruct (rbreak c s) as [[h' t'] |].
  - intros [= <- <-]. destruct (IH h' t' eq_refl) as [-> Ht]. split; [reflexivity | exact Ht].
  - destruct (Ascii.eqb a c) eqn:E; [| discriminate].
    intros [= <- <-]. apply Ascii.eqb_eq in E. subst a.
    split; [reflexivity | now exists s].
Qed.

Lemma lower_fixed (s : string) :
  forallb_str (fun c => negb (is_upper c)) s = true -> lower s = s.
Proof.
  induction s as [| c s IH]; simpl; [reflexivity |]. intros H.
  apply andb_true_iff in H. destruct H as [Hc Hs].
  apply negb_true_iff in Hc. unfold lower_char. now rewrite Hc, IH.
Qed.

Lemma lower_no_upper (s : string) :
  forallb_str (fun c => negb (is_upper c)) (lower s) = true.
Proof.
  induction s as [| c s IH]; simpl; [reflexivity |]. rewrite IH, andb_true_r.
  destruct c as [[] [] [] [] [] [] [] []]; reflexivity.
Qed.

Lemma rstrip_cons (p : ascii -> bool) (c : ascii) (s : string) :
  rstrip p (String c s)
  = match rstrip p s with
    | EmptyString => if p c then EmptyString else String c EmptyString
    | String d r => String c (String d r)
    end.
Proof. reflexivity. Qed.

Lemma rstrip_idem (p : ascii -> bool) (s : string) :
  rstrip p (rstrip p s) = rstrip p s.
Proof.
  induction s as [| c s IH]; [reflexivity |].
  rewrite rstrip_cons. destruct (rstrip p s) as [| d r] eqn:E.
  - destruct (p c) eqn:Ec; simpl; [reflexivity | now rewrite Ec].
  - rewrite rstrip_cons, IH. reflexivity.
Qed.

Lemma rstrip_head (p : ascii -> bool) (c : ascii) (s : string) :
  rstrip p (String c s) = EmptyString \/
  exists r, rstrip p (String c s) = String c r.
Proof.
  simpl. destruct (rstrip p s); [destruct (p c) |]; eauto.
Qed.

(** No occurrence of [old], nothing to replace. *)
Lemma replace_absent (old new s : string) :
  contains s old = false -> replace old new s = s.
Proof.
  unfold replace. induction s as [| c s IH]; [reflexivity |].
  cbn [contains replace_from]. intros H.
  apply orb_false_iff in H. destruct H as [Hp Hs].
  rewrite Hp, (IH Hs). reflexivity.
Qed.

(** ** The URL library: the stages of a parse *)

Lemma cut_or_id (c : ascii) (s : string) :
  (if has c s then cut c s else (s, EmptyString)) = cut c s.
Proof.
  destruct (has c s) eqn:E; [reflexivity |].
  unfold cut. apply has_forallb in E.
  rewrite break_at_none; [reflexivity |].
  eapply forallb_str_impl; [| exact E]. auto.
Qed.

(** [urlsplit], stage by stage. *)
Lemma urlsplit_stages (bracketed_ok nfkc_ok : string -> bool) (url scheme0 : string) :
  urlsplit bracketed_ok nfkc_ok url scheme0 =
  let url1 := remove_chars unsafe_byte (lstrip c0_or_space url) in
  let scheme1 := remove_chars unsafe_byte (strip c0_or_space scheme0) in
  let su := split_scheme url1 scheme1 in
  let nu := if startswith (snd su) "//" then splitnetloc (snd su) 2
            else (EmptyString, snd su) in
  let uf := cut "#" (snd nu) in
  let uq := cut "?" (fst uf) in
  if netloc_accepted bracketed_ok nfkc_ok (fst nu)
  then Some (fst su, fst nu, fst uq, snd uq, snd uf)
  else None.
Proof.
  unfold urlsplit, netloc_accepted. cbv zeta.
  destruct (split_scheme _ _) as [sch u2]. cbn [fst snd].
  destruct (if startswith u2 "//" then splitnetloc u2 2 else (EmptyString, u2))
    as [nl u3]. cbn [fst snd].
  destruct ((has "[" nl && negb (has "]" nl)) || (has "]" nl && negb (has "[" nl)));
    [reflexivity |].
  destruct (has "[" nl && has "]" nl && negb (bracketed_ok nl)); [reflexivity |].
  rewrite (cut_or_id "#" u3). destruct (cut "#" u3) as [u4 frag]. cbn [fst snd].
  rewrite (cut_or_id "?" u4). destruct (cut "?" u4) as [u5 qry]. cbn [fst snd].
  reflexivity.
Qed.

Lemma urlparse_stages (bracketed_ok nfkc_ok : string -> bool) (url scheme0 : string) :
  urlparse bracketed_ok nfkc_ok url scheme0 =
  match urlsplit bracketed_ok nfkc_ok url scheme0 with
  | None => None
  | Some (scheme, netloc, url, query, fragment) =>
      Some (mkParse scheme netloc (fst (path_of scheme url))
                    (snd (path_of scheme url)) query fragment)
  end.
Proof.
  unfold urlparse, path_of.
  destruct (urlsplit _ _ _ _) as [[[[[sch nl] u] qry] frag] |]; [| reflexivity].
  destruct (if in_list sch uses_params && has ";" u then splitparams u
            else (u, EmptyString)); reflexivity.
Qed.

(** The path kept is a prefix of the path given, and not empty when that
    one starts with a slash. *)
Lemma path_of_prefix (scheme url : string) :
  exists rest, url = fst (path_of scheme url) ++ rest.
Proof.
  unfold path_of. destruct (in_list scheme uses_params && has ";" url).
  - unfold splitparams. destruct (rbreak "/" url) as [[h t] |] eqn:E.
    + apply rbreak_app in E. destruct E as [-> _].
      pose proof (break_at_app (Ascii.eqb ";") t) as Ht.
      destruct (break_at (Ascii.eqb ";") t) as [a [| c b]]; cbn [fst snd] in *.
      * exists EmptyString. now rewrite append_empty_r.
      * exists (String c b). rewrite append_assoc. now rewrite Ht.
    + unfold cut. pose proof (break_at_app (Ascii.eqb ";") url) as Hu.
      destruct (break_at (Ascii.eqb ";") url) as [a b]; cbn [fst snd] in *.
      now exists b.
  - exists EmptyString. cbn [fst]. now rewrite append_empty_r.
Qed.

Lemma startswith_char (c d : ascii) (s : string) :
  startswith (String d s) (String c EmptyString) = true <-> d = c.
Proof.
  unfold startswith. cbn [String.prefix].
  destruct (ascii_dec c d) as [<- | Hne].
  - destruct s; tauto.
  - split; [discriminate | congruence].
Qed.

Lemma startswith_inv (c : ascii) (s : string) :
  startswith s (String c EmptyString) = true -> exists s', s = String c s'.
Proof.
  destruct s as [| d s]; [discriminate |].
  intros H. apply startswith_char in H. subst d. now exists s.
Qed.

Lemma path_of_slash (scheme url : string) :
  startswith url "/" = true -> startswith (fst (path_of scheme url)) "/" = true.
Proof.
  intros H. apply startswith_inv in H. destruct H as [url' ->].
  unfold path_of. destruct (in_list scheme uses_params && has ";" (String "/" url'));
    [| now apply startswith_char].
  unfold splitparams. destruct (rbreak "/" (String "/" url')) as [[h t] |] eqn:E.
  - apply rbreak_app in E. destruct E as [E [t' ->]].
    cbn [break_at]. change (Ascii.eqb ";" "/") with false. cbv iota.
    destruct (break_at (Ascii.eqb ";") t') as [a b] eqn:Eb.
    destruct h as [| h0 h].
    + destruct b; now apply startswith_char.
    + cbn [append] in E. injection E as <- _.
      destruct b; cbn [fst append]; now apply startswith_char.
  - cbn [rbreak] in E. destruct (rbreak "/" url') as [[? ?] |]; discriminate.
Qed.

Section KeptByPath.

Variable q : ascii -> bool.

Lemma path_of_forallb (scheme url : string) :
  forallb_str q url = true -> forallb_str q (fst (path_of scheme url)) = true.
Proof.
  intros H. destruct (path_of_prefix scheme url) as [rest E].
  rewrite E, forallb_str_app in H. now apply andb_true_iff in H.
Qed.

End KeptByPath.

(** ** The URL library: what the components of a parse contain *)

Ltac all_chars c := destruct c as [[] [] [] [] [] [] [] []]; reflexivity.

Lemma scheme_char_lower (c : ascii) :
  implb (scheme_char c) (no_query_char (lower_char c)) = true.
Proof. all_chars c. Qed.

Lemma neat_lower (c : ascii) : implb (neat c) (neat (lower_char c)) = true.
Proof. all_chars c. Qed.

Lemma no_delimiter_lower (c : ascii) :
  implb (no_delimiter c) (no_delimiter (lower_char c)) = true.
Proof. all_chars c. Qed.

Lemma implb_true (a b : bool) : implb a b = true -> a = true -> b = true.
Proof. now destruct a, b. Qed.

Lemma lower_forallb2 (q1 q2 : ascii -> bool) (s : string) :
  (forall c, implb (q1 c) (q2 (lower_char c)) = true) ->
  forallb_str q1 s = true -> forallb_str q2 (lower s) = true.
Proof.
  intros Hq. induction s as [| c s IH]; simpl; [trivial |]. intros H.
  apply andb_true_iff in H. destruct H as [Hc Hs].
  rewrite (@implb_true _ _ (Hq c) Hc). now rewrite IH.
Qed.

Lemma prefix_inv (a s : string) :
  String.prefix a s = true -> exists rest, s = a ++ rest.
Proof.
  revert s. induction a as [| c a IH]; intros s H.
  - now exists s.
  - destruct s as [| d s]; [discriminate |]. cbn [String.prefix] in H.
    destruct (ascii_dec c d) as [<- | Hne]; [| discriminate].
    destruct (IH s H) as [rest ->]. now exists rest.
Qed.

(** The first stages of [urlsplit] on a URL that starts with a scheme
    prefix of the extractor. *)
Lemma http_stage (rest : string) :
  split_scheme (remove_chars unsafe_byte (lstrip c0_or_space ("http://" ++ rest)))
               EmptyString
  = ("http", "//" ++ remove_chars unsafe_byte rest).
Proof. reflexivity. Qed.

Lemma https_stage (rest : string) :
  split_scheme (remove_chars unsafe_byte (lstrip c0_or_space ("https://" ++ rest)))
               EmptyString
  = ("https", "//" ++ remove_chars unsafe_byte rest).
Proof. reflexivity. Qed.

Lemma netloc_stage (x : string) :
  (if startswith ("//" ++ x) "//" then splitnetloc ("//" ++ x) 2
   else (EmptyString, "//" ++ x))
  = break_at delimiter x.
Proof.
  replace (startswith ("//" ++ x) "//") with true.
  - reflexivity.
  - symmetry. unfold startswith. cbn [append String.prefix].
    destruct (ascii_dec "/" "/") as [_ | Hne]; [| congruence]. now destruct x.
Qed.

Lemma urlsplit_prefixed (bracketed_ok nfkc_ok : string -> bool) (url : string) :
  startswith url "http://" || startswith url "https://" = true ->
  exists scheme rest,
    (scheme = "http" \/ scheme = "https") /\
    forallb_str neat rest = true /\
    urlsplit bracketed_ok nfkc_ok url EmptyString
    = after_scheme bracketed_ok nfkc_ok scheme rest.
Proof.
  intros H. apply orb_true_iff in H.
  destruct H as [H | H]; apply prefix_inv in H; destruct H as [r0 ->].
  - exists "http", (remove_chars unsafe_byte r0).
    split; [now left |]. split; [apply remove_chars_free |].
    rewrite urlsplit_stages. cbv zeta. rewrite http_stage. cbn [fst snd].
    rewrite netloc_stage. reflexivity.
  - exists "https", (remove_chars unsafe_byte r0).
    split; [now right |]. split; [apply remove_chars_free |].
    rewrite urlsplit_stages. cbv zeta. rewrite https_stage. cbn [fst snd].
    rewrite netloc_stage. reflexivity.
Qed.

(** The path that [urlsplit] cuts out is empty or starts with a slash. *)
Lemma cut_path_slash (u : string) :
  starts_in delimiter u ->
  let path0 := fst (cut "?" (fst (cut "#" u))) in
  path0 = EmptyString \/ startswith path0 "/" = true.
Proof.
  intros H. cbv zeta. destruct u as [| c u]; [now left |].
  simpl in H. unfold delimiter in H. cbn [mem_char] in H.
  rewrite orb_false_r in H. apply orb_true_iff in H. destruct H as [H | H].
  - apply Ascii.eqb_eq in H. subst c. right.
    unfold cut. cbn [break_at]. change (Ascii.eqb "#" "/") with false. cbv iota.
    destruct (break_at (Ascii.eqb "#") u) as [a b]. cbn [fst break_at].
    change (Ascii.eqb "?" "/") with false. cbv iota.
    destruct (break_at (Ascii.eqb "?") a) as [a' b']. cbn [fst].
    now apply startswith_char.
  - apply orb_true_iff in H. destruct H as [H | H]; apply Ascii.eqb_eq in H; subst c; left.
    + unfold cut. cbn [break_at]. change (Ascii.eqb "#" "?") with false. cbv iota.
      destruct (break_at (Ascii.eqb "#") u) as [a b]. cbn [fst break_at].
      reflexivity.
    + reflexivity.
Qed.

Lemma forallb_str_and (q1 q2 : ascii -> bool) (s : string) :
  forallb_str q1 s = true -> forallb_str q2 s = true ->
  forallb_str (fun c => q1 c && q2 c) s = true.
Proof.
  induction s as [| c s IH]; simpl; [trivial |]. intros H1 H2.
  apply andb_true_iff in H1, H2. destruct H1 as [-> H1], H2 as [-> H2]. simpl. auto.
Qed.

Lemma cut_path_no_query (u : string) :
  forallb_str no_query_char (fst (cut "?" (fst (cut "#" u)))) = true.
Proof.
  unfold cut.
  pose proof (break_at_fst_free (Ascii.eqb "#") u) as Hh.
  destruct (break_at (Ascii.eqb "#") u) as [a b]. cbn [fst] in *.
  pose proof (break_at_fst_free (Ascii.eqb "?") a) as Hq.
  pose proof (break_at_forallb (fun c => negb (Ascii.eqb "#" c)) (Ascii.eqb "?") a Hh)
    as [Hh' _].
  destruct (break_at (Ascii.eqb "?") a) as [a' b']. cbn [fst] in *.
  eapply forallb_str_impl; [| exact (forallb_str_and _ _ _ Hq Hh')].
  intros c. unfold no_query_char. cbn [mem_char].
  rewrite (Ascii.eqb_sym c "?"), (Ascii.eqb_sym c "#").
  destruct (Ascii.eqb "?" c), (Ascii.eqb "#" c); simpl; congruence.
Qed.

Lemma cut_path_forallb (q : ascii -> bool) (u : string) :
  forallb_str q u = true -> forallb_str q (fst (cut "?" (fst (cut "#" u)))) = true.
Proof.
  intros H. unfold cut.
  pose proof (break_at_forallb q (Ascii.eqb "#") u H) as [Ha _].
  destruct (break_at (Ascii.eqb "#") u) as [a b]. cbn [fst] in *.
  pose proof (break_at_forallb q (Ascii.eqb "?") a Ha) as [Ha' _].
  destruct (break_at (Ascii.eqb "?") a) as [a' b']. exact Ha'.
Qed.

(** The components of the parse of a URL that starts with [http://] or
    [https://]. *)
Lemma parse_prefixed (libs : Libraries) (url : string) (p : ParseResult) :
  has_scheme_prefix url = true ->
  parse libs url = Some p ->
  (scheme p = "http" \/ scheme p = "https") /\
  forallb_str neat (netloc p) = true /\
  forallb_str no_delimiter (netloc p) = true /\
  netloc_accepted (lib_bracketed_netloc_ok libs) (lib_nfkc_netloc_ok libs) (netloc p) = true /\
  (path p = EmptyString \/ startswith (path p) "/" = true) /\
  forallb_str neat (path p) = true /\
  forallb_str no_query_char (path p) = true.
Proof.
  intros Hpre Hp. unfold parse in Hp. rewrite urlparse_stages in Hp.
  destruct (urlsplit_prefixed (lib_bracketed_netloc_ok libs) (lib_nfkc_netloc_ok libs)
                              url Hpre) as [sch [rest [Hsch [Hneat E]]]].
  rewrite E in Hp. unfold after_scheme in Hp. cbv zeta in Hp.
  pose proof (break_at_fst_free delimiter rest) as Hfree.
  pose proof (break_at_snd_head delimiter rest) as Hhead.
  pose proof (break_at_forallb neat delimiter rest Hneat) as [Hn1 Hn2].
  destruct (break_at delimiter rest) as [nl u]. cbn [fst snd] in *.
  destruct (netloc_accepted _ _ nl) eqn:Eacc; [| discriminate].
  injection Hp as <-. cbn [scheme netloc path].
  repeat split; try assumption.
  - destruct (cut_path_slash u Hhead) as [E0 | E0]; cbv zeta in E0.
    + left. rewrite E0. unfold path_of. cbn [has existsb_str].
      rewrite andb_false_r. reflexivity.
    + right. now apply path_of_slash.
  - apply path_of_forallb. now apply cut_path_forallb.
  - apply path_of_forallb. apply cut_path_no_query.
Qed.

(** ** Canonical components *)

Lemma canonical_host_facts (netloc : string) :
  forallb_str neat netloc = true ->
  forallb_str no_delimiter netloc = true ->
  forallb_str neat (canonical_host netloc) = true /\
  forallb_str no_delimiter (canonical_host netloc) = true /\
  lower (canonical_host netloc) = canonical_host netloc.
Proof.
  intros Hn Hd. unfold canonical_host, replace. repeat split.
  - apply replace_from_forallb. now apply (lower_forallb2 neat neat _ neat_lower).
  - apply replace_from_forallb.
    now apply (lower_forallb2 no_delimiter no_delimiter _ no_delimiter_lower).
  - apply lower_fixed. apply replace_from_forallb. apply lower_no_upper.
Qed.

Lemma rstrip_last (p : ascii -> bool) (s : string) (c : ascii) :
  last_char (rstrip p s) = Some c -> p c = false.
Proof.
  induction s as [| d s IH]; [discriminate |].
  rewrite rstrip_cons. destruct (rstrip p s) as [| e r].
  - destruct (p d) eqn:E; [discriminate |]. simpl. now intros [= <-].
  - exact IH.
Qed.

Lemma canonical_path_facts (path : string) :
  path = EmptyString \/ startswith path "/" = true ->
  forallb_str neat path = true ->
  forallb_str no_query_char path = true ->
  startswith (canonical_path path) "/" = true /\
  forallb_str neat (canonical_path path) = true /\
  forallb_str no_query_char (canonical_path path) = true /\
  canonical_path (canonical_path path) = canonical_path path /\
  (canonical_path path = "/" \/ last_char (canonical_path path) <> Some "/"%char).
Proof.
  intros Hs Hn Hq. unfold canonical_path, or_else.
  destruct (rstrip (Ascii.eqb "/") path) as [| c r] eqn:E; cbn [truthy].
  - repeat split; try reflexivity. now left.
  - assert (Hc : c = "/"%char).
    { destruct Hs as [-> | Hs]; [discriminate |].
      apply startswith_inv in Hs. destruct Hs as [s' ->].
      destruct (rstrip_head (Ascii.eqb "/") "/" s') as [E' | [r' E']];
        rewrite E' in E; congruence. }
    subst c. rewrite <- E. repeat split.
    + rewrite E. now apply startswith_char.
    + now apply rstrip_forallb.
    + now apply rstrip_forallb.
    + rewrite rstrip_idem, E. reflexivity.
    + right. intros H. apply rstrip_last in H. discriminate.
Qed.

(** ** Putting a URL together *)

Lemma urlunparse_canonical (scheme netloc path : string) :
  scheme = "http" \/ scheme = "https" ->
  startswith path "/" = true ->
  truthy netloc = true \/ startswith path "//" = false ->
  urlunparse (mkParse scheme netloc path EmptyString EmptyString EmptyString)
  = scheme ++ "://" ++ netloc ++ path.
Proof.
  intros Hs Hp Hn. unfold urlunparse, urlunsplit.
  cbn [Urllib.params Urllib.path Urllib.scheme Urllib.netloc Urllib.query
       Urllib.fragment truthy].
  rewrite Hp. cbn [negb]. rewrite andb_false_r.
  assert (Hc : truthy netloc ||
               (truthy scheme && in_list scheme uses_netloc && negb (startswith path "//"))
               = true).
  { destruct Hn as [-> | ->]; [reflexivity |].
    destruct Hs as [-> | ->]; now rewrite orb_true_r. }
  rewrite Hc. destruct Hs as [-> | ->]; reflexivity.
Qed.

Lemma urlunparse_no_query (scheme netloc path : string) :
  forallb_str no_query_char scheme = true ->
  forallb_str no_query_char netloc = true ->
  forallb_str no_query_char path = true ->
  forallb_str no_query_char
    (urlunparse (mkParse scheme netloc path EmptyString EmptyString EmptyString)) = true.
Proof.
  intros Hs Hn Hp. unfold urlunparse, urlunsplit.
  cbn [Urllib.params Urllib.path Urllib.scheme Urllib.netloc Urllib.query
       Urllib.fragment truthy].
  assert (H1 : forallb_str no_query_char
                 (if truthy path && negb (startswith path "/") then "/" ++ path else path)
               = true).
  { destruct (truthy path && negb (startswith path "/")); [| assumption].
    rewrite forallb_str_app. now rewrite Hp. }
  assert (H2 : forallb_str no_query_char
                 (if truthy netloc ||
                     (truthy scheme && in_list scheme uses_netloc &&
                      negb (startswith path "//"))
                  then "//" ++ netloc ++
                       (if truthy path && negb (startswith path "/")
                        then "/" ++ path else path)
                  else path) = true).
  { destruct (truthy netloc || _); [| assumption].
    rewrite !forallb_str_app, Hn, H1. reflexivity. }
  destruct (truthy scheme); [| exact H2].
  rewrite !forallb_str_app, Hs, H2. reflexivity.
Qed.

(** ** Parsing a canonical URL again *)

Lemma cut_none (c : ascii) (s : string) :
  has c s = false -> cut c s = (s, EmptyString).
Proof.
  intros H. unfold cut. apply has_forallb in H.
  rewrite break_at_none; [reflexivity |].
  eapply forallb_str_impl; [| exact H]. auto.
Qed.

Lemma no_query_char_has (s : string) :
  forallb_str no_query_char s = true -> has "?" s = false /\ has "#" s = false.
Proof.
  intros H. split; apply has_forallb; (eapply forallb_str_impl; [| exact H]);
    intros c; unfold no_query_char; cbn [mem_char];
    rewrite (Ascii.eqb_sym c "?"), (Ascii.eqb_sym c "#");
    destruct (Ascii.eqb "?" c), (Ascii.eqb "#" c); simpl; congruence.
Qed.

Lemma path_of_no_params (scheme path : string) :
  has ";" (last_segment path) = false -> path_of scheme path = (path, EmptyString).
Proof.
  intros H. unfold path_of.
  destruct (in_list scheme uses_params && has ";" path); [| reflexivity].
  unfold splitparams, last_segment in *.
  destruct (rbreak "/" path) as [[h t] |].
  - apply has_forallb in H. rewrite break_at_none; [reflexivity |].
    eapply forallb_str_impl; [| exact H]. auto.
  - now apply cut_none.
Qed.

Lemma after_scheme_canonical (bracketed_ok nfkc_ok : string -> bool)
    (scheme netloc path : string) :
  forallb_str no_delimiter netloc = true ->
  startswith path "/" = true ->
  forallb_str no_query_char path = true ->
  after_scheme bracketed_ok nfkc_ok scheme (netloc ++ path)
  = if netloc_accepted bracketed_ok nfkc_ok netloc
    then Some (scheme, netloc, path, EmptyString, EmptyString)
    else None.
Proof.
  intros Hd Hs Hq. unfold after_scheme. cbv zeta.
  rewrite (break_at_unique delimiter netloc path).
  - cbn [fst snd]. destruct (no_query_char_has _ Hq) as [H1 H2].
    rewrite (cut_none _ _ H2). cbn [fst snd]. rewrite (cut_none _ _ H1). reflexivity.
  - exact Hd.
  - apply startswith_inv in Hs. destruct Hs as [s' ->]. reflexivity.
Qed.

Lemma parse_canonical (libs : Libraries) (scheme netloc path : string) :
  scheme = "http" \/ scheme = "https" ->
  forallb_str neat netloc = true ->
  forallb_str no_delimiter netloc = true ->
  startswith path "/" = true ->
  forallb_str neat path = true ->
  forallb_str no_query_char path = true ->
  has ";" (last_segment path) = false ->
  parse libs (scheme ++ "://" ++ netloc ++ path)
  = if netloc_accepted (lib_bracketed_netloc_ok libs) (lib_nfkc_netloc_ok libs) netloc
    then Some (mkParse scheme netloc path EmptyString EmptyString EmptyString)
    else None.
Proof.
  intros Hsch Hn1 Hd Hs Hn2 Hq Hsemi.
  assert (Hneat : remove_chars unsafe_byte (netloc ++ path) = netloc ++ path).
  { apply remove_chars_id. change (forallb_str neat (netloc ++ path) = true).
    now rewrite forallb_str_app, Hn1, Hn2. }
  unfold parse. rewrite urlparse_stages, urlsplit_stages. cbv zeta.
  destruct Hsch as [-> | ->].
  - change ("http" ++ "://" ++ netloc ++ path) with ("http://" ++ (netloc ++ path)).
    rewrite http_stage. cbn [fst snd]. rewrite netloc_stage, Hneat.
    fold (after_scheme (lib_bracketed_netloc_ok libs) (lib_nfkc_netloc_ok libs)
                       "http" (netloc ++ path)).
    rewrite after_scheme_canonical by assumption.
    destruct (netloc_accepted _ _ netloc); [| reflexivity].
    now rewrite path_of_no_params.
  - change ("https" ++ "://" ++ netloc ++ path) with ("https://" ++ (netloc ++ path)).
    rewrite https_stage. cbn [fst snd]. rewrite netloc_stage, Hneat.
    fold (after_scheme (lib_bracketed_netloc_ok libs) (lib_nfkc_netloc_ok libs)
                       "https" (netloc ++ path)).
    rewrite after_scheme_canonical by assumption.
    destruct (netloc_accepted _ _ netloc); [| reflexivity].
    now rewrite path_of_no_params.
Qed.

(** ** The canonical form *)

Lemma with_scheme_prefixed (url : string) : has_scheme_prefix (with_scheme url) = true.
Proof.
  unfold with_scheme. destruct (has_scheme_prefix url) eqn:E; cbn [negb]; [exact E |].
  unfold has_scheme_prefix, startswith. cbn [append String.prefix].
  repeat (destruct (ascii_dec _ _) as [_ | Hne]; [| try congruence]).
  all: try (now destruct url; rewrite ?orb_true_r).
  all: now rewrite orb_true_r || reflexivity.
Qed.

Lemma normalize_url_unfold (libs : Libraries) (raw : string) :
  raw <> EmptyString ->
  normalize_url libs raw
  = match parse libs (with_scheme raw) with
    | Some parsed =>
        urlunparse (mkParse (scheme parsed) (canonical_host (netloc parsed))
                            (canonical_path (path parsed))
                            EmptyString EmptyString EmptyString)
    | None => with_scheme raw
    end.
Proof.
  intros H. destruct raw; [congruence | reflexivity].
Qed.

Lemma no_delimiter_no_query (c : ascii) :
  implb (no_delimiter c) (no_query_char c) = true.
Proof. all_chars c. Qed.

Lemma no_delimiter_forallb (s : string) :
  forallb_str no_delimiter s = true -> forallb_str no_query_char s = true.
Proof.
  apply forallb_str_impl. intros c. apply implb_true, no_delimiter_no_query.
Qed.

Example canonicalize_spec_ex :
  canonicalize_spec text_libs "WWW.Example.com/a/b/?x=1#f" = "https://example.com/a/b".
Proof. reflexivity. Qed.


(** A [www.] inside the host is removed like one in front: the result is a
    URL of another host. *)
Example normalize_url_inner_www :
  normalize_url text_libs "https://mywww.a.test/x" = "https://mya.test/x" /\
  www_in_front_only "mywww.a.test" = false.
Proof. split; reflexivity. Qed.

(** A host with its [www.] in front: the code and the specification
    agree. *)
Example normalize_url_leading_www :
  www_in_front_only "WWW.Example.com" = true /\
  normalize_url text_libs "WWW.Example.com/a/b/?x=1#f" = "https://example.com/a/b" /\
  canonicalize_spec text_libs "WWW.Example.com/a/b/?x=1#f" = "https://example.com/a/b".
Proof. repeat split; reflexivity. Qed.

Lemma startswith_append (a x : string) : startswith (a ++ x) a = true.
Proof.
  unfold startswith. induction a as [| c a IH]; cbn [append String.prefix].
  - now destruct x.
  - destruct (ascii_dec c c) as [_ | Hne]; [exact IH | congruence].
Qed.

Lemma replace_www_in_front (netloc : string) :
  www_in_front_only netloc = true -> canonical_host netloc = host_of_spec netloc.
Proof.
  unfold www_in_front_only, canonical_host, host_of_spec, strip_www.
  intros H. apply negb_true_iff in H.
  destruct (startswith (lower netloc) "www.") eqn:E.
  - apply prefix_inv in E. destruct E as [rest E]. rewrite E in *.
    change (drop 4 ("www." ++ rest)) with rest in *.
    rewrite <- (replace_absent "www." EmptyString rest H) at 2.
    unfold replace. cbn [append replace_from].
    change (String.prefix "www." (String "w" (String "w" (String "w" (String "." rest)))))
      with (startswith ("www." ++ rest) "www.").
    rewrite startswith_append. cbn [String.length Nat.sub append].
    destruct rest; reflexivity.
  - now apply replace_absent.
Qed.

Lemma is_valid_url_domain (libs : Libraries) (url base_domain : string) :
  is_valid_url libs url base_domain = true ->
  extract_domain libs url = base_domain \/
  endswith (extract_domain libs url) ("." ++ base_domain) = true.
Proof.
  unfold is_valid_url, extract_domain.
  destruct (parse libs url) as [p |]; [| discriminate].
  destruct (negb (truthy (scheme p)) || negb (truthy (netloc p))); [discriminate |].
  destruct (String.eqb _ base_domain) eqn:E.
  - intros _. left. now apply String.eqb_eq.
  - destruct (endswith _ ("." ++ base_domain)); [intros _; now right | discriminate].
Qed.

Lemma valid_in_scope (libs : Libraries) (url base_domain : string) :
  is_valid_url libs url base_domain = true ->
  www_in_front_only_url libs url = true ->
  in_scope_spec libs url base_domain = true.
Proof.
  unfold is_valid_url, www_in_front_only_url, in_scope_spec.
  destruct (parse libs url) as [p |]; [| discriminate].
  intros H Hw. rewrite <- (replace_www_in_front _ Hw). unfold canonical_host.
  destruct (truthy (scheme p)); [| discriminate].
  destruct (truthy (netloc p)); [| discriminate]. cbn [negb orb andb] in *.
  destruct (String.eqb _ base_domain); cbn [negb orb andb] in *.
  - destruct (existsb _ excluded_extensions); [discriminate | reflexivity].
  - destruct (endswith _ ("." ++ base_domain)); cbn [negb] in *; [| discriminate].
    destruct (existsb _ excluded_extensions); [discriminate | reflexivity].
Qed.


(** ** Canonicalizing twice *)

(** C4 as stated fails: a path parameter hidden behind a trailing slash, or
    a [www.] that the first removal puts together, is only removed by the
    second pass. *)
Lemma normalize_url_not_idempotent :
  (normalize_url text_libs "https://a.test/a;b/" = "https://a.test/a;b" /\
   normalize_url text_libs "https://a.test/a;b" = "https://a.test/a") /\
  (normalize_url text_libs "https://wwww.ww.a.test" = "https://www.a.test/" /\
   normalize_url text_libs "https://www.a.test/" = "https://a.test/").
Proof. repeat split; reflexivity. Qed.

Lemma canonical_prefixed (scheme rest : string) :
  scheme = "http" \/ scheme = "https" ->
  has_scheme_prefix (scheme ++ "://" ++ rest) = true.
Proof.
  unfold has_scheme_prefix. intros [-> | ->].
  - change ("http" ++ "://" ++ rest) with ("http://" ++ rest).
    now rewrite startswith_append.
  - change ("https" ++ "://" ++ rest) with ("https://" ++ rest).
    now rewrite startswith_append, orb_true_r.
Qed.

Lemma with_scheme_fixed (url : string) :
  has_scheme_prefix url = true -> with_scheme url = url.
Proof. intros H. unfold with_scheme. now rewrite H. Qed.

Lemma prefixed_not_empty (url : string) :
  has_scheme_prefix url = true -> url <> EmptyString.
Proof. intros H ->. discriminate. Qed.

(** C4, amended: canonicalizing twice gives what canonicalizing once gives,
    for every input that is [stable]. *)
Theorem normalize_url_idempotent (libs : Libraries) (u : string) :
  stable libs u = true ->
  normalize_url libs (normalize_url libs u) = normalize_url libs u.
Proof.
  intros Hst. destruct (string_dec u EmptyString) as [-> | Hne]; [reflexivity |].
  rewrite (@normalize_url_unfold libs _ Hne). unfold stable in Hst.
  pose proof (with_scheme_prefixed u) as Hpre.
  destruct (parse libs (with_scheme u)) as [p |] eqn:Ep.
  - destruct (@parse_prefixed libs (with_scheme u) _ Hpre Ep)
      as [Hsch [Hn1 [Hd [_ [Hs [Hn2 Hq]]]]]].
    destruct (@canonical_host_facts _ Hn1 Hd) as [Hhn [Hhd Hhl]].
    destruct (@canonical_path_facts _ Hs Hn2 Hq) as [Hps [Hpn [Hpq [Hpi _]]]].
    fold (canonical_host (netloc p)) in Hst. fold (canonical_path (path p)) in Hst.
    cbv zeta in Hst. apply andb_true_iff in Hst. destruct Hst as [Hst Hc].
    apply andb_true_iff in Hst. destruct Hst as [Hw Hsemi].
    apply negb_true_iff in Hw, Hsemi.
    assert (Hc' : truthy (canonical_host (netloc p)) = true \/
                  startswith (canonical_path (path p)) "//" = false).
    { apply orb_true_iff in Hc. destruct Hc as [Hc | Hc]; [now left | right].
      now apply negb_true_iff in Hc. }
    rewrite (@urlunparse_canonical _ _ _ Hsch Hps Hc').
    set (r := scheme p ++ "://" ++ canonical_host (netloc p) ++ canonical_path (path p)).
    assert (Hr : has_scheme_prefix r = true).
    { unfold r. now apply canonical_prefixed. }
    rewrite (@normalize_url_unfold libs _ (@prefixed_not_empty _ Hr)).
    rewrite (@with_scheme_fixed _ Hr). unfold r at 1.
    rewrite (@parse_canonical libs _ _ _ Hsch Hhn Hhd Hps Hpn Hpq Hsemi).
    destruct (netloc_accepted _ _ _); [| reflexivity].
    cbn [Urllib.scheme Urllib.netloc Urllib.path].
    rewrite Hpi. unfold canonical_host at 1. rewrite Hhl.
    rewrite (@replace_absent _ _ _ Hw).
    now rewrite (@urlunparse_canonical _ _ _ Hsch Hps Hc').
  - rewrite (@normalize_url_unfold libs _ (@prefixed_not_empty _ Hpre)).
    rewrite (@with_scheme_fixed _ Hpre), Ep. reflexivity.
Qed.

Lemma normalize_url_idempotent_witness :
  normalize_url text_libs (normalize_url text_libs "WWW.Example.com/a/b/?x=1#f")
  = normalize_url text_libs "WWW.Example.com/a/b/?x=1#f".
Proof.
  apply (@normalize_url_idempotent text_libs "WWW.Example.com/a/b/?x=1#f").
  reflexivity.
Defined.

(** ** The link extractor *)

Lemma split_scheme_no_query (u : string) :
  forallb_str no_query_char (fst (split_scheme u EmptyString)) = true.
Proof.
  unfold split_scheme.
  destruct (break_at (Ascii.eqb ":") u) as [[| c0 pre] [| x rest]]; try reflexivity.
  destruct (is_alpha c0 && forallb_str scheme_char (String c0 pre)) eqn:C;
    [| reflexivity].
  apply andb_true_iff in C. destruct C as [_ C]. cbn [fst].
  exact (@lower_forallb2 scheme_char no_query_char _ scheme_char_lower C).
Qed.

(** No component of a parse contains [?] or [#], the query and the fragment
    apart. *)
Lemma parse_no_query (libs : Libraries) (url : string) (p : ParseResult) :
  parse libs url = Some p ->
  forallb_str no_query_char (scheme p) = true /\
  forallb_str no_query_char (netloc p) = true /\
  forallb_str no_query_char (path p) = true.
Proof.
  unfold parse. rewrite urlparse_stages, urlsplit_stages. cbv zeta.
  change (remove_chars unsafe_byte (strip c0_or_space EmptyString)) with EmptyString.
  destruct (netloc_accepted _ _ _); [| discriminate].
  intros [= <-]. cbn [Urllib.scheme Urllib.netloc Urllib.path].
  split; [apply split_scheme_no_query |]. split.
  - destruct (startswith _ "//"); [| reflexivity].
    unfold splitnetloc. apply no_delimiter_forallb.
    apply (break_at_fst_free (fun c => mem_char c "/?#")).
  - apply path_of_forallb. apply cut_path_no_query.
Qed.

Lemma extract_links_loop_admitted (libs : Libraries) (base_url base_domain : string)
    (tags : list (string * string)) (links : list string) :
  (forall l, In l links -> admitted libs base_domain l) ->
  forall l, In l (extract_links_loop libs tags base_url base_domain links) ->
            admitted libs base_domain l.
Proof.
  revert links. induction tags as [| [name href] rest IH]; intros links Hl; [exact Hl |].
  cbn [extract_links_loop].
  destruct (skipped_href href); [now apply IH |].
  destruct (join_url libs base_url href) as [absolute_url |]; [| now apply IH].
  destruct (parse libs absolute_url) as [parsed |] eqn:Ep; [| exact Hl].
  cbv zeta.
  destruct (is_valid_url libs _ base_domain) eqn:Ev; [| now apply IH].
  apply IH. intros l Hin. apply set_add_In in Hin. destruct Hin as [-> | Hin]; [| auto].
  split; [exact Ev |]. apply no_query_char_has.
  destruct (parse_no_query libs absolute_url Ep) as [H1 [H2 H3]].
  now apply urlunparse_no_query.
Qed.

(** C2 as stated fails: a link is returned with its host as written and
    with its trailing slash; only query and fragment are cut off. *)
Lemma extracted_link_not_canonical :
  extract_links team_libs "<html>" "https://a.test" "a.test"
  = ["https://WWW.A.test/Team/"] /\
  normalize_url team_libs "https://WWW.A.test/Team/" = "https://a.test/Team".
Proof. split; reflexivity. Qed.

Lemma extract_links_loop_resolved (libs : Libraries) (base_url base_domain : string)
    (all tags : list (string * string)) (links : list string) :
  (forall t, In t tags -> In t all) ->
  (forall l, In l links -> resolved_link libs all base_url l) ->
  forall l, In l (extract_links_loop libs tags base_url base_domain links) ->
            resolved_link libs all base_url l.
Proof.
  revert links. induction tags as [| [name href] rest IH]; intros links Hsub Hl;
    [exact Hl |].
  assert (Hrest : forall t, In t rest -> In t all) by (intros t Ht; apply Hsub; now right).
  cbn [extract_links_loop].
  destruct (skipped_href href); [now apply IH |].
  destruct (join_url libs base_url href) as [absolute_url |] eqn:Ej; [| now apply IH].
  destruct (parse libs absolute_url) as [parsed |] eqn:Ep; [| exact Hl].
  cbv zeta.
  destruct (is_valid_url libs _ base_domain); [| now apply IH].
  apply IH; [exact Hrest |]. intros l Hin. apply set_add_In in Hin.
  destruct Hin as [-> | Hin]; [| now apply Hl].
  exists name, href, absolute_url, parsed.
  split; [apply Hsub; now left |]. split; [exact Ej |]. split; [exact Ep | reflexivity].
Qed.

(** C2, amended: every URL that [extract_links] returns is the link of an
    [a] or [area] element resolved against the URL of the page, with its
    host and its path as the page wrote them and with parameters, query
    and fragment cut off: it has no [?] and no [#].  It is in scope of the
    base host, as the specification defines it, whenever its host has no
    [www.] but, possibly, one in front. *)
Theorem extract_links_admitted (libs : Libraries) (html base_url base_domain : string)
    (link : string) :
  In link (extract_links libs html base_url base_domain) ->
  (exists soup,
     lib_BeautifulSoup libs html = Some soup /\
     resolved_link libs (find_all ["a"; "area"] soup) base_url link) /\
  has "?" link = false /\ has "#" link = false /\
  (www_in_front_only_url libs link = true -> in_scope_spec libs link base_domain = true).
Proof.
  intros Hin.
  assert (Ha : admitted libs base_domain link).
  { revert Hin. unfold extract_links.
    destruct (lib_BeautifulSoup libs html) as [soup |]; [| intros []].
    apply (@extract_links_loop_admitted libs base_url base_domain). intros l []. }
  destruct Ha as [Hv [Hq Hf]]. split; [| split; [exact Hq | split; [exact Hf |]]].
  - revert Hin. unfold extract_links.
    destruct (lib_BeautifulSoup libs html) as [soup |]; [| intros []].
    intros Hin. exists soup. split; [reflexivity |].
    apply (@extract_links_loop_resolved libs base_url base_domain
             (find_all ["a"; "area"] soup) (find_all ["a"; "area"] soup) []);
      [auto | intros l [] | exact Hin].
  - now apply valid_in_scope.
Qed.

Lemma extract_links_admitted_witness :
  (exists soup,
     lib_BeautifulSoup team_libs "<html>" = Some soup /\
     resolved_link team_libs (find_all ["a"; "area"] soup) "https://a.test"
                   "https://WWW.A.test/Team/") /\
  has "?" "https://WWW.A.test/Team/" = false /\
  has "#" "https://WWW.A.test/Team/" = false /\
  (www_in_front_only_url team_libs "https://WWW.A.test/Team/" = true ->
   in_scope_spec team_libs "https://WWW.A.test/Team/" "a.test" = true).
Proof.
  apply (@extract_links_admitted team_libs "<html>" "https://a.test" "a.test"
           "https://WWW.A.test/Team/").
  vm_compute. left. reflexivity.
Defined.

(** The link of the team page has its [www.] in front, and is in scope. *)
Example extracted_link_in_scope :
  www_in_front_only_url team_libs "https://WWW.A.test/Team/" = true /\
  in_scope_spec team_libs "https://WWW.A.test/Team/" "a.test" = true.
Proof. split; reflexivity. Qed.

(** A host that holds the letters of the base host around a [www.] is
    admitted: the link leaves the site. *)
Example extract_links_foreign_host :
  extract_links login_libs "<html>" "https://example.com" "example.com"
  = ["https://examwww.ple.com/login"] /\
  in_scope_spec login_libs "https://examwww.ple.com/login" "example.com" = false.
Proof. split; reflexivity. Qed.

(** * Further properties *)

(** ** Invariants of the crawl, in general *)

Section CrawlInvariant.

Variable libs : Libraries.
Variable world : World.
Variable max_depth : Z.
Variable domain_id : nat.
Variable base_domain : string.

(** A property of the crawl state that the two segments of [process_url]
    keep, and that taking entries off the queue keeps. *)
Variable I : crawl -> Prop.

Hypothesis start_keeps :
  forall depth u st, I st -> I (snd (process_url_start max_depth depth u st)).
Hypothesis resume_keeps :
  forall depth u st,
    I st -> I (process_url_resume libs world max_depth domain_id base_domain depth u st).
Hypothesis pop_keeps :
  forall n st,
    I st ->
    I (mkCrawl (skipn n (queue st)) (visited_urls st) (emails_found st)
               (fetched st) (pages st) (requests st)).

Lemma step_task_keeps (t : task) (st : crawl) :
  I st -> I (snd (step_task libs world max_depth domain_id base_domain t st)).
Proof.
  destruct t as [d u | d u |]; simpl; auto.
Qed.

Lemma step_at_keeps (i : nat) (tasks : list task) (st : crawl) :
  I st -> I (snd (step_at libs world max_depth domain_id base_domain i tasks st)).
Proof.
  revert i. induction tasks as [| t rest IH]; intros i H; [destruct i; exact H |].
  destruct i as [| j]; simpl.
  - pose proof (step_task_keeps t H) as Ht.
    destruct (step_task libs world max_depth domain_id base_domain t st). exact Ht.
  - pose proof (IH j H) as Hr.
    destruct (step_at libs world max_depth domain_id base_domain j rest st). exact Hr.
Qed.

Lemma run_schedule_keeps (schedule : list nat) (tasks : list task) (st : crawl) :
  I st ->
  I (snd (run_schedule libs world max_depth domain_id base_domain schedule tasks st)).
Proof.
  revert tasks st. induction schedule as [| i schedule IH]; intros tasks st H; simpl.
  - exact H.
  - pose proof (step_at_keeps i tasks H) as Hs.
    destruct (step_at libs world max_depth domain_id base_domain i tasks st) as [tasks' st'].
    now apply IH.
Qed.

Lemma finish_task_keeps (t : task) (st : crawl) :
  I st -> I (finish_task libs world max_depth domain_id base_domain t st).
Proof.
  destruct t as [d u | d u |]; simpl; intros H; auto.
  pose proof (start_keeps d u H) as Hs.
  destruct (process_url_start max_depth d u st) as [[d' u' | d' u' |] st'];
    simpl in Hs; auto.
Qed.

Lemma gather_keeps (schedule : list nat) (tasks : list task) (st : crawl) :
  I st -> I (gather libs world max_depth domain_id base_domain schedule tasks st).
Proof.
  intros H. unfold gather.
  pose proof (run_schedule_keeps schedule tasks H) as Hr.
  destruct (run_schedule libs world max_depth domain_id base_domain schedule tasks st)
    as [tasks' st']. simpl in Hr. clear H.
  revert st' Hr. induction tasks' as [| t rest IH]; intros st' Hr; simpl; [exact Hr |].
  apply IH. now apply finish_task_keeps.
Qed.

Lemma bfs_loop_keeps (fuel : nat) (schedules : list (list nat))
    (tasks : list task) (st : crawl) (r : list (list nat) * list task * crawl) :
  I st ->
  bfs_loop libs world max_depth domain_id base_domain fuel schedules tasks st = Some r ->
  I (snd r).
Proof.
  revert schedules tasks st. induction fuel as [| fuel IH]; intros schedules tasks st H; simpl.
  - destruct (queue st); [| discriminate]. intros [= <-]. exact H.
  - destruct (queue st) as [| e q] eqn:Eq; [intros [= <-]; exact H |].
    pose proof (pop_keeps (Nat.min 50 (List.length (e :: q))) H) as Hp.
    rewrite Eq in Hp.
    match goal with |- context [if ?c then _ else _] => destruct c end.
    + apply IH. apply gather_keeps. exact Hp.
    + apply IH. exact Hp.
Qed.

End CrawlInvariant.

(** ** What one task does to the crawl state *)

Section TaskEffect.

Variable libs : Libraries.
Variable world : World.
Variable max_depth : Z.
Variable domain_id : nat.
Variable base_domain : string.

Let resume := process_url_resume libs world max_depth domain_id base_domain.

(** The second segment of [process_url] leaves [visited_urls] and the fetch
    log alone, writes at most one page row, and appends to the queue the
    unvisited links of the page, those with a priority path first. *)
Lemma resume_effect (depth : nat) (u : string) (st : crawl) :
  visited_urls (resume depth u st) = visited_urls st /\
  fetched (resume depth u st) = fetched st /\
  List.length (pages (resume depth u st))
  = List.length (pages st) +
    (match db_error world (InsertPage u) with Some _ => 0 | None => 1 end) /\
  exists links,
    (links = [] \/
     (Z.of_nat depth < max_depth)%Z /\
     exists html, links = set_order world (extract_links libs html u base_domain)) /\
    queue (resume depth u st)
    = (queue st ++
       map (fun link => (depth + 1, link))
           (filter (fun link => negb (str_in link (visited_urls st)))
                   (filter is_priority links ++
                    filter (fun link => negb (str_in link (filter is_priority links)))
                           links)))%list.
Proof.
  unfold resume, process_url_resume.
  destruct (fetch_page (session_get world) u) as [html status_code].
  assert (Hnil : forall q : list (nat * string),
             exists links : list string,
               (links = [] \/
                (Z.of_nat depth < max_depth)%Z /\
                exists html, links = set_order world (extract_links libs html u base_domain)) /\
               q = (q ++
                    map (fun link => (depth + 1, link))
                        (filter (fun link => negb (str_in link (visited_urls st)))
                                (filter is_priority links ++
                                 filter (fun link =>
                                           negb (str_in link (filter is_priority links)))
                                        links)))%list).
  { intros q. exists []. split; [now left | simpl; now rewrite app_nil_r]. }
  destruct (db_error world (InsertPage u)) as [e |]; cbv zeta beta iota.
  - destruct html; cbn [visited_urls fetched pages queue];
      (repeat split; [lia | apply Hnil]).
  - destruct html as [h |]; cbn [visited_urls fetched pages queue].
    2: { repeat split; [rewrite length_app; simpl; lia | apply Hnil]. }
    destruct (lastrowid world u) as [| pid]; cbn [visited_urls fetched pages queue].
    { repeat split; [rewrite length_app; simpl; lia | apply Hnil]. }
    destruct (truthy h); cbn [negb visited_urls fetched pages queue].
    2: { repeat split; [rewrite length_app; simpl; lia | apply Hnil]. }
    repeat split; [rewrite length_app; simpl; lia |].
    destruct ((Z.of_nat depth <? max_depth)%Z) eqn:Ed; [| apply Hnil].
    apply Z.ltb_lt in Ed.
    exists (set_order world (extract_links libs h u base_domain)).
    split; [right; split; [exact Ed | now exists h] | reflexivity].
Qed.

End TaskEffect.

(** ** The queue: depth, order and scope of its entries *)

Lemma in_skipn {A : Type} (n : nat) (l : list A) (x : A) : In x (skipn n l) -> In x l.
Proof.
  intros H. rewrite <- (firstn_skipn n l). apply in_or_app. now right.
Qed.

(** X1: the tasks never put an entry deeper than [max_depth] on the queue:
    a queue whose entries are within the limit stays so through a gather of
    any tasks under any schedule, and through the loop. *)
Theorem queue_depth_bounded (libs : Libraries) (world : World)
    (max_depth : Z) (domain_id : nat) (base_domain : string)
    (tasks : list task) (st : crawl) :
  Forall (fun e => (Z.of_nat (fst e) <= max_depth)%Z) (queue st) ->
  (forall schedule,
     Forall (fun e => (Z.of_nat (fst e) <= max_depth)%Z)
            (queue (gather libs world max_depth domain_id base_domain schedule tasks st))) /\
  (forall fuel schedules r,
     bfs_loop libs world max_depth domain_id base_domain fuel schedules tasks st = Some r ->
     Forall (fun e => (Z.of_nat (fst e) <= max_depth)%Z) (queue (snd r))).
Proof.
  intros H0.
  set (I := fun st' : crawl => Forall (fun e => (Z.of_nat (fst e) <= max_depth)%Z) (queue st')).
  assert (Hstart : forall depth u st', I st' -> I (snd (process_url_start max_depth depth u st'))).
  { intros depth u st' H. unfold process_url_start.
    destruct ((max_depth <? Z.of_nat depth)%Z || str_in u (visited_urls st')); exact H. }
  assert (Hresume : forall depth u st',
             I st' ->
             I (process_url_resume libs world max_depth domain_id base_domain depth u st')).
  { intros depth u st' H. unfold I in *.
    destruct (resume_effect libs world max_depth domain_id base_domain depth u st')
      as [_ [_ [_ [links [Hl ->]]]]].
    apply Forall_app. split; [exact H |].
    destruct Hl as [-> | [Hd _]]; [constructor |].
    apply Forall_forall. intros e He. apply in_map_iff in He.
    destruct He as [l [<- _]]. simpl. lia. }
  assert (Hpop : forall n st',
             I st' ->
             I (mkCrawl (skipn n (queue st')) (visited_urls st') (emails_found st')
                        (fetched st') (pages st') (requests st'))).
  { intros n st' H. unfold I in *. cbn [queue]. rewrite Forall_forall in *.
    intros e He. apply H. now apply in_skipn in He. }
  split.
  - intros schedule.
    exact (gather_keeps libs world max_depth domain_id base_domain I Hstart Hresume
                        schedule tasks st H0).
  - intros fuel schedules r E.
    exact (bfs_loop_keeps libs world max_depth domain_id base_domain I Hstart Hresume Hpop
                          fuel schedules tasks st H0 E).
Qed.

Lemma queue_depth_bounded_witness :
  (forall schedule,
     Forall (fun e => (Z.of_nat (fst e) <= 1)%Z)
            (queue (gather site_libs site_world 1 7 "a.test" schedule
                           [Created 0 "https://a.test"] (mkCrawl [] [] [] [] [] [])))) /\
  (forall fuel schedules r,
     bfs_loop site_libs site_world 1 7 "a.test" fuel schedules
              [Created 0 "https://a.test"] (mkCrawl [] [] [] [] [] []) = Some r ->
     Forall (fun e => (Z.of_nat (fst e) <= 1)%Z) (queue (snd r))).
Proof.
  apply (@queue_depth_bounded site_libs site_world 1 7 "a.test"
           [Created 0 "https://a.test"] (mkCrawl [] [] [] [] [] [])).
  constructor.
Defined.

(** X2: with [max_depth = 0] a crawl fetches the start URL and puts no link
    on the queue. *)
Theorem max_depth_zero_no_links (libs : Libraries) (world : World) (n : nat)
    (schedules : list (list nat)) (domain_id : nat) (url worker_id : string)
    (db : database) :
  db_error world ClaimDomain = None ->
  exists o,
    crawl_domain libs world 0 (S n) schedules domain_id url worker_id db = Some o /\
    queue (final_crawl o) = [] /\ fetched (final_crawl o) = [url] /\
    requests (final_crawl o) = [url].
Proof.
  intros Hc. unfold crawl_domain. rewrite Hc, bfs_loop_first_batch. cbv zeta.
  rewrite gather_single.
  assert (H : queue (finish_task libs world 0 domain_id (extract_domain libs url)
                                 (Created 0 url) (mkCrawl [] [] [] [] [] [])) = [] /\
              fetched (finish_task libs world 0 domain_id (extract_domain libs url)
                                   (Created 0 url) (mkCrawl [] [] [] [] [] [])) = [url] /\
              requests (finish_task libs world 0 domain_id (extract_domain libs url)
                                    (Created 0 url) (mkCrawl [] [] [] [] [] [])) = [url]).
  { simpl. unfold process_url_start. simpl.
    destruct (resume_effect libs world 0 domain_id (extract_domain libs url) 0 url
                            (mkCrawl [] (set_add url []) [] [url] [] []))
      as [_ [Hf [_ [links [Hl Hq]]]]].
    destruct (resume_requests libs world 0 domain_id (extract_domain libs url) 0 url
                              (mkCrawl [] (set_add url []) [] [url] [] []))
      as [Hr _].
    split; [| split; [exact Hf | exact Hr]]. rewrite Hq.
    destruct Hl as [-> | [Hd _]]; [reflexivity | lia]. }
  destruct (db_error world CompleteDomain); eexists; (split; [reflexivity | exact H]).
Qed.

Lemma max_depth_zero_no_links_witness :
  exists o,
    crawl_domain site_libs site_world 0 1 [] 7 "https://a.test" "worker-1" pending_db
    = Some o /\
    queue (final_crawl o) = [] /\ fetched (final_crawl o) = ["https://a.test"] /\
    requests (final_crawl o) = ["https://a.test"].
Proof.
  apply (@max_depth_zero_no_links site_libs site_world 0 [] 7 "https://a.test"
           "worker-1" pending_db).
  reflexivity.
Defined.

(** X3: what a task appends to the queue is, at depth + 1, first the links
    whose lowercased text contains a priority path and then the others. *)
Theorem priority_links_enqueued_first (libs : Libraries) (world : World)
    (max_depth : Z) (domain_id : nat) (base_domain : string)
    (depth : nat) (u : string) (st : crawl) :
  exists priority others,
    queue (process_url_resume libs world max_depth domain_id base_domain depth u st)
    = (queue st ++ map (fun link => (depth + 1, link)) (priority ++ others))%list /\
    Forall (fun link => is_priority link = true) priority /\
    Forall (fun link => is_priority link = false) others.
Proof.
  destruct (resume_effect libs world max_depth domain_id base_domain depth u st)
    as [_ [_ [_ [links [_ Hq]]]]].
  rewrite filter_app in Hq.
  eexists. eexists. split; [exact Hq |]. split.
  - apply Forall_forall. intros l Hl.
    apply filter_In in Hl. destruct Hl as [Hl _].
    apply filter_In in Hl. tauto.
  - apply Forall_forall. intros l Hl.
    apply filter_In in Hl. destruct Hl as [Hl _].
    apply filter_In in Hl. destruct Hl as [Hin Hnot].
    apply negb_true_iff in Hnot.
    destruct (is_priority l) eqn:Ep; [| reflexivity].
    assert (Hp : In l (filter is_priority links)) by (apply filter_In; tauto).
    apply str_in_In in Hp. congruence.
Qed.

Lemma extract_links_all_admitted (libs : Libraries) (html base_url base_domain l : string) :
  In l (extract_links libs html base_url base_domain) -> admitted libs base_domain l.
Proof.
  unfold extract_links. destruct (lib_BeautifulSoup libs html) as [soup |]; [| intros []].
  apply (@extract_links_loop_admitted libs base_url base_domain). intros x [].
Qed.

(** X4: only links that passed the filter of the extractor are put on the
    queue.  Provided a set yields only its own elements, every entry that
    the tasks of a gather add to the queue is a URL that [is_valid_url]
    accepts for the base host: by [extract_domain] its domain is the base
    host or ends with a dot and the base host; it has no query and no
    fragment; and it is in scope of the base host, as the specification
    defines it, whenever its host has no [www.] but, possibly, one in
    front. *)
Theorem enqueued_links_in_scope (libs : Libraries) (world : World)
    (max_depth : Z) (domain_id : nat) (base_domain : string)
    (schedule : list nat) (tasks : list task) (st : crawl) (e : nat * string) :
  (forall l x, In x (set_order world l) -> In x l) ->
  In e (queue (gather libs world max_depth domain_id base_domain schedule tasks st)) ->
  In e (queue st) \/
  (is_valid_url libs (snd e) base_domain = true /\
   (extract_domain libs (snd e) = base_domain \/
    endswith (extract_domain libs (snd e)) ("." ++ base_domain) = true) /\
   has "?" (snd e) = false /\ has "#" (snd e) = false /\
   (www_in_front_only_url libs (snd e) = true ->
    in_scope_spec libs (snd e) base_domain = true)).
Proof.
  intros Hset.
  cut (In e (queue (gather libs world max_depth domain_id base_domain schedule tasks st)) ->
       In e (queue st) \/ admitted libs base_domain (snd e)).
  { intros H He. destruct (H He) as [Hq | [Hv [Hq Hf]]]; [now left | right].
    split; [exact Hv |]. split; [now apply is_valid_url_domain |].
    split; [exact Hq |]. split; [exact Hf |]. now apply valid_in_scope. }
  set (I := fun st' : crawl =>
              forall x, In x (queue st') ->
                        In x (queue st) \/ admitted libs base_domain (snd x)).
  assert (Hstart : forall depth u st', I st' -> I (snd (process_url_start max_depth depth u st'))).
  { intros depth u st' H. unfold process_url_start.
    destruct ((max_depth <? Z.of_nat depth)%Z || str_in u (visited_urls st')); exact H. }
  assert (Hresume : forall depth u st',
             I st' ->
             I (process_url_resume libs world max_depth domain_id base_domain depth u st')).
  { intros depth u st' H x Hx.
    destruct (resume_effect libs world max_depth domain_id base_domain depth u st')
      as [_ [_ [_ [links [Hl Hq]]]]].
    rewrite Hq in Hx. apply in_app_iff in Hx. destruct Hx as [Hx | Hx]; [now apply H |].
    right. apply in_map_iff in Hx. destruct Hx as [l [<- Hin]]. cbn [snd].
    apply filter_In in Hin. destruct Hin as [Hin _].
    destruct Hl as [-> | [_ [html ->]]]; [destruct Hin |].
    apply in_app_iff in Hin.
    destruct Hin as [Hin | Hin]; apply filter_In in Hin; destruct Hin as [Hin _];
      apply Hset in Hin; exact (extract_links_all_admitted _ _ _ _ _ Hin). }
  intros He.
  exact (gather_keeps libs world max_depth domain_id base_domain I Hstart Hresume
                      schedule tasks st (fun x Hx => or_introl Hx) e He).
Qed.

Lemma enqueued_links_in_scope_witness :
  In (1, "https://a.test/contact") (@nil (nat * string)) \/
  (is_valid_url site_libs (snd (1, "https://a.test/contact")) "a.test" = true /\
   (extract_domain site_libs (snd (1, "https://a.test/contact")) = "a.test" \/
    endswith (extract_domain site_libs (snd (1, "https://a.test/contact")))
             ("." ++ "a.test") = true) /\
   has "?" (snd (1, "https://a.test/contact")) = false /\
   has "#" (snd (1, "https://a.test/contact")) = false /\
   (www_in_front_only_url site_libs (snd (1, "https://a.test/contact")) = true ->
    in_scope_spec site_libs (snd (1, "https://a.test/contact")) "a.test" = true)).
Proof.
  apply (@enqueued_links_in_scope site_libs site_world 1 7 "a.test" []
           [Created 0 "https://a.test"] (mkCrawl [] [] [] [] [] [])
           (1, "https://a.test/contact")).
  - intros l x H. exact H.
  - vm_compute. left. reflexivity.
Defined.

(** ** Page rows and visited URLs *)

Section PageAccounting.

Variable libs : Libraries.
Variable world : World.
Variable max_depth : Z.
Variable domain_id : nat.
Variable base_domain : string.

Hypothesis pages_stored : forall u, db_error world (InsertPage u) = None.

(** The books of a crawl: a page row for every fetch that has come back,
    and the visited URLs are the fetched ones. *)
Let balanced (tasks : list task) (st : crawl) : Prop :=
  List.length (pages st) + in_flight tasks = List.length (fetched st) /\
  visited_urls st = fetched st.

Lemma start_balanced (depth : nat) (u : string) (rest : list task) (st : crawl) :
  balanced (Created depth u :: rest) st ->
  balanced (fst (process_url_start max_depth depth u st) :: rest)
           (snd (process_url_start max_depth depth u st)).
Proof.
  unfold balanced, process_url_start, in_flight. cbn [filter]. intros [Hn Hv].
  destruct ((max_depth <? Z.of_nat depth)%Z || str_in u (visited_urls st)) eqn:E;
    cbn [fst snd filter pages fetched visited_urls].
  - split; assumption.
  - apply orb_false_iff in E. destruct E as [_ E].
    unfold set_add. rewrite E, Hv, length_app. simpl. split; [lia | reflexivity].
Qed.

Lemma resume_balanced (depth : nat) (u : string) (rest : list task) (st : crawl) :
  balanced (Fetching depth u :: rest) st ->
  balanced (Finished :: rest)
           (process_url_resume libs world max_depth domain_id base_domain depth u st).
Proof.
  unfold balanced, in_flight. cbn [filter]. intros [Hn Hv].
  destruct (resume_effect libs world max_depth domain_id base_domain depth u st)
    as [Hvis [Hf [Hp _]]].
  rewrite (pages_stored u) in Hp. rewrite Hvis, Hf, Hp. simpl in Hn. split; [lia | exact Hv].
Qed.

Lemma balanced_swap (t : task) (done : list task) (rest : list task) (st : crawl) :
  balanced (done ++ t :: rest) st <-> balanced (t :: done ++ rest) st.
Proof.
  unfold balanced, in_flight.
  destruct t; cbn [filter]; rewrite !filter_app; cbn [filter];
    rewrite !length_app; cbn [List.length]; rewrite ?length_app;
    split; intros [H1 H2]; (split; [lia | exact H2]).
Qed.

Lemma step_at_balanced (i : nat) (done tasks : list task) (st : crawl) :
  balanced (done ++ tasks) st ->
  balanced (done ++ fst (step_at libs world max_depth domain_id base_domain i tasks st))
           (snd (step_at libs world max_depth domain_id base_domain i tasks st)).
Proof.
  revert i done. induction tasks as [| t rest IH]; intros i done H.
  - destruct i; exact H.
  - destruct i as [| j]; cbn [step_at].
    + apply balanced_swap in H.
      destruct t as [d u | d u |]; cbn [step_task].
      * pose proof (@start_balanced d u (done ++ rest) st H) as Hs.
        destruct (process_url_start max_depth d u st) as [t' st']. cbn [fst snd] in *.
        now apply balanced_swap.
      * cbn [fst snd]. apply balanced_swap. now apply resume_balanced.
      * cbn [fst snd]. now apply balanced_swap.
    + specialize (IH j (done ++ [t])%list). rewrite <- !app_assoc in IH.
      specialize (IH H).
      destruct (step_at libs world max_depth domain_id base_domain j rest st)
        as [rest' st']. cbn [fst snd] in *. exact IH.
Qed.

Lemma run_schedule_balanced (schedule : list nat) (tasks : list task) (st : crawl) :
  balanced tasks st ->
  balanced (fst (run_schedule libs world max_depth domain_id base_domain schedule tasks st))
           (snd (run_schedule libs world max_depth domain_id base_domain schedule tasks st)).
Proof.
  revert tasks st. induction schedule as [| i schedule IH]; intros tasks st H; simpl.
  - exact H.
  - pose proof (@step_at_balanced i [] tasks st H) as Hs. cbn [app] in Hs.
    destruct (step_at libs world max_depth domain_id base_domain i tasks st) as [tasks' st'].
    now apply IH.
Qed.

Lemma finish_task_balanced (t : task) (rest : list task) (st : crawl) :
  balanced (t :: rest) st ->
  balanced rest (finish_task libs world max_depth domain_id base_domain t st).
Proof.
  intros H.
  assert (Hdone : forall st', balanced (Finished :: rest) st' -> balanced rest st').
  { intros st' Hb. exact Hb. }
  destruct t as [d u | d u |]; cbn [finish_task].
  - pose proof (@start_balanced d u rest st H) as Hs.
    destruct (process_url_start max_depth d u st) as [[d' u' | d' u' |] st'];
      cbn [fst snd] in Hs.
    + unfold balanced, in_flight in *. cbn [filter] in Hs. exact Hs.
    + apply Hdone. now apply resume_balanced.
    + now apply Hdone.
  - apply Hdone. now apply resume_balanced.
  - now apply Hdone.
Qed.

Lemma gather_balanced (schedule : list nat) (tasks : list task) (st : crawl) :
  balanced tasks st ->
  balanced [] (gather libs world max_depth domain_id base_domain schedule tasks st).
Proof.
  intros H. unfold gather.
  pose proof (@run_schedule_balanced schedule tasks st H) as Hr.
  destruct (run_schedule libs world max_depth domain_id base_domain schedule tasks st)
    as [tasks' st']. cbn [fst snd] in Hr. clear H.
  revert st' Hr. induction tasks' as [| t rest IH]; intros st' Hr; simpl; [exact Hr |].
  apply IH. now apply finish_task_balanced.
Qed.

End PageAccounting.

(** X5: when no page insert fails, a gather that starts with a page row
    for every URL fetched so far (but for the tasks still in flight) and
    with [visited_urls] equal to the fetch log ends with as many page rows
    as visited URLs: [len(visited_urls)], which becomes [pages_crawled],
    counts the page rows, failed fetches included. *)
Theorem pages_match_visited (libs : Libraries) (world : World)
    (max_depth : Z) (domain_id : nat) (base_domain : string)
    (schedule : list nat) (tasks : list task) (st : crawl) :
  (forall u, db_error world (InsertPage u) = None) ->
  List.length (pages st) + in_flight tasks = List.length (fetched st) ->
  visited_urls st = fetched st ->
  let st' := gather libs world max_depth domain_id base_domain schedule tasks st in
  List.length (pages st') = List.length (visited_urls st') /\
  visited_urls st' = fetched st'.
Proof.
  intros Hdb Hn Hv. cbv zeta.
  destruct (@gather_balanced libs world max_depth domain_id base_domain Hdb schedule tasks st
                             (conj Hn Hv)) as [H1 H2].
  unfold in_flight in H1. simpl in H1. rewrite H2. split; [lia | reflexivity].
Qed.

Lemma pages_match_visited_witness :
  let st' := gather site_libs site_world 1 7 "a.test" [1; 0; 0]
                    [Created 0 "https://a.test"; Created 1 "https://a.test/none";
                     Created 1 "https://a.test"]
                    (mkCrawl [] [] [] [] [] []) in
  List.length (pages st') = List.length (visited_urls st') /\
  visited_urls st' = fetched st'.
Proof.
  apply (@pages_match_visited site_libs site_world 1 7 "a.test" [1; 0; 0]
           [Created 0 "https://a.test"; Created 1 "https://a.test/none";
            Created 1 "https://a.test"]
           (mkCrawl [] [] [] [] [] [])); reflexivity.
Defined.

(** ** Scope and host of a URL *)

(** X6: every link that [extract_links] returns has, by [extract_domain],
    the base host or a host that ends with a dot and the base host. *)
Theorem extracted_links_in_domain (libs : Libraries) (html base_url base_domain : string)
    (link : string) :
  In link (extract_links libs html base_url base_domain) ->
  extract_domain libs link = base_domain \/
  endswith (extract_domain libs link) ("." ++ base_domain) = true.
Proof.
  intros H. apply extract_links_all_admitted in H. destruct H as [H _].
  now apply is_valid_url_domain.
Qed.

Lemma extracted_links_in_domain_witness :
  extract_domain team_libs "https://WWW.A.test/Team/" = "a.test" \/
  endswith (extract_domain team_libs "https://WWW.A.test/Team/") ("." ++ "a.test") = true.
Proof.
  apply (@extracted_links_in_domain team_libs "<html>" "https://a.test" "a.test"
           "https://WWW.A.test/Team/").
  vm_compute. left. reflexivity.
Defined.

(** The parse of the start URL that search creation builds for a host. *)
Lemma parse_start_url (libs : Libraries) (d : string) :
  forallb_str neat d = true ->
  forallb_str no_delimiter d = true ->
  netloc_accepted (lib_bracketed_netloc_ok libs) (lib_nfkc_netloc_ok libs) d = true ->
  parse libs ("https://" ++ d)
  = Some (mkParse "https" d EmptyString EmptyString EmptyString EmptyString).
Proof.
  intros Hn Hd Ha. unfold parse. rewrite urlparse_stages, urlsplit_stages. cbv zeta.
  rewrite https_stage. cbn [fst snd]. rewrite netloc_stage.
  rewrite (remove_chars_id unsafe_byte d Hn).
  rewrite (break_at_none delimiter d Hd). cbn [fst snd]. rewrite Ha. reflexivity.
Qed.

(** X7: the start URL [https://] + domain of a submitted host (not empty,
    without [/?#], TAB, CR, LF, and accepted by the library as a host) has
    as its domain the lowercased host with [www.] removed, and is in the
    scope of that domain. *)
Theorem start_url_in_scope (libs : Libraries) (d : string) :
  d <> EmptyString ->
  forallb_str neat d = true ->
  forallb_str no_delimiter d = true ->
  netloc_accepted (lib_bracketed_netloc_ok libs) (lib_nfkc_netloc_ok libs) d = true ->
  extract_domain libs ("https://" ++ d) = replace "www." EmptyString (lower d) /\
  is_valid_url libs ("https://" ++ d) (extract_domain libs ("https://" ++ d)) = true.
Proof.
  intros Hne Hn Hd Ha. unfold is_valid_url, extract_domain.
  rewrite (parse_start_url libs d Hn Hd Ha).
  cbn [Urllib.scheme Urllib.netloc Urllib.path]. split; [reflexivity |].
  destruct d as [| c d]; [congruence |]. cbn [truthy negb orb].
  rewrite String.eqb_refl. reflexivity.
Qed.

Lemma start_url_in_scope_witness :
  extract_domain text_libs ("https://" ++ "WWW.Shop.a.test")
  = replace "www." EmptyString (lower "WWW.Shop.a.test") /\
  is_valid_url text_libs ("https://" ++ "WWW.Shop.a.test")
               (extract_domain text_libs ("https://" ++ "WWW.Shop.a.test")) = true.
Proof.
  apply (@start_url_in_scope text_libs "WWW.Shop.a.test"); [discriminate | | |]; reflexivity.
Defined.

Lemma parse_netloc_no_delimiter (libs : Libraries) (url : string) (p : ParseResult) :
  parse libs url = Some p -> forallb_str no_delimiter (netloc p) = true.
Proof.
  unfold parse. rewrite urlparse_stages, urlsplit_stages. cbv zeta.
  destruct (netloc_accepted _ _ _); [| discriminate].
  intros [= <-]. cbn [Urllib.netloc].
  destruct (startswith _ "//"); [| reflexivity].
  unfold splitnetloc. apply (break_at_fst_free (fun c => mem_char c "/?#")).
Qed.

Lemma no_delimiter_has (s : string) :
  forallb_str no_delimiter s = true ->
  has "/" s = false /\ has "?" s = false /\ has "#" s = false.
Proof.
  intros H. repeat split; apply has_forallb; (eapply forallb_str_impl; [| exact H]);
    intros c; unfold no_delimiter; cbn [mem_char];
    rewrite (Ascii.eqb_sym c "/"), (Ascii.eqb_sym c "?"), (Ascii.eqb_sym c "#");
    destruct (Ascii.eqb "/" c), (Ascii.eqb "?" c), (Ascii.eqb "#" c); simpl; congruence.
Qed.

(** X8: the domain that [extract_domain] returns, for any URL, is in lower
    case and contains none of [/], [?] and [#]. *)
Theorem extract_domain_form (libs : Libraries) (url : string) :
  lower (extract_domain libs url) = extract_domain libs url /\
  has "/" (extract_domain libs url) = false /\
  has "?" (extract_domain libs url) = false /\
  has "#" (extract_domain libs url) = false.
Proof.
  unfold extract_domain. destruct (parse libs url) as [p |] eqn:Ep.
  - split.
    + apply lower_fixed. apply replace_from_forallb. apply lower_no_upper.
    + apply no_delimiter_has. apply replace_from_forallb.
      apply (@lower_forallb2 no_delimiter no_delimiter _ no_delimiter_lower).
      exact (parse_netloc_no_delimiter libs url Ep).
  - repeat split.
Qed.

(** ** Stripping *)

Lemma lower_app (a b : string) : lower (a ++ b) = lower a ++ lower b.
Proof. induction a as [| c a IH]; simpl; congruence. Qed.

Lemma space_lower (c : ascii) : implb (is_space c) (Ascii.eqb (lower_char c) c) = true.
Proof. all_chars c. Qed.

Lemma lower_spaces (w : string) : forallb_str is_space w = true -> lower w = w.
Proof.
  induction w as [| c w IH]; simpl; [reflexivity |]. intros H.
  apply andb_true_iff in H. destruct H as [Hc Hw].
  pose proof (@implb_true _ (Ascii.eqb (lower_char c) c) (space_lower c) Hc) as E.
  apply Ascii.eqb_eq in E. now rewrite E, IH.
Qed.

Lemma lower_char_twice (c : ascii) : lower_char (lower_char c) = lower_char c.
Proof. all_chars c. Qed.

Lemma lower_twice (s : string) : lower (lower s) = lower s.
Proof.
  induction s as [| c s IH]; simpl; [reflexivity |].
  now rewrite lower_char_twice, IH.
Qed.

Section Strip.

Variable p : ascii -> bool.

Lemma lstrip_all (w s : string) :
  forallb_str p w = true -> lstrip p (w ++ s) = lstrip p s.
Proof.
  induction w as [| c w IH]; simpl; [reflexivity |]. intros H.
  apply andb_true_iff in H. destruct H as [-> Hw]. auto.
Qed.

Lemma rstrip_all (w : string) : forallb_str p w = true -> rstrip p w = EmptyString.
Proof.
  induction w as [| c w IH]; [reflexivity |]. simpl forallb_str. intros H.
  apply andb_true_iff in H. destruct H as [Hc Hw].
  rewrite rstrip_cons, (IH Hw), Hc. reflexivity.
Qed.

Lemma rstrip_app_all (s w : string) :
  forallb_str p w = true -> rstrip p (s ++ w) = rstrip p s.
Proof.
  intros Hw. induction s as [| c s IH].
  - simpl. now apply rstrip_all.
  - cbn [append]. now rewrite !rstrip_cons, IH.
Qed.

Lemma rstrip_empty_all (s : string) :
  rstrip p s = EmptyString -> forallb_str p s = true.
Proof.
  induction s as [| c s IH]; [reflexivity |]. rewrite rstrip_cons.
  destruct (rstrip p s) as [| d r]; [| discriminate].
  destruct (p c) eqn:E; [| discriminate]. intros _. simpl. now rewrite E, IH.
Qed.

Lemma rstrip_prepend (w s : string) :
  rstrip p s <> EmptyString -> rstrip p (w ++ s) = w ++ rstrip p s.
Proof.
  intros Hs. induction w as [| c w IH]; [reflexivity |].
  cbn [append]. rewrite rstrip_cons, IH.
  destruct (w ++ rstrip p s) as [| d r] eqn:E; [| reflexivity].
  destruct w; [simpl in E; congruence | discriminate].
Qed.

(** Stripping does not see what is stripped: characters of the class in
    front and behind change nothing. *)
Lemma strip_padding (w1 s w2 : string) :
  forallb_str p w1 = true -> forallb_str p w2 = true ->
  strip p (w1 ++ s ++ w2) = strip p s.
Proof.
  intros H1 H2. unfold strip.
  rewrite <- append_assoc, (rstrip_app_all _ w2 H2).
  destruct (rstrip p s) as [| d r] eqn:E.
  - rewrite rstrip_all; [reflexivity |].
    rewrite forallb_str_app, H1. now apply rstrip_empty_all.
  - rewrite rstrip_prepend by congruence. rewrite E. now apply lstrip_all.
Qed.

Lemma lstrip_last (s : string) :
  (forall c, last_char s = Some c -> p c = false) ->
  forall c, last_char (lstrip p s) = Some c -> p c = false.
Proof.
  induction s as [| d s IH]; [discriminate |]. intros H. cbn [lstrip].
  destruct (p d); [| exact H].
  apply IH. intros c Hc. apply H. destruct s; [discriminate | exact Hc].
Qed.

Lemma rstrip_fixed (s : string) :
  (forall c, last_char s = Some c -> p c = false) -> rstrip p s = s.
Proof.
  induction s as [| d s IH]; [reflexivity |]. intros H. rewrite rstrip_cons.
  destruct s as [| e s].
  - simpl. rewrite (H d eq_refl). reflexivity.
  - rewrite IH; [reflexivity |]. intros c Hc. apply H. exact Hc.
Qed.

Lemma lstrip_twice (s : string) : lstrip p (lstrip p s) = lstrip p s.
Proof.
  induction s as [| d s IH]; [reflexivity |]. cbn [lstrip].
  destruct (p d) eqn:E; [exact IH |]. cbn [lstrip]. now rewrite E.
Qed.

Lemma strip_twice (s : string) : strip p (strip p s) = strip p s.
Proof.
  unfold strip. rewrite (rstrip_fixed (lstrip p (rstrip p s))).
  - apply lstrip_twice.
  - apply lstrip_last. intros c. apply rstrip_last.
Qed.

End Strip.

(** ** Emails *)

(** X9: [normalize_email] does not see the case of an address nor white
    space around it: two raw addresses with the same lowercased text, one of
    them padded with white space, are given to the validator as the same
    string and so have the same normalized form. *)
Theorem normalize_email_ignores_case_and_padding (libs : Libraries)
    (e1 e2 w1 w2 : string) :
  forallb_str is_space w1 = true ->
  forallb_str is_space w2 = true ->
  lower e1 = lower e2 ->
  normalize_email libs (w1 ++ e1 ++ w2) = normalize_email libs e2.
Proof.
  intros H1 H2 He. unfold normalize_email.
  rewrite !lower_app, (lower_spaces _ H1), (lower_spaces _ H2), He.
  now rewrite (strip_padding is_space _ (lower e2) _ H1 H2).
Qed.

Lemma normalize_email_ignores_case_and_padding_witness :
  normalize_email text_libs ("  " ++ "Alice@Example.COM" ++ " ")
  = normalize_email text_libs "alice@example.com".
Proof.
  apply (@normalize_email_ignores_case_and_padding text_libs
           "Alice@Example.COM" "alice@example.com" "  " " "); reflexivity.
Defined.

Lemma split_head (sep : ascii) (s : string) :
  hd EmptyString (split sep s) = fst (break_at (fun c => Ascii.eqb c sep) s).
Proof.
  induction s as [| c s IH]; [reflexivity |]. cbn [split break_at].
  destruct (Ascii.eqb c sep); [reflexivity |].
  destruct (break_at (fun c0 => Ascii.eqb c0 sep) s) as [a b]. cbn [fst] in *.
  destruct (split sep s) as [| seg segs]; simpl in *; congruence.
Qed.

Lemma mailto_loop_keeps (tags : list (string * string)) (emails : list string) (x : string) :
  In x emails -> In x (mailto_loop tags emails).
Proof.
  revert emails. induction tags as [| [name href] rest IH]; intros emails H; [exact H |].
  cbn [mailto_loop]. destruct (startswith href "mailto:"); [| auto].
  destruct (truthy _); [| auto]. apply IH. apply set_add_In. now right.
Qed.

Lemma mailto_loop_finds (tags : list (string * string)) (emails : list string)
    (name href : string) :
  In (name, href) tags ->
  startswith href "mailto:" = true ->
  truthy (strip is_space (hd EmptyString (split "?" (drop 7 href)))) = true ->
  In (strip is_space (hd EmptyString (split "?" (drop 7 href))))
     (mailto_loop tags emails).
Proof.
  revert emails. induction tags as [| [n h] rest IH]; intros emails Hin Hs Ht; [destruct Hin |].
  cbn [mailto_loop]. destruct Hin as [[= -> ->] | Hin].
  - rewrite Hs, Ht. apply mailto_loop_keeps. apply set_add_In. now left.
  - destruct (startswith h "mailto:"); [| now apply IH].
    destruct (truthy (strip is_space (hd EmptyString (split "?" (drop 7 h)))));
      now apply IH.
Qed.

(** X10: the address of every [mailto:] anchor is extracted: for an [a]
    element whose [href] is [mailto:] + address, alone or followed by [?]
    and a query, the address has no [?] and is not blank, the set that
    [extract_emails_from_html] returns contains the address stripped of
    white space. *)
Theorem mailto_addresses_extracted (libs : Libraries) (html : string) (soup : document)
    (address query : string) :
  lib_BeautifulSoup libs html = Some soup ->
  has "?" address = false ->
  truthy (strip is_space address) = true ->
  In ("a", "mailto:" ++ address) (href_tags soup) \/
  In ("a", "mailto:" ++ address ++ "?" ++ query) (href_tags soup) ->
  In (strip is_space address) (extract_emails_from_html libs html).
Proof.
  intros Hsoup Hq Ht Hin. unfold extract_emails_from_html. rewrite Hsoup.
  apply (proj2 (set_update_In _ _ _)). left.
  assert (Hfree : forallb_str (fun c => negb (Ascii.eqb c "?")) address = true).
  { apply has_forallb in Hq. eapply forallb_str_impl; [| exact Hq].
    intros c. now rewrite (Ascii.eqb_sym c "?"). }
  assert (Hhead : forall rest, starts_in (fun c => Ascii.eqb c "?") rest ->
                    hd EmptyString (split "?" (drop 7 ("mailto:" ++ address ++ rest)))
                    = address).
  { intros rest Hr. change (drop 7 ("mailto:" ++ address ++ rest)) with (address ++ rest).
    rewrite split_head.
    now rewrite (break_at_unique (fun c => Ascii.eqb c "?") address rest Hfree Hr). }
  destruct Hin as [Hin | Hin].
  - pose proof (Hhead EmptyString I) as E. rewrite append_empty_r in E.
    rewrite <- E at 1. apply (@mailto_loop_finds _ [] "a").
    + apply filter_In. split; [exact Hin | reflexivity].
    + apply startswith_append.
    + now rewrite E.
  - pose proof (Hhead ("?" ++ query) eq_refl) as E.
    rewrite <- E at 1. apply (@mailto_loop_finds _ [] "a").
    + apply filter_In. split; [exact Hin | reflexivity].
    + apply startswith_append.
    + now rewrite E.
Qed.

Lemma mailto_addresses_extracted_witness :
  In (strip is_space " Alice@Example.COM") (extract_emails_from_html mailto_libs "<html>").
Proof.
  apply (@mailto_addresses_extracted mailto_libs "<html>"
           (mkDocument [("a", "mailto: Alice@Example.COM?subject=x")] EmptyString)
           " Alice@Example.COM" "subject=x"); try reflexivity.
  right. left. reflexivity.
Defined.

Lemma dict_has_keys {A : Type} (k : string) (d : list (string * A)) :
  dict_has k d = false -> ~ In k (map fst d).
Proof.
  unfold dict_has. intros H Hin. apply in_map_iff in Hin.
  destruct Hin as [e [<- He]].
  assert (Ht : existsb (fun e0 : string * A => String.eqb (fst e0) (fst e)) d = true).
  { apply existsb_exists. exists e. split; [exact He | apply String.eqb_refl]. }
  congruence.
Qed.

(** X11: the first page to yield an address keeps it.  [record_emails] only
    appends to [emails_found]: the entries recorded before stay as they
    are, the keys stay distinct, and each new entry maps the normalized form
    of one of the page's raw emails to that raw email, the page's URL and
    the page's id. *)
Theorem record_emails_first_wins (libs : Libraries) (raw_emails : list string)
    (url : string) (page_id : nat) (found : list (string * (string * string * nat))) :
  NoDup (map fst found) ->
  exists added,
    record_emails libs raw_emails url page_id found = (found ++ added)%list /\
    NoDup (map fst (found ++ added)) /\
    Forall (fun e => exists raw,
                In raw raw_emails /\
                normalize_email libs raw = Some (fst e) /\
                snd e = (raw, url, page_id))
           added.
Proof.
  revert found. induction raw_emails as [| raw rest IH]; intros found Hnd.
  - exists []. rewrite app_nil_r. repeat split; [exact Hnd | constructor].
  - cbn [record_emails].
    assert (Hskip : exists added,
               record_emails libs rest url page_id found = (found ++ added)%list /\
               NoDup (map fst (found ++ added)) /\
               Forall (fun e => exists raw0,
                           In raw0 (raw :: rest) /\
                           normalize_email libs raw0 = Some (fst e) /\
                           snd e = (raw0, url, page_id))
                      added).
    { destruct (IH found Hnd) as [added [E [Hn Hf]]]. exists added.
      repeat split; [exact E | exact Hn |].
      eapply Forall_impl; [| exact Hf]. intros e [r [Hr Hrest]]. exists r.
      split; [now right | exact Hrest]. }
    destruct (normalize_email libs raw) as [normalized |] eqn:En; [| exact Hskip].
    destruct (truthy normalized && negb (dict_has normalized found)) eqn:Ec;
      [| exact Hskip].
    apply andb_true_iff in Ec. destruct Ec as [_ Ec]. apply negb_true_iff in Ec.
    assert (Hnd' : NoDup (map fst (found ++ [(normalized, (raw, url, page_id))]))).
    { rewrite map_app. apply NoDup_app; [exact Hnd | repeat constructor; intros [] |].
      intros x Hx [<- | []]. exact (dict_has_keys _ _ Ec Hx). }
    destruct (IH _ Hnd') as [added [E [Hn Hf]]].
    exists ((normalized, (raw, url, page_id)) :: added).
    rewrite <- app_assoc in E, Hn. cbn [app] in E, Hn.
    repeat split; [exact E | exact Hn |].
    constructor.
    + exists raw. repeat split; [now left | exact En].
    + eapply Forall_impl; [| exact Hf]. intros e [r [Hr Hrest]]. exists r.
      split; [now right | exact Hrest].
Qed.

Lemma record_emails_first_wins_witness :
  exists added,
    record_emails text_libs ["Bob@sample.org"; "bob@sample.org "] "https://a.test/team" 9
                  [("bob@sample.org", ("bob@sample.org", "https://a.test", 4))]
    = ([("bob@sample.org", ("bob@sample.org", "https://a.test", 4))] ++ added)%list /\
    NoDup (map fst ([("bob@sample.org", ("bob@sample.org", "https://a.test", 4))] ++ added)) /\
    Forall (fun e => exists raw,
                In raw ["Bob@sample.org"; "bob@sample.org "] /\
                normalize_email text_libs raw = Some (fst e) /\
                snd e = (raw, "https://a.test/team", 9))
           added.
Proof.
  apply (@record_emails_first_wins text_libs ["Bob@sample.org"; "bob@sample.org "]
           "https://a.test/team" 9
           [("bob@sample.org", ("bob@sample.org", "https://a.test", 4))]).
  simpl. repeat constructor. intros [].
Defined.

(** ** Validation of the submitted domains *)

(** X12: every domain that passes validation is stored trimmed and not
    empty, and validation never adds an entry. *)
Theorem validated_domains_trimmed (v ds : list string) :
  validate_domains v = inr ds ->
  Forall (fun d => truthy d = true /\ strip is_space d = d) ds /\
  List.length ds <= List.length v.
Proof.
  unfold validate_domains. destruct v as [| d0 rest] eqn:Ev; [discriminate |].
  rewrite <- Ev. clear Ev.
  destruct (10000 <? Z.of_nat (List.length v))%Z; [discriminate |].
  intros H. injection H as <-. split.
  - apply Forall_forall. intros d Hd. apply in_map_iff in Hd.
    destruct Hd as [x [<- Hx]]. apply filter_In in Hx. destruct Hx as [_ Hx].
    split; [exact Hx | apply strip_twice].
  - rewrite length_map. apply filter_length_le.
Qed.

Lemma validated_domains_trimmed_witness :
  Forall (fun d => truthy d = true /\ strip is_space d = d) ["a.test"; "b.test"] /\
  List.length ["a.test"; "b.test"] <= List.length [" a.test "; "   "; "b.test"].
Proof.
  apply (@validated_domains_trimmed [" a.test "; "   "; "b.test"] ["a.test"; "b.test"]).
  reflexivity.
Defined.

(** ** The batches of the search runner *)

Lemma firstn_plus {A : Type} (a b : nat) (l : list A) :
  firstn (a + b) l = (firstn a l ++ firstn b (skipn a l))%list.
Proof.
  revert l. induction a as [| a IH]; intros l; [reflexivity |].
  destruct l as [| x l]; simpl.
  - now rewrite firstn_nil.
  - now rewrite IH.
Qed.

Lemma concat_slices {A : Type} (s m : nat) (l : list A) :
  concat (map (fun i => firstn s (skipn i l)) (map (fun k => k * s) (seq 0 m)))
  = firstn (m * s) l.
Proof.
  induction m as [| m IH]; [reflexivity |].
  rewrite seq_S, !map_app, concat_app, IH. cbn [map concat Nat.add].
  rewrite app_nil_r. replace (S m * s) with (m * s + s) by lia.
  now rewrite firstn_plus.
Qed.

Lemma ceil_div_bounds (n s : nat) :
  0 < s -> n <= (n + s - 1) / s * s /\ (0 < n -> ((n + s - 1) / s - 1) * s < n).
Proof.
  intros Hs.
  pose proof (Nat.div_mod_eq (n + s - 1) s) as E.
  assert (Hm : (n + s - 1) mod s < s) by (apply Nat.mod_upper_bound; lia).
  set (q := (n + s - 1) / s) in *. set (r := (n + s - 1) mod s) in *.
  rewrite (Nat.mul_comm s q) in E. split; [lia |]. intros Hn.
  destruct q as [| q']; [simpl; exact Hn |].
  replace (S q' - 1) with q' by lia. simpl in E. lia.
Qed.

Lemma batches_cover {A : Type} (batch_size : Z) (tasks : list A) :
  (0 < batch_size)%Z ->
  exists bs, batches batch_size tasks = Some bs /\ concat bs = tasks.
Proof.
  intros Hpos. unfold batches, range_from_zero.
  replace (batch_size =? 0)%Z with false by (symmetry; apply Z.eqb_neq; lia).
  replace (batch_size <? 0)%Z with false by (symmetry; apply Z.ltb_ge; lia).
  cbv zeta. eexists. split; [reflexivity |].
  rewrite concat_slices. apply firstn_all2.
  apply ceil_div_bounds. lia.
Qed.

(** X13: with a positive batch size the batches of [process_search] are the
    list of crawls cut into consecutive pieces: put together they give the
    list back, in order, so that every domain is in exactly one batch, and
    no batch is empty or longer than the batch size. *)
Theorem batches_partition {A : Type} (batch_size : Z) (tasks : list A) :
  (0 < batch_size)%Z ->
  exists bs,
    batches batch_size tasks = Some bs /\
    concat bs = tasks /\
    Forall (fun b => 0 < List.length b <= Z.to_nat batch_size) bs.
Proof.
  intros Hpos. unfold batches, range_from_zero.
  replace (batch_size =? 0)%Z with false by (symmetry; apply Z.eqb_neq; lia).
  replace (batch_size <? 0)%Z with false by (symmetry; apply Z.ltb_ge; lia).
  cbv zeta. set (s := Z.to_nat batch_size). set (n := List.length tasks).
  assert (Hs : 0 < s) by (unfold s; lia).
  destruct (ceil_div_bounds n Hs) as [Hup Hlow].
  eexists. split; [reflexivity |]. split.
  - rewrite concat_slices. apply firstn_all2. exact Hup.
  - apply Forall_forall. intros b Hb. apply in_map_iff in Hb.
    destruct Hb as [i [<- Hi]]. apply in_map_iff in Hi. destruct Hi as [k [<- Hk]].
    apply in_seq in Hk. rewrite length_firstn, length_skipn. fold n.
    assert (Hn : 0 < n).
    { destruct n as [| n']; [| lia]. exfalso.
      rewrite Nat.div_small in Hk by lia. lia. }
    specialize (Hlow Hn).
    assert (Hks : k * s <= ((n + s - 1) / s - 1) * s)
      by (apply Nat.mul_le_mono_r; lia).
    lia.
Qed.

Lemma batches_partition_witness :
  exists bs,
    batches 2%Z [1; 2; 3; 4; 5] = Some bs /\
    concat bs = [1; 2; 3; 4; 5] /\
    Forall (fun b => 0 < List.length b <= Z.to_nat 2) bs.
Proof.
  apply (@batches_partition nat 2%Z [1; 2; 3; 4; 5]). reflexivity.
Defined.

Example batches_ex : batches 2%Z [1; 2; 3; 4; 5] = Some [[1; 2]; [3; 4]; [5]].
Proof. reflexivity. Qed.

(** ** The search runner *)

(** With a negative [max_depth] the start URL itself is over the limit:
    nothing is fetched and the domain is completed with no page. *)
Example crawl_over_the_limit :
  crawl_domain site_libs site_world (-1) 1 [] 7 "https://a.test" "worker-1" pending_db
  = Some (mkOutcome (mkDatabase (mkDomain Completed 0 0 None None None) [] [])
                    (mkCrawl [] [] [] [] [] [])).
Proof. reflexivity. Qed.

Lemma crawl_domain_completes (libs : Libraries) (world : World) (max_depth : Z) (n : nat)
    (schedules : list (list nat)) (domain_id : nat) (url worker_id : string)
    (db : database) :
  db_error world ClaimDomain = None ->
  db_error world CompleteDomain = None ->
  exists o,
    crawl_domain libs world max_depth (S n) schedules domain_id url worker_id db = Some o /\
    d_status (db_domain (final_db o)) = Completed /\
    d_pages_crawled (db_domain (final_db o)) = (if (max_depth <? 0)%Z then 0 else 1) /\
    d_worker_id (db_domain (final_db o)) = None /\
    d_locked_at (db_domain (final_db o)) = None.
Proof.
  intros Hc Hd. unfold crawl_domain. rewrite Hc, bfs_loop_first_batch. cbv zeta.
  rewrite gather_single, Hd.
  destruct (finish_start_task libs world max_depth domain_id (extract_domain libs url) url)
    as [Hv _].
  eexists. split; [reflexivity |]. cbn [final_db db_domain d_status d_pages_crawled
                                          d_worker_id d_locked_at].
  rewrite Hv. destruct (max_depth <? 0)%Z; repeat split.
Qed.

Lemma crawl_domain_returns (libs : Libraries) (world : World) (max_depth : Z) (n : nat)
    (schedules : list (list nat)) (domain_id : nat) (url worker_id : string)
    (db : database) :
  exists o,
    crawl_domain libs world max_depth (S n) schedules domain_id url worker_id db = Some o.
Proof.
  unfold crawl_domain. destruct (db_error world ClaimDomain); [eexists; reflexivity |].
  rewrite bfs_loop_first_batch. cbv zeta.
  destruct (db_error world CompleteDomain); eexists; reflexivity.
Qed.

Lemma NoDup_map_injective {A B : Type} (f : A -> B) (l : list A) (a b : A) :
  NoDup (map f l) -> In a l -> In b l -> f a = f b -> a = b.
Proof.
  induction l as [| x l IH]; intros Hnd Ha Hb E; [destruct Ha |].
  simpl in Hnd. inversion Hnd as [| y ys Hx Hl]; subst.
  destruct Ha as [-> | Ha], Hb as [-> | Hb]; auto.
  - exfalso. apply Hx. rewrite E. now apply in_map.
  - exfalso. apply Hx. rewrite <- E. now apply in_map.
Qed.

Lemma NoDup_map_filter {A B : Type} (f : A -> B) (g : A -> bool) (l : list A) :
  NoDup (map f l) -> NoDup (map f (filter g l)).
Proof.
  induction l as [| x l IH]; intros Hnd; [exact Hnd |].
  simpl in Hnd. inversion Hnd as [| y ys Hx Hl]; subst. simpl.
  destruct (g x); [| auto]. simpl. constructor; [| auto].
  intros Hin. apply Hx. apply in_map_iff in Hin. destruct Hin as [z [E Hz]].
  apply filter_In in Hz. rewrite <- E. apply in_map. tauto.
Qed.

Lemma Forall2_map_self {A B : Type} (R : A -> B -> Prop) (g : A -> B) (l : list A) :
  (forall a, In a l -> R a (g a)) -> Forall2 R l (map g l).
Proof.
  induction l as [| a l IH]; intros H; [constructor |].
  cbn [map]. constructor; [apply H; now left |]. apply IH. intros b Hb. apply H. now right.
Qed.

Section RunnerFacts.

Variable libs : Libraries.
Variable world_of : nat -> World.
Variable schedules_of : nat -> list (list nat).
Variable max_depth : Z.
Variable n : nat.
Variable worker_id : string.

(** The rows of a domain after its crawl. *)
Let crawl_rows (t : crawl_target) : database :=
  match crawl_domain libs (world_of (t_id t)) max_depth (S n) (schedules_of (t_id t))
                     (t_id t) (t_url t) worker_id (t_rows t) with
  | Some o => final_db o
  | None => t_rows t
  end.

(** The table when the domains with the given ids have been crawled. *)
Let step (processed : list nat) (t : crawl_target) : crawl_target :=
  if existsb (Nat.eqb (t_id t)) processed
  then mkTarget (t_id t) (t_url t) (crawl_rows t)
  else t.

Let one := crawl_one libs world_of schedules_of max_depth (S n) worker_id.
Let batch := run_batch libs world_of schedules_of max_depth (S n) worker_id.

Lemma step_id (processed : list nat) (t : crawl_target) : t_id (step processed t) = t_id t.
Proof. unfold step. now destruct (existsb _ processed). Qed.

Lemma step_fresh (processed : list nat) (t : crawl_target) :
  ~ In (t_id t) processed -> step processed t = t.
Proof.
  intros H. unfold step. destruct (existsb (Nat.eqb (t_id t)) processed) eqn:E; [| reflexivity].
  exfalso. apply H. apply existsb_exists in E. destruct E as [i [Hi E]].
  apply Nat.eqb_eq in E. now subst i.
Qed.

Lemma step_ext (p p' : list nat) (t : crawl_target) :
  (In (t_id t) p <-> In (t_id t) p') -> step p t = step p' t.
Proof.
  intros H. unfold step.
  assert (E : existsb (Nat.eqb (t_id t)) p = existsb (Nat.eqb (t_id t)) p').
  { apply eq_true_iff_eq. rewrite !existsb_exists. split; intros [i [Hi E]];
      apply Nat.eqb_eq in E; subst i; exists (t_id t);
      (split; [tauto | apply Nat.eqb_refl]). }
  now rewrite E.
Qed.

Lemma find_step (processed : list nat) (domains : list crawl_target) (t0 : crawl_target) :
  NoDup (map t_id domains) -> In t0 domains -> ~ In (t_id t0) processed ->
  find (fun t => Nat.eqb (t_id t) (t_id t0)) (map (step processed) domains) = Some t0.
Proof.
  intros Hnd Hin Hp. induction domains as [| t rest IH]; [destruct Hin |].
  cbn [map find]. rewrite step_id.
  destruct (Nat.eqb (t_id t) (t_id t0)) eqn:E.
  - apply Nat.eqb_eq in E.
    assert (t = t0) by (eapply (NoDup_map_injective t_id); eauto; now left).
    subst t. now rewrite step_fresh.
  - apply Nat.eqb_neq in E. destruct Hin as [-> | Hin]; [congruence |].
    apply IH; [| exact Hin]. simpl in Hnd. now inversion Hnd.
Qed.

Lemma update_step (processed : list nat) (domains : list crawl_target)
    (t0 : crawl_target) (rows : database) :
  NoDup (map t_id domains) -> In t0 domains ->
  update_target (t_id t0) rows (map (step processed) domains)
  = map (fun t => if Nat.eqb (t_id t) (t_id t0)
                  then mkTarget (t_id t) (t_url t) rows else step processed t)
        domains.
Proof.
  intros Hnd Hin. induction domains as [| t rest IH]; [destruct Hin |].
  cbn [map update_target]. rewrite step_id.
  simpl in Hnd. inversion Hnd as [| y ys Hx Hl]; subst.
  destruct (Nat.eqb (t_id t) (t_id t0)) eqn:E.
  - apply Nat.eqb_eq in E. f_equal.
    + unfold step. now destruct (existsb _ processed).
    + apply map_ext_in. intros r Hr.
      destruct (Nat.eqb (t_id r) (t_id t0)) eqn:Er; [| reflexivity].
      apply Nat.eqb_eq in Er. exfalso. apply Hx. rewrite E, <- Er. now apply in_map.
  - f_equal. apply Nat.eqb_neq in E. destruct Hin as [-> | Hin]; [congruence |]. auto.
Qed.

Lemma crawl_one_step (processed : list nat) (domains : list crawl_target)
    (t0 : crawl_target) :
  NoDup (map t_id domains) -> In t0 domains -> ~ In (t_id t0) processed ->
  one (map (step processed) domains) (t_id t0, t_url t0)
  = Some (map (step (t_id t0 :: processed)) domains).
Proof.
  intros Hnd Hin Hp. unfold one, crawl_one. rewrite (@find_step processed domains t0 Hnd Hin Hp).
  destruct (crawl_domain_returns libs (world_of (t_id t0)) max_depth n
              (schedules_of (t_id t0)) (t_id t0) (t_url t0) worker_id (t_rows t0))
    as [o Eo].
  rewrite Eo, (@update_step processed domains t0 (final_db o) Hnd Hin). f_equal.
  apply map_ext_in. intros t Ht. unfold step at 2. cbn [existsb].
  destruct (Nat.eqb (t_id t) (t_id t0)) eqn:E; cbn [orb].
  - apply Nat.eqb_eq in E.
    assert (t = t0) by (eapply (NoDup_map_injective t_id); eauto).
    subst t. unfold crawl_rows. now rewrite Eo.
  - reflexivity.
Qed.

Lemma run_batch_steps (domains : list crawl_target) (targets : list crawl_target)
    (processed : list nat) :
  NoDup (map t_id domains) ->
  (forall t, In t targets -> In t domains) ->
  NoDup (map t_id targets) ->
  (forall t, In t targets -> ~ In (t_id t) processed) ->
  exists processed',
    (forall i, In i processed' <-> In i (map t_id targets) \/ In i processed) /\
    batch (map (fun t => (t_id t, t_url t)) targets) (map (step processed) domains)
    = Some (map (step processed') domains).
Proof.
  intros Hnd. revert processed.
  induction targets as [| t0 rest IH]; intros processed Hsub Hnt Hfresh.
  - exists processed. split; [simpl; tauto | reflexivity].
  - cbn [map]. unfold batch. cbn [run_batch].
    fold (one (map (step processed) domains) (t_id t0, t_url t0)).
    rewrite (@crawl_one_step processed domains t0 Hnd (Hsub t0 (or_introl eq_refl))
                             (Hfresh t0 (or_introl eq_refl))).
    simpl in Hnt. inversion Hnt as [| y ys Hx Hl]; subst.
    destruct (IH (t_id t0 :: processed)) as [p' [Hp' E]].
    + intros t Ht. apply Hsub. now right.
    + exact Hl.
    + intros t Ht [E | Hin].
      * apply Hx. rewrite E. now apply in_map.
      * exact (Hfresh t (or_intror Ht) Hin).
    + exists p'. split; [| exact E].
      intros i. rewrite Hp'. simpl. tauto.
Qed.

Lemma run_batches_concat (bs : list (list (nat * string))) (domains : list crawl_target) :
  run_batches libs world_of schedules_of max_depth (S n) worker_id bs domains
  = batch (concat bs) domains.
Proof.
  revert domains. induction bs as [| b bs IH]; intros domains; [reflexivity |].
  cbn [run_batches concat]. unfold batch in *.
  revert domains. induction b as [| x b IHb]; intros domains; cbn [app run_batch].
  - apply IH.
  - destruct (crawl_one _ _ _ _ _ _ _ _); [apply IHb | reflexivity].
Qed.

(** The crawls of the pending domains, one after the other, on a table
    with unique ids. *)
Lemma pending_crawled (domains : list crawl_target) :
  NoDup (map t_id domains) ->
  batch (map (fun t => (t_id t, t_url t)) (filter is_pending domains)) domains
  = Some (map (fun t => if is_pending t
                        then mkTarget (t_id t) (t_url t) (crawl_rows t) else t)
              domains).
Proof.
  intros Hnd.
  destruct (@run_batch_steps domains (filter is_pending domains) [] Hnd)
    as [p' [Hp' E]].
  - intros t Ht. apply filter_In in Ht. tauto.
  - now apply NoDup_map_filter.
  - intros t _ [].
  - assert (Hid : map (step []) domains = domains).
    { rewrite <- (map_id domains) at 2. apply map_ext. intros t. reflexivity. }
    rewrite Hid in E. rewrite E. f_equal. apply map_ext_in. intros t Ht.
    destruct (is_pending t) eqn:Ep.
    + unfold step.
      assert (Hin : In (t_id t) p').
      { apply Hp'. left. apply in_map. apply filter_In. tauto. }
      destruct (existsb (Nat.eqb (t_id t)) p') eqn:Ee; [reflexivity |].
      exfalso. assert (Hex : existsb (Nat.eqb (t_id t)) p' = true).
      { apply existsb_exists. exists (t_id t). split; [exact Hin | apply Nat.eqb_refl]. }
      congruence.
    + apply step_fresh. intros Hin. apply Hp' in Hin. destruct Hin as [Hin | []].
      apply in_map_iff in Hin. destruct Hin as [t1 [E1 H1]].
      apply filter_In in H1. destruct H1 as [H1 Hp1].
      assert (t1 = t) by (eapply (NoDup_map_injective t_id); eauto).
      subst t1. congruence.
Qed.

End RunnerFacts.

Lemma process_search_crawls (libs : Libraries) (world_of : nat -> World)
    (schedules_of : nat -> list (list nat)) (max_depth max_concurrent : Z)
    (search_error : search_statement -> option string) (clock : search_statement -> nat)
    (n : nat) (worker_id : string) (s : search_state) :
  search_error StartSearch = None ->
  search_error SelectDomains = None ->
  (0 < max_concurrent)%Z ->
  NoDup (map t_id (ss_domains s)) ->
  (forall t, In t (ss_domains s) -> is_pending t = true ->
             db_error (world_of (t_id t)) ClaimDomain = None /\
             db_error (world_of (t_id t)) CompleteDomain = None) ->
  existsb is_pending (ss_domains s) = true ->
  exists domains',
    pending_crawled_once max_depth (ss_domains s) domains' /\
    process_search libs world_of schedules_of max_depth max_concurrent search_error clock
                   (S n) worker_id s
    = match search_error CompleteSearch with
      | Some _ =>
          Some (fail_search search_error
                  (mkSearchState SearchInProgress (Some (clock StartSearch))
                                 (ss_completed_at s) domains'))
      | None =>
          Some (mkSearchState SearchCompleted (Some (clock StartSearch))
                              (Some (clock CompleteSearch)) domains')
      end.
Proof.
  intros Hs Hsel Hpos Hnd Hok Hex. unfold process_search.
  rewrite Hs, Hsel. cbv zeta. cbn [ss_domains ss_status ss_started_at ss_completed_at].
  destruct (batches_cover (map (fun t => (t_id t, t_url t))
                               (filter is_pending (ss_domains s))) Hpos)
    as [bs [Eb Ecat]].
  destruct (map (fun t => (t_id t, t_url t)) (filter is_pending (ss_domains s)))
    as [| x l] eqn:El.
  - exfalso. apply existsb_exists in Hex. destruct Hex as [t [Ht Hp]].
    assert (Hin : In t (filter is_pending (ss_domains s))) by (apply filter_In; tauto).
    destruct (filter is_pending (ss_domains s)); [destruct Hin | discriminate El].
  - rewrite Eb, run_batches_concat, Ecat, <- El,
      (@pending_crawled libs world_of schedules_of max_depth n worker_id (ss_domains s) Hnd).
    eexists. split; [| reflexivity].
    apply Forall2_map_self. intros t Ht.
    destruct (is_pending t) eqn:Ep; [| auto]. unfold crawled_once. cbn [t_id t_url t_rows].
    repeat (split; [reflexivity |]).
    destruct (Hok t Ht Ep) as [Hcl Hco].
    destruct (crawl_domain_completes libs (world_of (t_id t)) max_depth n
                (schedules_of (t_id t)) (t_id t) (t_url t) worker_id (t_rows t) Hcl Hco)
      as [o [Eo Ho]].
    rewrite Eo. exact Ho.
Qed.

(** X14: when the statements on the search succeed, the batch size is
    positive, the domains of the search have distinct ids, and claiming and
    completing each pending domain succeed, [process_search] returns with
    the search completed, and the pending domains, whatever their number and
    the batches they fall in, all end completed with their lock released
    and with one page crawled, or none when [max_depth] is negative; every
    other domain is left as it was. *)
Theorem process_search_completes_pending (libs : Libraries) (world_of : nat -> World)
    (schedules_of : nat -> list (list nat)) (max_depth max_concurrent : Z)
    (search_error : search_statement -> option string) (clock : search_statement -> nat)
    (n : nat) (worker_id : string) (s : search_state) :
  search_error StartSearch = None ->
  search_error SelectDomains = None ->
  search_error CompleteSearch = None ->
  (0 < max_concurrent)%Z ->
  NoDup (map t_id (ss_domains s)) ->
  (forall t, In t (ss_domains s) -> is_pending t = true ->
             db_error (world_of (t_id t)) ClaimDomain = None /\
             db_error (world_of (t_id t)) CompleteDomain = None) ->
  existsb is_pending (ss_domains s) = true ->
  exists domains',
    pending_crawled_once max_depth (ss_domains s) domains' /\
    process_search libs world_of schedules_of max_depth max_concurrent search_error clock
                   (S n) worker_id s
    = Some (mkSearchState SearchCompleted (Some (clock StartSearch))
                          (Some (clock CompleteSearch)) domains').
Proof.
  intros Hs Hsel Hc Hpos Hnd Hok Hex.
  destruct (@process_search_crawls libs world_of schedules_of max_depth max_concurrent
              search_error clock n worker_id s Hs Hsel Hpos Hnd Hok Hex)
    as [domains' [Hd E]].
  exists domains'. split; [exact Hd |]. now rewrite E, Hc.
Qed.

Lemma process_search_completes_pending_witness :
  exists domains',
    pending_crawled_once 2 (ss_domains three_domains) domains' /\
    process_search text_libs (fun _ => site_world) (fun _ => []) 2 2%Z no_search_error
                   search_clock 1 "worker-1" three_domains
    = Some (mkSearchState SearchCompleted (Some 100) (Some 160) domains').
Proof.
  apply (@process_search_completes_pending text_libs (fun _ => site_world) (fun _ => [])
           2 2%Z no_search_error search_clock 0 "worker-1" three_domains);
    try reflexivity.
  - repeat constructor; simpl; intuition discriminate.
  - intros t _ _. split; reflexivity.
Defined.

(** X15: when the last update of the search raises after the crawls, the
    pending domains have all been crawled and stay completed, with one
    page, or none when [max_depth] is negative, but the search is not
    completed: it is marked failed, or, when that update raises too, left
    in progress; [process_search] returns normally in both cases. *)
Theorem process_search_completion_fails (libs : Libraries) (world_of : nat -> World)
    (schedules_of : nat -> list (list nat)) (max_depth max_concurrent : Z)
    (search_error : search_statement -> option string) (clock : search_statement -> nat)
    (n : nat) (worker_id : string) (s : search_state) (msg : string) :
  search_error StartSearch = None ->
  search_error SelectDomains = None ->
  search_error CompleteSearch = Some msg ->
  (0 < max_concurrent)%Z ->
  NoDup (map t_id (ss_domains s)) ->
  (forall t, In t (ss_domains s) -> is_pending t = true ->
             db_error (world_of (t_id t)) ClaimDomain = None /\
             db_error (world_of (t_id t)) CompleteDomain = None) ->
  existsb is_pending (ss_domains s) = true ->
  exists domains',
    pending_crawled_once max_depth (ss_domains s) domains' /\
    process_search libs world_of schedules_of max_depth max_concurrent search_error clock
                   (S n) worker_id s
    = Some (mkSearchState
              (match search_error FailSearch with
               | None => SearchFailed
               | Some _ => SearchInProgress
               end)
              (Some (clock StartSearch)) (ss_completed_at s) domains').
Proof.
  intros Hs Hsel Hc Hpos Hnd Hok Hex.
  destruct (@process_search_crawls libs world_of schedules_of max_depth max_concurrent
              search_error clock n worker_id s Hs Hsel Hpos Hnd Hok Hex)
    as [domains' [Hd E]].
  exists domains'. split; [exact Hd |]. rewrite E, Hc. unfold fail_search.
  now destruct (search_error FailSearch).
Qed.

Lemma process_search_completion_fails_witness :
  exists domains',
    pending_crawled_once 2 (ss_domains three_domains) domains' /\
    process_search text_libs (fun _ => site_world) (fun _ => []) 2 2%Z complete_fails
                   search_clock 1 "worker-1" three_domains
    = Some (mkSearchState SearchFailed (Some 100) None domains').
Proof.
  apply (@process_search_completion_fails text_libs (fun _ => site_world) (fun _ => [])
           2 2%Z complete_fails search_clock 0 "worker-1" three_domains
           "(2013, 'Lost connection to MySQL server during query')");
    try reflexivity.
  - repeat constructor; simpl; intuition discriminate.
  - intros t _ _. split; reflexivity.
Defined.

(** X16: a batch size that is not positive crawls nothing.  With the batch
    size 0 the [range] of the batches raises and the search is marked
    failed; with a negative one the range is empty and the search is marked
    completed, with its pending domains still pending. *)
Theorem process_search_nonpositive_batch (libs : Libraries) (world_of : nat -> World)
    (schedules_of : nat -> list (list nat)) (max_depth max_concurrent : Z)
    (search_error : search_statement -> option string) (clock : search_statement -> nat)
    (fuel : nat) (worker_id : string) (s : search_state) :
  (forall st, search_error st = None) ->
  (max_concurrent <= 0)%Z ->
  existsb is_pending (ss_domains s) = true ->
  process_search libs world_of schedules_of max_depth max_concurrent search_error clock
                 fuel worker_id s
  = Some (if (max_concurrent =? 0)%Z
          then mkSearchState SearchFailed (Some (clock StartSearch)) (ss_completed_at s)
                             (ss_domains s)
          else mkSearchState SearchCompleted (Some (clock StartSearch))
                             (Some (clock CompleteSearch)) (ss_domains s)).
Proof.
  intros Hok Hle Hex. unfold process_search, fail_search. rewrite !Hok. cbv zeta.
  cbn [ss_domains ss_status ss_started_at ss_completed_at].
  destruct (map (fun t => (t_id t, t_url t)) (filter is_pending (ss_domains s)))
    as [| x l] eqn:El.
  - exfalso. apply existsb_exists in Hex. destruct Hex as [t [Ht Hp]].
    assert (Hin : In t (filter is_pending (ss_domains s))) by (apply filter_In; tauto).
    destruct (filter is_pending (ss_domains s)); [destruct Hin | discriminate El].
  - unfold batches, range_from_zero. destruct (max_concurrent =? 0)%Z eqn:E0.
    + reflexivity.
    + replace (max_concurrent <? 0)%Z with true
        by (symmetry; apply Z.ltb_lt; apply Z.eqb_neq in E0; lia).
      reflexivity.
Qed.

Lemma process_search_nonpositive_batch_witness :
  process_search text_libs (fun _ => site_world) (fun _ => []) 2 0%Z no_search_error
                 search_clock 1 "worker-1" three_domains
  = Some (mkSearchState SearchFailed (Some 100) None (ss_domains three_domains)).
Proof.
  apply (@process_search_nonpositive_batch text_libs (fun _ => site_world) (fun _ => [])
           2 0%Z no_search_error search_clock 1 "worker-1" three_domains).
  - reflexivity.
  - lia.
  - reflexivity.
Defined.

(** X17: a search without a pending domain is put in progress by
    [process_search] and left there: it is not completed, its domains are
    not touched, and [get_pending_search] passes over it from then on. *)
Theorem process_search_without_pending (libs : Libraries) (world_of : nat -> World)
    (schedules_of : nat -> list (list nat)) (max_depth max_concurrent : Z)
    (search_error : search_statement -> option string) (clock : search_statement -> nat)
    (fuel : nat) (worker_id : string) (s : search_state) :
  search_error StartSearch = None ->
  search_error SelectDomains = None ->
  existsb is_pending (ss_domains s) = false ->
  exists s',
    process_search libs world_of schedules_of max_depth max_concurrent search_error clock
                   fuel worker_id s = Some s' /\
    ss_status s' = SearchInProgress /\
    ss_completed_at s' = ss_completed_at s /\
    ss_domains s' = ss_domains s /\
    forall query_error search_id created_at table,
      get_pending_search query_error (mkEntry search_id created_at s' :: table)
      = get_pending_search query_error table.
Proof.
  intros Hs Hsel Hno. unfold process_search. rewrite Hs, Hsel. cbv zeta.
  cbn [ss_domains ss_status ss_started_at ss_completed_at].
  assert (E : filter is_pending (ss_domains s) = []).
  { induction (ss_domains s) as [| t rest IH]; [reflexivity |].
    cbn [existsb] in Hno. apply orb_false_elim in Hno. destruct Hno as [Ht Hrest].
    cbn [filter]. rewrite Ht. auto. }
  rewrite E. cbn [map]. eexists. split; [reflexivity |].
  cbn [ss_domains ss_status ss_started_at ss_completed_at]. repeat (split; [reflexivity |]).
  intros query_error search_id created_at table. unfold get_pending_search.
  cbn [filter]. unfold status_pending at 1, in_progress_with_pending at 1.
  cbn [en_search ss_status ss_domains]. now rewrite Hno.
Qed.

Lemma process_search_without_pending_witness :
  exists s',
    process_search text_libs (fun _ => site_world) (fun _ => []) 2 2%Z no_search_error
                   search_clock 1 "worker-1" crawled_search = Some s' /\
    ss_status s' = SearchInProgress /\
    ss_completed_at s' = ss_completed_at crawled_search /\
    ss_domains s' = ss_domains crawled_search /\
    forall query_error search_id created_at table,
      get_pending_search query_error (mkEntry search_id created_at s' :: table)
      = get_pending_search query_error table.
Proof.
  apply (@process_search_without_pending text_libs (fun _ => site_world) (fun _ => [])
           2 2%Z no_search_error search_clock 1 "worker-1" crawled_search);
    reflexivity.
Defined.

(** ** The worker *)

Lemma oldest_none (rows : list search_entry) : oldest rows = None -> rows = [].
Proof.
  destruct rows as [| e rest]; [reflexivity |]. cbn [oldest].
  destruct (oldest rest) as [e' |]; [| discriminate].
  destruct (Nat.leb _ _); discriminate.
Qed.

Lemma oldest_some (rows : list search_entry) (e : search_entry) :
  oldest rows = Some e ->
  In e rows /\ forall e', In e' rows -> en_created_at e <= en_created_at e'.
Proof.
  revert e. induction rows as [| x rest IH]; intros e; [discriminate |].
  cbn [oldest]. destruct (oldest rest) as [e' |] eqn:Eo.
  - destruct (IH e' eq_refl) as [Hin Hmin].
    destruct (Nat.leb (en_created_at x) (en_created_at e')) eqn:El; intros [= <-].
    + apply Nat.leb_le in El. split; [now left |].
      intros y [<- | Hy]; [lia |]. specialize (Hmin y Hy). lia.
    + apply Nat.leb_gt in El. split; [now right |].
      intros y [<- | Hy]; [lia | auto].
  - intros [= <-]. apply oldest_none in Eo. subst rest. split; [now left |].
    intros y [<- | []]. lia.
Qed.

Lemma oldest_filter (test : search_entry -> bool) (table : list search_entry)
    (e : search_entry) :
  oldest (filter test table) = Some e -> oldest_of test table e.
Proof.
  intros H. apply oldest_some in H. destruct H as [Hin Hmin].
  apply filter_In in Hin. destruct Hin as [Hin Ht]. repeat split; auto.
  intros e' He' Ht'. apply Hmin. apply filter_In. tauto.
Qed.

Lemma filter_nil_false {A : Type} (test : A -> bool) (l : list A) :
  filter test l = [] <-> forall a, In a l -> test a = false.
Proof.
  split.
  - intros E a Ha. destruct (test a) eqn:Et; [| reflexivity].
    assert (Hin : In a (filter test l)) by (apply filter_In; tauto).
    rewrite E in Hin. destruct Hin.
  - intros H. induction l as [| x l IH]; [reflexivity |].
    cbn [filter]. rewrite (H x (or_introl eq_refl)). apply IH.
    intros a Ha. apply H. now right.
Qed.

(** X18: the search that [get_pending_search] returns is in the table and
    is an oldest pending search; only when no search is pending it is an
    oldest search in progress that has a pending domain. *)
Theorem get_pending_search_oldest (query_error : option string)
    (table : list search_entry) (search_id : nat) :
  get_pending_search query_error table = Some search_id ->
  exists e,
    en_id e = search_id /\
    (oldest_of status_pending table e \/
     (forall e', In e' table -> status_pending e' = false) /\
     oldest_of in_progress_with_pending table e).
Proof.
  unfold get_pending_search. destruct query_error; [discriminate |].
  destruct (oldest (filter status_pending table)) as [e |] eqn:E1.
  - intros [= <-]. exists e. split; [reflexivity |]. left. now apply oldest_filter.
  - destruct (oldest (filter in_progress_with_pending table)) as [e |] eqn:E2;
      [| discriminate].
    intros [= <-]. exists e. split; [reflexivity |]. right. split.
    + apply filter_nil_false. now apply oldest_none.
    + now apply oldest_filter.
Qed.

Lemma get_pending_search_oldest_witness :
  exists e,
    en_id e = 3 /\
    (oldest_of status_pending three_searches e \/
     (forall e', In e' three_searches -> status_pending e' = false) /\
     oldest_of in_progress_with_pending three_searches e).
Proof.
  apply (@get_pending_search_oldest None three_searches 3). reflexivity.
Defined.

(** X19: [get_pending_search] returns nothing exactly when its queries
    raise or no search of the table is eligible: none is pending, and none
    in progress has a pending domain. *)
Theorem get_pending_search_none (query_error : option string)
    (table : list search_entry) :
  get_pending_search query_error table = None <->
  (exists msg, query_error = Some msg) \/
  (forall e, In e table -> eligible e = false).
Proof.
  unfold get_pending_search, eligible. split.
  - destruct query_error as [msg |]; [intros _; left; now exists msg |].
    destruct (oldest (filter status_pending table)) as [e |] eqn:E1; [discriminate |].
    destruct (oldest (filter in_progress_with_pending table)) as [e |] eqn:E2;
      [discriminate |].
    intros _. right. intros e He.
    apply oldest_none in E1, E2.
    rewrite (proj1 (filter_nil_false _ _) E1 e He), (proj1 (filter_nil_false _ _) E2 e He).
    reflexivity.
  - intros [[msg ->] | H]; [reflexivity |]. destruct query_error; [reflexivity |].
    assert (E1 : filter status_pending table = []).
    { apply filter_nil_false. intros e He. specialize (H e He).
      now apply orb_false_elim in H. }
    assert (E2 : filter in_progress_with_pending table = []).
    { apply filter_nil_false. intros e He. specialize (H e He).
      now apply orb_false_elim in H. }
    now rewrite E1, E2.
Qed.

(** ** Pause, resume and cancel *)

Lemma update_status_map (search_id : nat) (test : search_status -> bool)
    (new : search_status) (table : list search_entry) :
  fst (update_status search_id test new table)
  = map (fun e => if Nat.eqb (en_id e) search_id && test (ss_status (en_search e))
                  then with_status new e else e)
        table.
Proof.
  induction table as [| e rest IH]; [reflexivity |]. cbn [update_status map].
  destruct (update_status search_id test new rest) as [rest' k]. cbn [fst] in IH.
  rewrite <- IH.
  now destruct (Nat.eqb (en_id e) search_id && test (ss_status (en_search e))).
Qed.

Lemma update_status_miss (search_id : nat) (test : search_status -> bool)
    (new : search_status) (table : list search_entry) :
  (forall e, In e table -> en_id e = search_id -> test (ss_status (en_search e)) = false) ->
  update_status search_id test new table = (table, 0).
Proof.
  induction table as [| e rest IH]; intros H; [reflexivity |]. cbn [update_status].
  rewrite IH by (intros x Hx; apply H; now right).
  destruct (Nat.eqb (en_id e) search_id) eqn:E; [| reflexivity].
  apply Nat.eqb_eq in E. now rewrite (H e (or_introl eq_refl) E).
Qed.

Lemma update_status_hit (search_id : nat) (test : search_status -> bool)
    (new : search_status) (table : list search_entry) (e : search_entry) :
  In e table -> en_id e = search_id -> test (ss_status (en_search e)) = true ->
  Nat.eqb (snd (update_status search_id test new table)) 0 = false.
Proof.
  induction table as [| x rest IH]; intros Hin Hid Ht; [destruct Hin |].
  cbn [update_status]. destruct (update_status search_id test new rest) as [rest' k].
  destruct Hin as [-> | Hin].
  - rewrite Hid, Nat.eqb_refl, Ht. reflexivity.
  - cbn [snd] in IH. specialize (IH Hin Hid Ht).
    now destruct (Nat.eqb (en_id x) search_id && test (ss_status (en_search x))).
Qed.

Lemma filter_hidden (test : search_entry -> bool) (f : search_entry -> search_entry)
    (search_id : nat) (table : list search_entry) :
  (forall e, In e table ->
             if Nat.eqb (en_id e) search_id then test (f e) = false else f e = e) ->
  filter test (map f table) = filter test (without search_id table).
Proof.
  unfold without. induction table as [| e rest IH]; intros H; [reflexivity |].
  cbn [map filter]. pose proof (H e (or_introl eq_refl)) as He.
  rewrite IH by (intros x Hx; apply H; now right).
  destruct (Nat.eqb (en_id e) search_id); cbn [negb].
  - now rewrite He.
  - rewrite He. reflexivity.
Qed.

Lemma get_pending_search_hidden (f : search_entry -> search_entry) (search_id : nat)
    (table : list search_entry) (query_error : option string) :
  (forall e, In e table ->
             if Nat.eqb (en_id e) search_id then eligible (f e) = false else f e = e) ->
  get_pending_search query_error (map f table)
  = get_pending_search query_error (without search_id table).
Proof.
  intros H. unfold get_pending_search.
  rewrite (@filter_hidden status_pending f search_id table),
          (@filter_hidden in_progress_with_pending f search_id table);
    [reflexivity | |];
    intros e He; specialize (H e He); destruct (Nat.eqb (en_id e) search_id); auto;
    unfold eligible in H; now apply orb_false_elim in H.
Qed.

Lemma entry_eta (e : search_entry) :
  with_status (ss_status (en_search e)) e = e.
Proof. destruct e as [i c [st sa ca ds]]. reflexivity. Qed.

(** X20: pausing a search that is not in progress, or that does not exist,
    is refused with a 400 and changes no row. *)
Theorem pause_search_refused (admin_error : admin_statement -> option string)
    (search_id : nat) (table : list search_entry) :
  admin_error PauseUpdate = None ->
  (forall e, In e table -> en_id e = search_id ->
             is_in_progress (ss_status (en_search e)) = false) ->
  pause_search admin_error search_id table
  = (table, BadRequest400 "Search not found or not in progress").
Proof.
  intros Hok H. unfold pause_search. rewrite Hok, update_status_miss by exact H.
  reflexivity.
Qed.

Lemma pause_search_refused_witness :
  pause_search no_admin_error 3 two_searches
  = (two_searches, BadRequest400 "Search not found or not in progress").
Proof.
  apply (@pause_search_refused no_admin_error 3 two_searches); [reflexivity |].
  intros e [<- | [<- | []]]; intros E; [discriminate E | reflexivity].
Defined.

(** X21: resuming a search that is not paused, or that does not exist, is
    refused with a 400: no row changes and no extraction worker is
    started. *)
Theorem resume_search_refused (admin_error : admin_statement -> option string)
    (search_id : nat) (table : list search_entry) :
  admin_error ResumeUpdate = None ->
  (forall e, In e table -> en_id e = search_id ->
             is_paused (ss_status (en_search e)) = false) ->
  resume_search admin_error search_id table
  = (table, [], BadRequest400 "Search not found or not paused").
Proof.
  intros Hok H. unfold resume_search. rewrite Hok, update_status_miss by exact H.
  reflexivity.
Qed.

Lemma resume_search_refused_witness :
  resume_search no_admin_error 2 two_searches
  = (two_searches, [], BadRequest400 "Search not found or not paused").
Proof.
  apply (@resume_search_refused no_admin_error 2 two_searches); [reflexivity |].
  intros e [<- | [<- | []]]; intros E; [reflexivity | discriminate E].
Defined.

(** X22: pausing a search in progress answers 200 and hides the search
    from [get_pending_search], which answers as if the search were not in
    the table; resuming it then answers 200, starts one extraction worker
    for it, and gives the table back as it was before the pause. *)
Theorem pause_then_resume (admin_error : admin_statement -> option string)
    (search_id : nat) (table : list search_entry) (e : search_entry) :
  admin_error PauseUpdate = None ->
  admin_error ResumeUpdate = None ->
  NoDup (map en_id table) ->
  In e table ->
  en_id e = search_id ->
  ss_status (en_search e) = SearchInProgress ->
  exists paused,
    pause_search admin_error search_id table = (paused, Ok200 "Search paused" search_id) /\
    (forall query_error,
       get_pending_search query_error paused
       = get_pending_search query_error (without search_id table)) /\
    resume_search admin_error search_id paused
    = (table, [search_id], Ok200 "Search resumed" search_id).
Proof.
  intros Hp Hr Hnd Hin Hid Hst.
  assert (Hsame : forall x, In x table -> Nat.eqb (en_id x) search_id = true -> x = e).
  { intros x Hx E. apply Nat.eqb_eq in E.
    apply (NoDup_map_injective en_id table); auto. congruence. }
  set (f := fun x => if Nat.eqb (en_id x) search_id
                        && is_in_progress (ss_status (en_search x))
                     then with_status SearchPaused x else x).
  assert (Hf : forall x, In x table ->
             f x = if Nat.eqb (en_id x) search_id then with_status SearchPaused x else x).
  { intros x Hx. unfold f. destruct (Nat.eqb (en_id x) search_id) eqn:E; [| reflexivity].
    rewrite (Hsame x Hx E), Hst. reflexivity. }
  exists (map f table). split; [| split].
  - unfold pause_search. rewrite Hp.
    pose proof (update_status_map search_id is_in_progress SearchPaused table) as Em.
    pose proof (@update_status_hit search_id is_in_progress SearchPaused table e Hin Hid) as Eh.
    rewrite Hst in Eh. specialize (Eh eq_refl).
    destruct (update_status search_id is_in_progress SearchPaused table) as [t' k].
    cbn [fst snd] in Em, Eh. rewrite Eh, Em. reflexivity.
  - intros query_error. apply get_pending_search_hidden. intros x Hx.
    rewrite (Hf x Hx). destruct (Nat.eqb (en_id x) search_id); reflexivity.
  - unfold resume_search. rewrite Hr.
    pose proof (update_status_map search_id is_paused SearchInProgress (map f table)) as Em.
    assert (Eh : Nat.eqb (snd (update_status search_id is_paused SearchInProgress
                                             (map f table))) 0 = false).
    { apply (@update_status_hit search_id is_paused SearchInProgress (map f table) (f e)).
      - now apply in_map.
      - rewrite (Hf e Hin), <- Hid, Nat.eqb_refl. reflexivity.
      - rewrite (Hf e Hin), <- Hid, Nat.eqb_refl. reflexivity. }
    destruct (update_status search_id is_paused SearchInProgress (map f table)) as [t' k].
    cbn [fst snd] in Em, Eh. rewrite Eh, Em. f_equal. f_equal.
    rewrite map_map. rewrite <- (map_id table) at 2. apply map_ext_in. intros x Hx.
    rewrite (Hf x Hx). destruct (Nat.eqb (en_id x) search_id) eqn:E.
    + cbn [with_status en_id en_search ss_status]. rewrite E. cbn [is_paused andb].
      cbn [en_created_at ss_started_at ss_completed_at ss_domains].
      transitivity (with_status (ss_status (en_search x)) x); [| apply entry_eta].
      rewrite (Hsame x Hx E), Hst. reflexivity.
    + rewrite E. reflexivity.
Qed.

Lemma pause_then_resume_witness :
  exists paused,
    pause_search no_admin_error 2 two_searches = (paused, Ok200 "Search paused" 2) /\
    (forall query_error,
       get_pending_search query_error paused
       = get_pending_search query_error (without 2 two_searches)) /\
    resume_search no_admin_error 2 paused
    = (two_searches, [2], Ok200 "Search resumed" 2).
Proof.
  apply (@pause_then_resume no_admin_error 2 two_searches
           (mkEntry 2 20 (mkSearchState SearchInProgress (Some 21) None
                            [mkTarget 1 "https://a.test" crawling_db;
                             mkTarget 3 "https://c.test" pending_db])));
    try reflexivity.
  - repeat constructor; simpl; intuition discriminate.
  - now left.
Defined.

(** X23: cancelling a search that exists and is not cancelled answers 200
    and marks it cancelled; its domains keep their status, those being
    crawled lose their worker and their lock; the other searches are
    untouched, and [get_pending_search] answers from then on as if the
    search were not in the table. *)
Theorem cancel_search_effect (admin_error : admin_statement -> option string)
    (search_id : nat) (table : list search_entry) (e : search_entry) :
  (forall st, admin_error st = None) ->
  NoDup (map en_id table) ->
  In e table ->
  en_id e = search_id ->
  not_cancelled (ss_status (en_search e)) = true ->
  exists table',
    cancel_search admin_error search_id table
    = (table', Ok200 "Search cancelled" search_id) /\
    table' = map (fun x => if Nat.eqb (en_id x) search_id then cancelled x else x) table /\
    forall query_error,
      get_pending_search query_error table'
      = get_pending_search query_error (without search_id table).
Proof.
  intros Hok Hnd Hin Hid Hst.
  assert (Hsame : forall x, In x table -> Nat.eqb (en_id x) search_id = true -> x = e).
  { intros x Hx E. apply Nat.eqb_eq in E.
    apply (NoDup_map_injective en_id table); auto. congruence. }
  exists (map (fun x => if Nat.eqb (en_id x) search_id then cancelled x else x) table).
  split; [| split; [reflexivity |]].
  - unfold cancel_search. rewrite !Hok.
    pose proof (update_status_map search_id not_cancelled SearchCancelled table) as Em.
    pose proof (@update_status_hit search_id not_cancelled SearchCancelled table e
                  Hin Hid Hst) as Eh.
    destruct (update_status search_id not_cancelled SearchCancelled table) as [t' k].
    cbn [fst snd] in Em, Eh. rewrite Eh, Em. f_equal.
    unfold unlock_domains. rewrite map_map. apply map_ext_in. intros x Hx.
    destruct (Nat.eqb (en_id x) search_id) eqn:E; cbn [andb].
    + rewrite (Hsame x Hx E), Hst. subst search_id. cbn [with_status en_id].
      rewrite Nat.eqb_refl. reflexivity.
    + now rewrite E.
  - intros query_error. apply get_pending_search_hidden. intros x Hx.
    destruct (Nat.eqb (en_id x) search_id); reflexivity.
Qed.

Lemma cancel_search_effect_witness :
  exists table',
    cancel_search no_admin_error 2 two_searches = (table', Ok200 "Search cancelled" 2) /\
    table' = map (fun x => if Nat.eqb (en_id x) 2 then cancelled x else x) two_searches /\
    forall query_error,
      get_pending_search query_error table'
      = get_pending_search query_error (without 2 two_searches).
Proof.
  apply (@cancel_search_effect no_admin_error 2 two_searches
           (mkEntry 2 20 (mkSearchState SearchInProgress (Some 21) None
                            [mkTarget 1 "https://a.test" crawling_db;
                             mkTarget 3 "https://c.test" pending_db])));
    try reflexivity.
  - repeat constructor; simpl; intuition discriminate.
  - now left.
Defined.

(** X24: cancelling a search that is not in the table answers 404 and
    changes no row. *)
Theorem cancel_search_unknown (admin_error : admin_statement -> option string)
    (search_id : nat) (table : list search_entry) :
  admin_error CancelUpdate = None ->
  (forall e, In e table -> Nat.eqb (en_id e) search_id = false) ->
  cancel_search admin_error search_id table = (table, NotFound404 "Search not found").
Proof.
  intros Hok H. unfold cancel_search. rewrite Hok, update_status_miss; [reflexivity |].
  intros e He E. specialize (H e He). rewrite E, Nat.eqb_refl in H. discriminate H.
Qed.

Lemma cancel_search_unknown_witness :
  cancel_search no_admin_error 7 two_searches
  = (two_searches, NotFound404 "Search not found").
Proof.
  apply (@cancel_search_unknown no_admin_error 7 two_searches); [reflexivity |].
  intros e [<- | [<- | []]]; reflexivity.
Defined.
